(** * WeKnora, Milvus retriever: filter compiler and repository operations

    A shallow embedding of
      - internal/application/repository/retriever/milvus/filter.go
      - the Milvus repository (structs and repository methods)
    together with the properties of the retrieval-layer specification.

    Conventions.
      - Go [int]/[int64] values are [Z]; arithmetic that can leave the 64-bit
        range is wrapped with [wrap64].
      - Go strings are byte strings: [string], [len] is [String.length].
      - [map[string]any] is [gmap string value]; [maps.Copy dst src] is
        [src ∪ dst] (stdpp's union is left-biased).
      - [error] results are the sum type [result]; a run-time panic is a
        separate outcome of a repository program. *)

From Stdlib Require Import ZArith Ascii String List Lia.
From stdpp Require Import base decidable option list gmap strings pretty.

Local Open Scope string_scope.
Local Open Scope list_scope.
Local Open Scope Z_scope.

(** * Part I: the embedding of the program, the vocabulary of its properties
    and the examples *)

(** ** Machine integers *)

Definition wrap64 (z : Z) : Z := (z + 2 ^ 63) mod 2 ^ 64 - 2 ^ 63.

Definition len (s : string) : Z := Z.of_nat (String.length s).

(** ** Strings: the few functions of package [strings] and [fmt] in use *)

(** [strings.ReplaceAll(field, ".", "_")] *)
Fixpoint replaceDots (s : string) : string :=
  match s with
  | EmptyString => EmptyString
  | String c rest =>
      String (if Ascii.eqb c "."%char then "_"%char else c) (replaceDots rest)
  end.

Definition lowerAscii (c : ascii) : ascii :=
  let n := nat_of_ascii c in
  if (Nat.leb 65 n && Nat.leb n 90)%bool then ascii_of_nat (n + 32) else c.

(** [strings.ToLower], on the ASCII range (the operators that reach it are
    ASCII keywords). *)
Fixpoint toLower (s : string) : string :=
  match s with
  | EmptyString => EmptyString
  | String c rest => String (lowerAscii c) (toLower rest)
  end.

(** [strings.HasPrefix] and [strings.TrimPrefix] *)
Fixpoint hasPrefix (s p : string) : bool :=
  match p, s with
  | EmptyString, _ => true
  | String _ _, EmptyString => false
  | String a p', String b s' => Ascii.eqb a b && hasPrefix s' p'
  end.

Fixpoint dropBytes (n : nat) (s : string) : string :=
  match n, s with
  | O, _ => s
  | S _, EmptyString => EmptyString
  | S n', String _ s' => dropBytes n' s'
  end.

Definition trimPrefix (s p : string) : string :=
  if hasPrefix s p then dropBytes (String.length p) s else s.

(** [fmt.Sprintf("%d", n)] *)
Definition fmtInt (n : Z) : string := pretty n.

(** ** The filter condition tree

    [universalFilterCondition] has a dynamically typed [Value]: nil, a
    scalar, a slice, or a slice of pointers to sub-conditions.  A pointer to
    a condition may be nil. *)

Local Unset Elimination Schemes.

Inductive value : Type :=
| VNil
| VBool (b : bool)
| VInt (z : Z)
| VFloat (bits : Z)
| VStr (s : string)
| VSlice (elems : list value)
| VCond (c : condptr)
| VConds (cs : list condptr)
with condptr : Type :=
| NilCond
| Cond (Field Operator : string) (Value : value).

Local Set Elimination Schemes.

Inductive error : Type :=
| Errorf (msg : string)
| ErrorfV (msg : string) (v : value)
| Wrap (msg : string) (inner : error).

Inductive result (A : Type) : Type :=
| Ok (a : A)
| Fail (e : error).

Arguments Ok {A} a.

Arguments Fail {A} e.

Definition isOk {A} (r : result A) : bool :=
  match r with Ok _ => true | Fail _ => false end.

Definition operatorAnd := "and".

Definition operatorOr := "or".

Definition operatorEqual := "eq".

Definition operatorNotEqual := "ne".

Definition operatorGreaterThan := "gt".

Definition operatorGreaterThanOrEqual := "gte".

Definition operatorLessThan := "lt".

Definition operatorLessThanOrEqual := "lte".

Definition operatorIn := "in".

Definition operatorNotIn := "not in".

Definition operatorLike := "like".

Definition operatorNotLike := "not like".

Definition operatorBetween := "between".

Definition comparisonOperators (op : string) : option string :=
  if String.eqb op operatorEqual then Some "=="
  else if String.eqb op operatorNotEqual then Some "!="
  else if String.eqb op operatorGreaterThan then Some ">"
  else if String.eqb op operatorGreaterThanOrEqual then Some ">="
  else if String.eqb op operatorLessThan then Some "<"
  else if String.eqb op operatorLessThanOrEqual then Some "<="
  else if String.eqb op operatorLike then Some "like"
  else if String.eqb op operatorNotLike then Some "not like"
  else None.

Record convertResult : Type := mkResult {
  exprStr : string;
  params : gmap string value
}.

(** [reflect.ValueOf(v)]: the length when the kind is [reflect.Slice]. *)
Definition sliceLen (v : value) : option Z :=
  match v with
  | VSlice l => Some (Z.of_nat (length l))
  | VConds l => Some (Z.of_nat (length l))
  | _ => None
  end.

(** [reflect.Value.Index(i).Interface()] on a slice *)
Definition sliceIndex (v : value) (i : nat) : value :=
  match v with
  | VSlice l => nth i l VNil
  | VConds l => VCond (nth i l NilCond)
  | _ => VNil
  end.

Definition isNil (v : value) : bool :=
  match v with VNil => true | _ => false end.

(** The counter is passed by pointer; here it is threaded: every converter
    takes the current counter and returns the new one with its result. *)
Definition convertParamName (field : string) (counter : Z) : string * Z :=
  let counter' := wrap64 (counter + 1) in
  (replaceDots field +:+ "_" +:+ fmtInt counter', counter').

Definition errNilCondition : error := Errorf "milvus filter condition is nil".

Definition convertComparisonCondition (Field Operator : string) (Value : value)
    (counter : Z) : result (convertResult * Z) :=
  if (String.eqb Field EmptyString || isNil Value)%bool then Fail errNilCondition
  else match comparisonOperators Operator with
       | None => Fail (Errorf ("unsupported comparison operator: " +:+ Operator))
       | Some operator =>
           let '(paramName, counter') := convertParamName Field counter in
           Ok (mkResult (Field +:+ " " +:+ operator +:+ " {" +:+ paramName +:+ "}")
                        {[ paramName := Value ]},
               counter')
       end.

Definition convertInCondition (Field Operator : string) (Value : value)
    (counter : Z) : result (convertResult * Z) :=
  if (String.eqb Field EmptyString || isNil Value)%bool then Fail errNilCondition
  else match sliceLen Value with
       | Some n =>
           if (n <=? 0)%Z
           then Fail (ErrorfV "in operator value must be a slice with at least one value: " Value)
           else
             let '(paramName, counter') := convertParamName Field counter in
             Ok (mkResult (Field +:+ " " +:+ toLower Operator +:+ " {" +:+ paramName +:+ "}")
                          {[ paramName := Value ]},
                 counter')
       | None =>
           Fail (ErrorfV "in operator value must be a slice with at least one value: " Value)
       end.

Definition convertBetweenCondition (Field Operator : string) (Value : value)
    (counter : Z) : result (convertResult * Z) :=
  if (String.eqb Field EmptyString || isNil Value)%bool then Fail errNilCondition
  else match sliceLen Value with
       | Some 2%Z =>
           let '(paramBase, counter') := convertParamName Field counter in
           let paramName1 := paramBase +:+ "_" +:+ fmtInt 0 in
           let paramName2 := paramBase +:+ "_" +:+ fmtInt 1 in
           Ok (mkResult (Field +:+ " >= {" +:+ paramName1 +:+ "} and "
                           +:+ Field +:+ " <= {" +:+ paramName2 +:+ "}")
                        (<[ paramName2 := sliceIndex Value 1 ]>
                           {[ paramName1 := sliceIndex Value 0 ]}),
               counter')
       | _ =>
           Fail (ErrorfV "between operator value must be a slice with two elements: " Value)
       end.

(** The loop of [convertLogicalCondition] over the sub-conditions; [acc] is
    [condResult] (nil before the first contributing child). *)
Definition convertChildren (conv : condptr → Z → result (convertResult * Z))
    (Operator : string) :
    list condptr → option convertResult → Z → result (convertResult * Z) :=
  fix loop (conds : list condptr) (acc : option convertResult) (counter : Z) :=
    match conds with
    | [] =>
        match acc with
        | None => Fail (Errorf "empty logical condition")
        | Some condResult => Ok (condResult, counter)
        end
    | childCond :: rest =>
        match conv childCond counter with
        | Fail e => Fail e
        | Ok (childRes, counter') =>
            if String.eqb (exprStr childRes) EmptyString then loop rest acc counter'
            else match acc with
                 | None => loop rest (Some childRes) counter'
                 | Some condResult =>
                     loop rest
                       (Some (mkResult
                                ("(" +:+ exprStr condResult +:+ ") "
                                  +:+ toLower Operator +:+ " ("
                                  +:+ exprStr childRes +:+ ")")
                                (params childRes ∪ params condResult)))
                       counter'
                 end
        end
    end.

Definition isComparisonOp (op : string) : bool :=
  (String.eqb op operatorEqual || String.eqb op operatorNotEqual
   || String.eqb op operatorGreaterThan || String.eqb op operatorGreaterThanOrEqual
   || String.eqb op operatorLessThan || String.eqb op operatorLessThanOrEqual
   || String.eqb op operatorLike || String.eqb op operatorNotLike)%bool.

Definition isLogicalOp (op : string) : bool :=
  (String.eqb op operatorAnd || String.eqb op operatorOr)%bool.

Definition isMembershipOp (op : string) : bool :=
  (String.eqb op operatorIn || String.eqb op operatorNotIn)%bool.

Fixpoint convertCondition (cond : condptr) (counter : Z)
    : result (convertResult * Z) :=
  match cond with
  | NilCond => Fail errNilCondition
  | Cond Field Operator Value =>
      if isComparisonOp Operator then
        convertComparisonCondition Field Operator Value counter
      else if isLogicalOp Operator then
        (* convertLogicalCondition *)
        match Value with
        | VNil => Fail errNilCondition
        | VConds conds => convertChildren convertCondition Operator conds None counter
        | _ => Fail (Errorf "invalid logical condition value type")
        end
      else if isMembershipOp Operator then
        convertInCondition Field Operator Value counter
      else if String.eqb Operator operatorBetween then
        convertBetweenCondition Field Operator Value counter
      else Fail (Errorf ("unsupported operator: " +:+ Operator))
  end.

Definition Convert (cond : condptr) : result convertResult :=
  match convertCondition cond 0 with
  | Ok (r, _) => Ok r
  | Fail e => Fail e
  end.

(** ** Reasoning principles for condition trees *)

(** The sub-conditions a logical operator descends into. *)
Definition children (v : value) : list condptr :=
  match v with VConds cs => cs | _ => [] end.

(** Erasure of literals: every scalar of the tree is replaced by one fixed
    scalar; fields, operators, nil-ness and slice lengths are kept. *)
Fixpoint eraseValue (v : value) : value :=
  match v with
  | VNil => VNil
  | VBool _ | VInt _ | VFloat _ | VStr _ => VBool false
  | VSlice elems => VSlice (map eraseValue elems)
  | VCond c => VCond (eraseCond c)
  | VConds cs => VConds (map eraseCond cs)
  end
with eraseCond (c : condptr) : condptr :=
  match c with
  | NilCond => NilCond
  | Cond Field Operator Value => Cond Field Operator (eraseValue Value)
  end.

(** The operand values of the leaves of a tree, in traversal order: the
    [Value] of a comparison or membership condition, the two bounds of a
    [between]. *)
Fixpoint literals (c : condptr) : list value :=
  match c with
  | NilCond => []
  | Cond _ Operator Value =>
      if (isComparisonOp Operator || isMembershipOp Operator)%bool then [Value]
      else if String.eqb Operator operatorBetween
      then [sliceIndex Value 0; sliceIndex Value 1]
      else if isLogicalOp Operator
      then match Value with
           | VConds cs => flat_map literals cs
           | _ => []
           end
      else []
  end.



Definition injectionTree (name : string) (ages : list value) : condptr :=
  Cond EmptyString "and"
    (VConds [Cond "name" "eq" (VStr name); Cond "meta.age" "in" (VSlice ages)]).

Definition injectionResult : convertResult :=
  Eval vm_compute in
    match Convert (injectionTree "bob' or 1 == 1" [VInt 3; VInt 4]) with
    | Ok r => r
    | Fail _ => mkResult EmptyString ∅
    end.

(** ** Parameter names *)

Fixpoint noUnderscore (s : string) : bool :=
  match s with
  | EmptyString => true
  | String c rest => negb (Ascii.eqb c "_"%char) && noUnderscore rest
  end.

(** C3: the colliding tree.  A comparison on field [a_2] compiled first
    (counter 1) and a [between] on field [a] compiled second (counter 2):
    the upper bound of the [between] gets the name [a_2] + [_1] and the
    comparison gets [a_2] + [_1] as well. *)
Definition collidingTree : condptr :=
  Cond EmptyString "and"
    (VConds [Cond "a_2" "eq" (VInt 5);
             Cond "a" "between" (VSlice [VInt 1; VInt 9])]).

Definition collidingResult : convertResult :=
  mkResult "(a_2 == {a_2_1}) and (a >= {a_2_0} and a <= {a_2_1})"
           (<["a_2_1" := VInt 9]> {["a_2_0" := VInt 1]}).

(** *** Trees without [between]: one entry per leaf *)

Fixpoint betweenFree (c : condptr) : bool :=
  match c with
  | NilCond => true
  | Cond _ Operator Value =>
      negb (String.eqb Operator operatorBetween)
      && match Value with
         | VConds cs => if isLogicalOp Operator then forallb betweenFree cs else true
         | _ => true
         end
  end.

Definition leaves (c : condptr) : nat := length (literals c).

(** Every key of [m] was produced by [convertParamName] at a counter value
    in [lo, hi). *)
Definition namedIn (m : gmap string value) (lo hi : Z) : Prop :=
  ∀ k, is_Some (m !! k) → ∃ f n, lo ≤ n < hi ∧ k = (convertParamName f n).1.

Definition accOk (acc : option convertResult) (lo hi : Z) : Prop :=
  match acc with
  | None => True
  | Some a => exprStr a ≠ EmptyString ∧ namedIn (params a) lo hi
  end.

Definition accSize (acc : option convertResult) : nat :=
  match acc with None => 0 | Some a => size (params a) end.

(** What a conversion that starts at counter [c0] guarantees. *)
Definition countSpec (c : condptr) : Prop :=
  betweenFree c = true →
  ∀ c0 r n, 0 ≤ c0 → c0 + Z.of_nat (leaves c) < 2 ^ 63 →
    convertCondition c c0 = Ok (r, n) →
    n = c0 + Z.of_nat (leaves c)
    ∧ size (params r) = leaves c
    ∧ namedIn (params r) c0 n
    ∧ exprStr r ≠ EmptyString.

(** *** The bindings of the leaves *)

(** The counter after the conversion of [c]. *)
Definition counterAfter (c : condptr) (counter : Z) : Z :=
  match convertCondition c counter with
  | Ok (_, n) => n
  | Fail _ => counter
  end.

(** The bindings that the leaves of a tree produce, in traversal order: for
    every leaf the entries of the parameter map of its own conversion, at
    the counter value that the traversal reaches it with. *)
Fixpoint bindings (c : condptr) (counter : Z) : list (string * value) :=
  match c with
  | NilCond => []
  | Cond Field Operator Value =>
      if isLogicalOp Operator
      then match Value with
           | VConds cs =>
               (fix go (cs : list condptr) (counter : Z) : list (string * value) :=
                  match cs with
                  | [] => []
                  | child :: rest =>
                      bindings child counter ++ go rest (counterAfter child counter)
                  end) cs counter
           | _ => []
           end
      else match convertCondition (Cond Field Operator Value) counter with
           | Ok (r, _) => map_to_list (params r)
           | Fail _ => []
           end
  end.

Definition childBindings : list condptr → Z → list (string * value) :=
  fix go (cs : list condptr) (counter : Z) : list (string * value) :=
    match cs with
    | [] => []
    | child :: rest => bindings child counter ++ go rest (counterAfter child counter)
    end.

(** The generated parameter names of a tree, with repetitions. *)
Definition paramNames (c : condptr) : list string := map fst (bindings c 0).


Definition oneBindingPerLeaf (c : condptr) : Prop :=
  betweenFree c = true →
  ∀ counter r n, convertCondition c counter = Ok (r, n) →
    length (bindings c counter) = leaves c.

(** * The Milvus repository *)

(** ** Records *)

(** [float32] and [float64] values are carried as their IEEE-754 bit
    patterns; the repository stores, copies and compares them only. *)
Definition float32 := Z.

Definition float64 := Z.

(** The [float64] constant [1.0]. *)
Definition float64_one : float64 := 0x3FF0000000000000.

(** [x > 0] on a [float64]: positive sign, not zero, not a NaN. *)
Definition float64_gt_zero (x : float64) : bool :=
  (0 <? x) && (x <=? 0x7FF0000000000000).

(** [float64(x)] for a [float32] [x] (an exact widening). *)
Definition float64_of_float32 (x : float32) : float64 :=
  let sign := Z.shiftl (Z.land (Z.shiftr x 31) 1) 63 in
  let e := Z.land (Z.shiftr x 23) 0xFF in
  let frac := Z.land x 0x7FFFFF in
  if e =? 0xFF then Z.lor sign (Z.lor (Z.shiftl 0x7FF 52) (Z.shiftl frac 29))
  else if e =? 0 then
    if frac =? 0 then sign
    else
      let p := Z.log2 frac in
      Z.lor sign (Z.lor (Z.shiftl (p - 149 + 1023) 52)
                        (Z.shiftl (frac - Z.shiftl 1 p) (52 - p)))
  else Z.lor sign (Z.lor (Z.shiftl (e - 127 + 1023) 52) (Z.shiftl frac 29)).

Record MilvusVectorEmbedding : Type := mkEmbedding {
  ID : string;
  Content : string;
  SourceID : string;
  SourceType : Z;
  ChunkID : string;
  KnowledgeID : string;
  KnowledgeBaseID : string;
  TagID : string;
  Embedding : list float32;
  IsEnabled : bool
}.

Record MilvusVectorEmbeddingWithScore : Type := mkWithScore {
  embedded : MilvusVectorEmbedding;
  Score : float64
}.

(** Modelled from the spec: [types.IndexInfo] is declared in package
    [internal/types]; the fields are the ones the repository reads, with
    the data model of the specification (section 3). *)
Record IndexInfo : Type := mkIndexInfo {
  ii_Content : string;
  ii_SourceID : string;
  ii_SourceType : Z;
  ii_ChunkID : string;
  ii_KnowledgeID : string;
  ii_KnowledgeBaseID : string;
  ii_TagID : string
}.

Inductive RetrieverType := KeywordsRetrieverType | VectorRetrieverType | OtherRetrieverType (name : string).

Inductive RetrieverEngineType := MilvusRetrieverEngineType.

Inductive MatchType := MatchTypeEmbedding | MatchTypeKeywords.

(** Modelled from the spec: [types.RetrieveParams], [types.IndexWithScore]
    and [types.RetrieveResult] are declared in package [internal/types]; the
    fields are the ones the repository reads and writes. *)
Record RetrieveParams : Type := mkRetrieveParams {
  rp_RetrieverType : RetrieverType;
  rp_Query : string;
  rp_Embedding : list float32;
  rp_TopK : Z;
  rp_Threshold : float64;
  rp_KnowledgeBaseIDs : list string;
  rp_KnowledgeIDs : list string;
  rp_TagIDs : list string;
  rp_ExcludeKnowledgeIDs : list string;
  rp_ExcludeChunkIDs : list string
}.

Record IndexWithScore : Type := mkIndexWithScore {
  iws_ID : string;
  iws_SourceID : string;
  iws_SourceType : Z;
  iws_ChunkID : string;
  iws_KnowledgeID : string;
  iws_KnowledgeBaseID : string;
  iws_TagID : string;
  iws_Content : string;
  iws_Score : float64;
  iws_MatchType : MatchType
}.

Record RetrieveResult : Type := mkRetrieveResult {
  Results : list IndexWithScore;
  rr_RetrieverEngineType : RetrieverEngineType;
  rr_RetrieverType : RetrieverType;
  rr_Error : option error
}.

(** An entry of [additionalParams]: the value under key ["embedding"] is
    expected to be a [map[string][]float32] from source id to vector. *)
Inductive paramValue : Type :=
| PEmbeddings (m : gmap string (list float32))
| POther (v : value).

Record milvusRepository : Type := mkRepository {
  collectionBaseName : string
}.

Definition fieldContent := "content".

Definition fieldSourceID := "source_id".

Definition fieldSourceType := "source_type".

Definition fieldChunkID := "chunk_id".

Definition fieldKnowledgeID := "knowledge_id".

Definition fieldKnowledgeBaseID := "knowledge_base_id".

Definition fieldTagID := "tag_id".

Definition fieldEmbedding := "embedding".

Definition fieldIsEnabled := "is_enabled".

Definition fieldID := "id".

Definition fieldContentSparse := "content_sparse".

(** ** The backing store and the run-time services

    The client of the store, the UUID generator and the [sync.Map] cache of
    initialized dimensions (shared by all concurrent callers) are the
    environment of a repository method.  A method is a tree of requests;
    the environment answers each request. *)

Record UpsertOption : Type := mkUpsert {
  uo_collection : string;
  uo_dimension : Z;
  uo_rows : list MilvusVectorEmbedding
}.

Inductive queryVector : Type :=
| FloatVector (v : list float32)
| Text (q : string).

Record SearchOption : Type := mkSearch {
  so_collection : string;
  so_limit : Z;
  so_vector : queryVector;
  so_annsField : string;
  so_radius : option float64;
  so_filter : string;
  so_templateParams : gmap string value;
  so_outputFields : list string
}.

Record QueryOption : Type := mkQuery {
  qo_collection : string;
  qo_filter : string;
  qo_templateParams : gmap string value;
  qo_outputFields : list string;
  qo_limit : option Z;
  qo_offset : option Z
}.

(** A result set of the client: the count it reports, the scores, and the
    rows its columns decode to (or the decoding error of a column). *)
Record ResultSet : Type := mkResultSet {
  ResultCount : Z;
  Scores : list float32;
  Columns : result (list MilvusVectorEmbedding)
}.

Inductive request : Type :=
| HasCollection (name : string)
| CreateCollection (name : string) (dimension : Z)
| LoadCollection (name : string)
| AwaitLoad (name : string)
| ListCollections
| Upsert (opt : UpsertOption)
| Delete (name field : string) (ids : list string)
| Search (opt : SearchOption)
| Query (opt : QueryOption)
| NewUUID
| CacheLoad (dimension : Z)
| CacheStore (dimension : Z).

Definition response (r : request) : Type :=
  match r with
  | HasCollection _ => result bool
  | CreateCollection _ _ => result unit
  | LoadCollection _ => result unit
  | AwaitLoad _ => result unit
  | ListCollections => result (list string)
  | Upsert _ => result unit
  | Delete _ _ _ => result unit
  | Search _ => result (list ResultSet)
  | Query _ => result ResultSet
  | NewUUID => string
  | CacheLoad _ => bool
  | CacheStore _ => unit
  end.

Inductive prog (A : Type) : Type :=
| Ret (a : A)
| Call (r : request) (k : response r → prog A)
| Panic (msg : string).

Arguments Ret {A} a.

Arguments Call {A} r k.

Arguments Panic {A} msg.

Fixpoint bind {A B} (p : prog A) (f : A → prog B) : prog B :=
  match p with
  | Ret a => f a
  | Call r k => Call r (λ x, bind (k x) f)
  | Panic msg => Panic msg
  end.

Definition call (r : request) : prog (response r) := Call r Ret.

#[global] Instance prog_ret : MRet prog := @Ret.

#[global] Instance prog_bind : MBind prog := λ A B f p, bind p f.

(** An event is a request with the answer it got. *)
Abbreviation event := (sigT response).

Definition requestOf (e : event) : request := projT1 e.

(** The environment: the answer to a request, given the events so far. *)
Definition oracle : Type := list event → ∀ r : request, response r.

Inductive outcome (A : Type) : Type :=
| Returned (a : A)
| Panicked (msg : string).

Arguments Returned {A} a.

Arguments Panicked {A} msg.

(** [run p o h]: the outcome of [p] in environment [o] when the events [h]
    have happened before, with the events of [p] itself, in order. *)
Fixpoint run {A} (p : prog A) (o : oracle) (h : list event) : outcome A * list event :=
  match p with
  | Ret a => (Returned a, [])
  | Call r k =>
      let x := o h r in
      let '(out, t) := run (k x) o (h ++ [existT r x]) in
      (out, existT r x :: t)
  | Panic msg => (Panicked msg, [])
  end.

(** The requests of a run, without the answers. *)
Definition requests {A} (p : prog A) (o : oracle) (h : list event) : list request :=
  map requestOf (run p o h).2.

(** ** Repository methods *)

Definition getCollectionName (m : milvusRepository) (dimension : Z) : string :=
  collectionBaseName m +:+ "_" +:+ fmtInt dimension.

Definition ensureCollection (m : milvusRepository) (dimension : Z)
    : prog (result unit) :=
  let collectionName := getCollectionName m dimension in
  cached ← call (CacheLoad dimension);
  if cached : bool then Ret (Ok tt)
  else
    has ← call (HasCollection collectionName);
    match has with
    | Fail err => Ret (Fail (Wrap "failed to check collection existence: " err))
    | Ok hasCollection =>
        created ← (if negb hasCollection
                   then
                     res ← call (CreateCollection collectionName dimension);
                     match res with
                     | Fail err => Ret (Fail (Wrap "failed to create collection: " err))
                     | Ok _ => Ret (Ok tt)
                     end
                   else Ret (Ok tt));
        match created with
        | Fail err => Ret (Fail err)
        | Ok _ =>
            loadTask ← call (LoadCollection collectionName);
            match loadTask with
            | Fail err => Ret (Fail (Wrap "failed to load collection: " err))
            | Ok _ =>
                awaited ← call (AwaitLoad collectionName);
                match awaited with
                | Fail err => Ret (Fail (Wrap "failed to await load collection: " err))
                | Ok _ =>
                    _ ← call (CacheStore dimension);
                    Ret (Ok tt)
                end
            end
        end
    end.

Definition toMilvusVectorEmbedding (embedding : IndexInfo)
    (additionalParams : gmap string paramValue) : MilvusVectorEmbedding :=
  let vector :=
    {| ID := EmptyString;
       Content := ii_Content embedding;
       SourceID := ii_SourceID embedding;
       SourceType := ii_SourceType embedding;
       ChunkID := ii_ChunkID embedding;
       KnowledgeID := ii_KnowledgeID embedding;
       KnowledgeBaseID := ii_KnowledgeBaseID embedding;
       TagID := ii_TagID embedding;
       Embedding := [];
       IsEnabled := true |} in
  match additionalParams !! fieldEmbedding with
  | Some (PEmbeddings embeddingMap) =>
      {| ID := ID vector; Content := Content vector; SourceID := SourceID vector;
         SourceType := SourceType vector; ChunkID := ChunkID vector;
         KnowledgeID := KnowledgeID vector; KnowledgeBaseID := KnowledgeBaseID vector;
         TagID := TagID vector;
         Embedding := default [] (embeddingMap !! ii_SourceID embedding);
         IsEnabled := IsEnabled vector |}
  | _ => vector
  end.

Definition withID (e : MilvusVectorEmbedding) (id : string) : MilvusVectorEmbedding :=
  {| ID := id; Content := Content e; SourceID := SourceID e;
     SourceType := SourceType e; ChunkID := ChunkID e;
     KnowledgeID := KnowledgeID e; KnowledgeBaseID := KnowledgeBaseID e;
     TagID := TagID e; Embedding := Embedding e; IsEnabled := IsEnabled e |}.

Definition dimensionOf (e : MilvusVectorEmbedding) : Z :=
  Z.of_nat (length (Embedding e)).

(** [createUpsert]: the rows, column by column; the vector column is
    declared with the dimension of the last row. *)
Definition createUpsert (collectionName : string)
    (embeddings : list MilvusVectorEmbedding) : UpsertOption :=
  {| uo_collection := collectionName;
     uo_dimension := match last embeddings with
                     | Some e => dimensionOf e
                     | None => 0
                     end;
     uo_rows := embeddings |}.

(** The storage estimate of one row. *)
Definition calculateStorageSize (embedding : MilvusVectorEmbedding) : Z :=
  let payloadSizeBytes := 0 in
  let payloadSizeBytes := wrap64 (payloadSizeBytes + len (Content embedding)) in
  let payloadSizeBytes := wrap64 (payloadSizeBytes + len (SourceID embedding)) in
  let payloadSizeBytes := wrap64 (payloadSizeBytes + len (ChunkID embedding)) in
  let payloadSizeBytes := wrap64 (payloadSizeBytes + len (KnowledgeID embedding)) in
  let payloadSizeBytes := wrap64 (payloadSizeBytes + len (KnowledgeBaseID embedding)) in
  let payloadSizeBytes := wrap64 (payloadSizeBytes + 8) in
  let dimensions := dimensionOf embedding in
  let vectorSizeBytes := wrap64 (dimensions * 4) in
  let nlist := 16384 in
  let indexBytes := wrap64 (dimensions * (nlist * 4 + 4)) in
  let metadataBytes := 32 in
  wrap64 (wrap64 (wrap64 (payloadSizeBytes + vectorSizeBytes) + indexBytes)
          + metadataBytes).

Definition EstimateStorageSize (indexInfoList : list IndexInfo)
    (params : gmap string paramValue) : Z :=
  fold_left (λ totalStorageSize embedding,
               wrap64 (totalStorageSize
                       + calculateStorageSize (toMilvusVectorEmbedding embedding params)))
            indexInfoList 0.

Definition Save (m : milvusRepository) (embedding : IndexInfo)
    (additionalParams : gmap string paramValue) : prog (result unit) :=
  let embeddingDB := toMilvusVectorEmbedding embedding additionalParams in
  if dimensionOf embeddingDB =? 0
  then Ret (Fail (Errorf ("empty embedding vector for chunk ID: " +:+ ii_ChunkID embedding)))
  else
    let dimension := dimensionOf embeddingDB in
    ensured ← ensureCollection m dimension;
    match ensured with
    | Fail err => Ret (Fail err)
    | Ok _ =>
        let collectionName := getCollectionName m dimension in
        id ← call NewUUID;
        res ← call (Upsert (createUpsert collectionName [withID embeddingDB id]));
        match res with
        | Fail err => Ret (Fail err)
        | Ok _ => Ret (Ok tt)
        end
    end.

(** The grouping loop of [BatchSave]: [embeddingsByDimension]. *)
Definition groupByDimension (embeddingList : list IndexInfo)
    (additionalParams : gmap string paramValue) : gmap Z (list IndexInfo) :=
  fold_left
    (λ (groups : gmap Z (list IndexInfo)) embedding,
       let embeddingDB := toMilvusVectorEmbedding embedding additionalParams in
       if dimensionOf embeddingDB =? 0 then groups
       else
         let dimension := dimensionOf embeddingDB in
         <[ dimension := (default [] (groups !! dimension) ++ [embedding])%list ]> groups)
    embeddingList ∅.

(** The inner loop of [BatchSave]: convert every record of a group and give
    it a new identifier. *)
Fixpoint assignIDs (embeddings : list IndexInfo)
    (additionalParams : gmap string paramValue) : prog (list MilvusVectorEmbedding) :=
  match embeddings with
  | [] => Ret []
  | embedding :: rest =>
      id ← call NewUUID;
      rows ← assignIDs rest additionalParams;
      Ret (withID (toMilvusVectorEmbedding embedding additionalParams) id :: rows)
  end.

(** The body of the loop of [BatchSave] over the groups. *)
Definition saveGroup (m : milvusRepository) (additionalParams : gmap string paramValue)
    (group : Z * list IndexInfo) : prog (result unit) :=
  let '(dimension, embeddings) := group in
  ensured ← ensureCollection m dimension;
  match ensured with
  | Fail err => Ret (Fail err)
  | Ok _ =>
      let collectionName := getCollectionName m dimension in
      embeddingDBList ← assignIDs embeddings additionalParams;
      res ← call (Upsert (createUpsert collectionName embeddingDBList));
      match res with
      | Fail err =>
          Ret (Fail (Wrap ("failed to batch save (dimension " +:+ fmtInt dimension +:+ "): ") err))
      | Ok _ => Ret (Ok tt)
      end
  end.

Fixpoint saveGroups (m : milvusRepository) (additionalParams : gmap string paramValue)
    (groups : list (Z * list IndexInfo)) : prog (result unit) :=
  match groups with
  | [] => Ret (Ok tt)
  | group :: rest =>
      saved ← saveGroup m additionalParams group;
      match saved with
      | Fail err => Ret (Fail err)
      | Ok _ => saveGroups m additionalParams rest
      end
  end.

(** [BatchSave].  The order in which Go ranges over the map of groups is
    chosen by the run time: [rangeOrder] is that choice. *)
Definition BatchSave (rangeOrder : list (Z * list IndexInfo) → list (Z * list IndexInfo))
    (m : milvusRepository) (embeddingList : list IndexInfo)
    (additionalParams : gmap string paramValue) : prog (result unit) :=
  match embeddingList with
  | [] => Ret (Ok tt)
  | _ =>
      let embeddingsByDimension := groupByDimension embeddingList additionalParams in
      if Z.of_nat (size embeddingsByDimension) =? 0 then Ret (Ok tt)
      else saveGroups m additionalParams (rangeOrder (map_to_list embeddingsByDimension))
  end.

Definition deleteByIDs (m : milvusRepository) (field failure : string)
    (ids : list string) (dimension : Z) : prog (result unit) :=
  let collectionName := getCollectionName m dimension in
  res ← call (Delete collectionName field ids);
  match res with
  | Fail err => Ret (Fail (Wrap failure err))
  | Ok _ => Ret (Ok tt)
  end.

Definition DeleteByChunkIDList (m : milvusRepository) (chunkIDList : list string)
    (dimension : Z) (knowledgeType : string) : prog (result unit) :=
  if Z.of_nat (length chunkIDList) =? 0 then Ret (Ok tt)
  else deleteByIDs m fieldChunkID "failed to delete by chunk IDs: " chunkIDList dimension.

Definition DeleteByKnowledgeIDList (m : milvusRepository) (knowledgeIDList : list string)
    (dimension : Z) (knowledgeType : string) : prog (result unit) :=
  if Z.of_nat (length knowledgeIDList) =? 0 then Ret (Ok tt)
  else deleteByIDs m fieldKnowledgeID "failed to delete by knowledge IDs: "
         knowledgeIDList dimension.

Definition DeleteBySourceIDList (m : milvusRepository) (sourceIDList : list string)
    (dimension : Z) (knowledgeType : string) : prog (result unit) :=
  if Z.of_nat (length sourceIDList) =? 0 then Ret (Ok tt)
  else deleteByIDs m fieldSourceID "failed to delete by source IDs: "
         sourceIDList dimension.

(** [convertResultSet]: the rows of the first result set, with a zero
    score each, and its scores. *)
Definition convertResultSet (resultSet : list ResultSet)
    : result (list MilvusVectorEmbeddingWithScore * list float64) :=
  match resultSet with
  | [] => Ok ([], [])
  | set :: _ =>
      match Columns set with
      | Fail err => Fail err
      | Ok docs =>
          Ok (map (λ d, mkWithScore d 0) docs, map float64_of_float32 (Scores set))
      end
  end.

Definition fromMilvusVectorEmbedding (id : string)
    (embedding : MilvusVectorEmbeddingWithScore) (matchType : MatchType) : IndexWithScore :=
  {| iws_ID := id;
     iws_SourceID := SourceID (embedded embedding);
     iws_SourceType := SourceType (embedded embedding);
     iws_ChunkID := ChunkID (embedded embedding);
     iws_KnowledgeID := KnowledgeID (embedded embedding);
     iws_KnowledgeBaseID := KnowledgeBaseID (embedded embedding);
     iws_TagID := TagID (embedded embedding);
     iws_Content := Content (embedded embedding);
     iws_Score := Score embedding;
     iws_MatchType := matchType |}.

Definition buildRetrieveResult (results : list IndexWithScore)
    (retrieverType : RetrieverType) : list RetrieveResult :=
  [ {| Results := results;
       rr_RetrieverEngineType := MilvusRetrieverEngineType;
       rr_RetrieverType := retrieverType;
       rr_Error := None |} ].

Definition stringsValue (ids : list string) : value := VSlice (map VStr ids).

Definition idFilter (field operator : string) (ids : list string) : list condptr :=
  if 0 <? Z.of_nat (length ids) then [Cond field operator (stringsValue ids)] else [].

Definition getBaseFilterForQuery (rparams : RetrieveParams)
    : result (string * gmap string value) :=
  let filters :=
    (idFilter fieldKnowledgeBaseID operatorIn (rp_KnowledgeBaseIDs rparams)
     ++ idFilter fieldKnowledgeID operatorIn (rp_KnowledgeIDs rparams)
     ++ idFilter fieldTagID operatorIn (rp_TagIDs rparams)
     ++ idFilter fieldKnowledgeID operatorNotIn (rp_ExcludeKnowledgeIDs rparams)
     ++ idFilter fieldChunkID operatorNotIn (rp_ExcludeChunkIDs rparams))%list in
  if Z.of_nat (length filters) =? 0 then Ok (EmptyString, ∅)
  else match Convert (Cond EmptyString operatorAnd (VConds filters)) with
       | Fail err => Fail err
       | Ok f => Ok (exprStr f, params f)
       end.

Definition searchByFilter (m : milvusRepository) (collectionName : string)
    (filter : condptr) (limit offset : option Z)
    : prog (result (list MilvusVectorEmbeddingWithScore * Z)) :=
  match Convert filter with
  | Fail err => Ret (Fail err)
  | Ok params_ =>
      let withFilter := negb (String.eqb (exprStr params_) EmptyString) in
      let queryOpt :=
        {| qo_collection := collectionName;
           qo_filter := if withFilter then exprStr params_ else EmptyString;
           qo_templateParams := if withFilter then params params_ else ∅;
           qo_outputFields := ["*"];
           qo_limit := limit;
           qo_offset := offset |} in
      res ← call (Query queryOpt);
      match res with
      | Fail err => Ret (Fail err)
      | Ok resultSet =>
          match convertResultSet [resultSet] with
          | Fail err => Ret (Fail err)
          | Ok (embeddings, _) => Ret (Ok (embeddings, ResultCount resultSet))
          end
      end
  end.

(** The loop of [VectorRetrieve] over the converted rows: row [i] takes
    [scores[i]]; [None] is the index-out-of-range panic. *)
Fixpoint attachScores (sets : list MilvusVectorEmbeddingWithScore)
    (scores : list float64) : option (list IndexWithScore) :=
  match sets with
  | [] => Some []
  | set :: sets' =>
      match scores with
      | [] => None
      | score :: scores' =>
          match attachScores sets' scores' with
          | None => None
          | Some results =>
              Some (fromMilvusVectorEmbedding (ID (embedded set))
                      (mkWithScore (embedded set) score) MatchTypeEmbedding
                    :: results)
          end
      end
  end.

Definition VectorRetrieve (m : milvusRepository) (rparams : RetrieveParams)
    : prog (result (list RetrieveResult)) :=
  let dimension := Z.of_nat (length (rp_Embedding rparams)) in
  let collectionName := getCollectionName m dimension in
  has ← call (HasCollection collectionName);
  match has with
  | Fail err => Ret (Fail (Wrap "failed to check collection: " err))
  | Ok hasCollection =>
      if negb hasCollection
      then Ret (Ok (buildRetrieveResult [] VectorRetrieverType))
      else
        match getBaseFilterForQuery rparams with
        | Fail err => Ret (Fail (Wrap "failed to build filter: " err))
        | Ok (expr, paramsMap) =>
            let sp := if float64_gt_zero (rp_Threshold rparams)
                      then Some (rp_Threshold rparams) else None in
            let withFilter := negb (String.eqb expr EmptyString) in
            let searchOption :=
              {| so_collection := collectionName;
                 so_limit := rp_TopK rparams;
                 so_vector := FloatVector (rp_Embedding rparams);
                 so_annsField := fieldEmbedding;
                 so_radius := sp;
                 so_filter := if withFilter then expr else EmptyString;
                 so_templateParams := if withFilter then paramsMap else ∅;
                 so_outputFields := ["*"] |} in
            res ← call (Search searchOption);
            match res with
            | Fail err => Ret (Fail (Wrap "failed to search: " err))
            | Ok resultSet =>
                match convertResultSet resultSet with
                | Fail err => Ret (Fail (Wrap "failed to convert result set: " err))
                | Ok (sets, scores) =>
                    match attachScores sets scores with
                    | None => Panic "index out of range"
                    | Some results =>
                        Ret (Ok (buildRetrieveResult results VectorRetrieverType))
                    end
                end
            end
        end
  end.

(** The guard of the fan-out loops: only collections whose name is longer
    than the base name and starts with it are processed. *)
Definition matchesBaseName (m : milvusRepository) (collectionName : string) : bool :=
  negb ((len collectionName <=? len (collectionBaseName m))
        || negb (String.eqb
                   (String.substring 0 (String.length (collectionBaseName m)) collectionName)
                   (collectionBaseName m))).

Definition keywordsSearchOption (m : milvusRepository) (rparams : RetrieveParams)
    (collectionName expr : string) (paramsMap : gmap string value) : SearchOption :=
  let withFilter := negb (String.eqb expr EmptyString) in
  {| so_collection := collectionName;
     so_limit := rp_TopK rparams;
     so_vector := Text (rp_Query rparams);
     so_annsField := fieldContentSparse;
     so_radius := None;
     so_filter := if withFilter then expr else EmptyString;
     so_templateParams := if withFilter then paramsMap else ∅;
     so_outputFields := ["*"] |}.

Definition keywordMatch (set : MilvusVectorEmbeddingWithScore) : IndexWithScore :=
  fromMilvusVectorEmbedding (ID (embedded set))
    (mkWithScore (embedded set) float64_one) MatchTypeKeywords.

(** The loop of [KeywordsRetrieve] over the listed collections. *)
Fixpoint keywordsLoop (m : milvusRepository) (rparams : RetrieveParams)
    (collections : list string) (allResults : list IndexWithScore)
    : prog (list IndexWithScore) :=
  match collections with
  | [] => Ret allResults
  | collectionName :: rest =>
      if negb (matchesBaseName m collectionName)
      then keywordsLoop m rparams rest allResults
      else
        match getBaseFilterForQuery rparams with
        | Fail _ => keywordsLoop m rparams rest allResults
        | Ok (expr, paramsMap) =>
            res ← call (Search (keywordsSearchOption m rparams collectionName expr paramsMap));
            match res with
            | Fail _ => keywordsLoop m rparams rest allResults
            | Ok resultSet =>
                match convertResultSet resultSet with
                | Fail _ => keywordsLoop m rparams rest allResults
                | Ok (sets, _) =>
                    keywordsLoop m rparams rest
                      (allResults ++ map keywordMatch sets)%list
                end
            end
        end
  end.

Definition KeywordsRetrieve (m : milvusRepository) (rparams : RetrieveParams)
    : prog (result (list RetrieveResult)) :=
  listed ← call ListCollections;
  match listed with
  | Fail err => Ret (Fail (Wrap "failed to list collections: " err))
  | Ok collections =>
      allResults ← keywordsLoop m rparams collections [];
      if rp_TopK rparams <? Z.of_nat (length allResults)
      then
        if rp_TopK rparams <? 0 then Panic "slice bounds out of range"
        else Ret (Ok (buildRetrieveResult
                        (take (Z.to_nat (rp_TopK rparams)) allResults)
                        KeywordsRetrieverType))
      else Ret (Ok (buildRetrieveResult allResults KeywordsRetrieverType))
  end.

Definition Retrieve (m : milvusRepository) (rparams : RetrieveParams)
    : prog (result (list RetrieveResult)) :=
  match rp_RetrieverType rparams with
  | VectorRetrieverType => VectorRetrieve m rparams
  | KeywordsRetrieverType => KeywordsRetrieve m rparams
  | OtherRetrieverType name => Ret (Fail (Errorf ("invalid retriever type: " +:+ name)))
  end.

(** *** Copy between knowledge bases *)

Definition batchSize : Z := 64.

(** The new source id of a copied row. *)
Definition targetSourceIDOf (originalSourceID sourceChunkID targetChunkID : string)
    : prog string :=
  if String.eqb originalSourceID sourceChunkID then Ret targetChunkID
  else if hasPrefix originalSourceID (sourceChunkID +:+ "-") then
    let questionID := trimPrefix originalSourceID (sourceChunkID +:+ "-") in
    Ret (targetChunkID +:+ "-" +:+ questionID)
  else call NewUUID.

(** The loop of [CopyIndices] over the rows of one page. *)
Fixpoint copyRows (sourceToTargetKBIDMap sourceToTargetChunkIDMap : gmap string string)
    (targetKnowledgeBaseID : string)
    (sourceEmbeddings : list MilvusVectorEmbeddingWithScore)
    : prog (list MilvusVectorEmbedding) :=
  match sourceEmbeddings with
  | [] => Ret []
  | sourceEmbedding :: rest =>
      let continue_ :=
        copyRows sourceToTargetKBIDMap sourceToTargetChunkIDMap targetKnowledgeBaseID rest in
      let src := embedded sourceEmbedding in
      match sourceToTargetChunkIDMap !! ChunkID src with
      | None => continue_
      | Some targetChunkID =>
          match sourceToTargetKBIDMap !! KnowledgeID src with
          | None => continue_
          | Some targetKnowledgeID =>
              targetSourceID ← targetSourceIDOf (SourceID src) (ChunkID src) targetChunkID;
              id ← call NewUUID;
              targetEmbeddings ← continue_;
              Ret ({| ID := id;
                      Content := Content src;
                      SourceID := targetSourceID;
                      SourceType := SourceType src;
                      ChunkID := targetChunkID;
                      KnowledgeID := targetKnowledgeID;
                      KnowledgeBaseID := targetKnowledgeBaseID;
                      TagID := TagID src;
                      Embedding := Embedding src;
                      IsEnabled := IsEnabled src |} :: targetEmbeddings)
          end
      end
  end.

(** The outcome of one page of [CopyIndices]: the method returns, or the
    loop goes on with a new offset. *)
Inductive pageResult : Type :=
| Done (res : result unit)
| Continue (offset : option Z).

(** The body of the pagination loop of [CopyIndices]. *)
Definition copyPage (m : milvusRepository) (collectionName : string)
    (sourceKnowledgeBaseID : string)
    (sourceToTargetKBIDMap sourceToTargetChunkIDMap : gmap string string)
    (targetKnowledgeBaseID : string) (offset : option Z) : prog pageResult :=
  found ← searchByFilter m collectionName
            (Cond fieldKnowledgeBaseID operatorEqual (VStr sourceKnowledgeBaseID))
            (Some batchSize) offset;
  match found with
  | Fail err => Ret (Done (Fail err))
  | Ok (sourceEmbeddings, count) =>
      if Z.of_nat (length sourceEmbeddings) =? 0 then Ret (Done (Ok tt))
      else
        targetEmbeddings ← copyRows sourceToTargetKBIDMap sourceToTargetChunkIDMap
                              targetKnowledgeBaseID sourceEmbeddings;
        upserted ← (if 0 <? Z.of_nat (length targetEmbeddings)
                    then call (Upsert (createUpsert collectionName targetEmbeddings))
                    else Ret (Ok tt));
        match upserted with
        | Fail err => Ret (Done (Fail err))
        | Ok _ =>
            if count <? batchSize then Ret (Done (Ok tt))
            else Ret (Continue (Some (wrap64 (default 0 offset + count))))
        end
  end.

(** The pagination loop of [CopyIndices]; the Go loop has no bound of its
    own, [fuel] bounds the number of pages and [None] is "out of fuel". *)
Fixpoint copyLoop (fuel : nat) (m : milvusRepository) (collectionName : string)
    (sourceKnowledgeBaseID : string)
    (sourceToTargetKBIDMap sourceToTargetChunkIDMap : gmap string string)
    (targetKnowledgeBaseID : string) (offset : option Z)
    : prog (option (result unit)) :=
  match fuel with
  | O => Ret None
  | S fuel' =>
      page ← copyPage m collectionName sourceKnowledgeBaseID
                sourceToTargetKBIDMap sourceToTargetChunkIDMap targetKnowledgeBaseID offset;
      match page with
      | Done res => Ret (Some res)
      | Continue offset' =>
          copyLoop fuel' m collectionName sourceKnowledgeBaseID
            sourceToTargetKBIDMap sourceToTargetChunkIDMap targetKnowledgeBaseID offset'
      end
  end.

Definition CopyIndices (fuel : nat) (m : milvusRepository)
    (sourceKnowledgeBaseID : string)
    (sourceToTargetKBIDMap sourceToTargetChunkIDMap : gmap string string)
    (targetKnowledgeBaseID : string) (dimension : Z) (knowledgeType : string)
    : prog (option (result unit)) :=
  if Z.of_nat (size sourceToTargetChunkIDMap) =? 0 then Ret (Some (Ok tt))
  else
    let collectionName := getCollectionName m dimension in
    ensured ← ensureCollection m dimension;
    match ensured with
    | Fail err => Ret (Some (Fail err))
    | Ok _ =>
        copyLoop fuel m collectionName sourceKnowledgeBaseID
          sourceToTargetKBIDMap sourceToTargetChunkIDMap targetKnowledgeBaseID None
    end.

(** *** Batch field updaters *)

Definition withEnabled (e : MilvusVectorEmbedding) (enabled : bool) : MilvusVectorEmbedding :=
  {| ID := ID e; Content := Content e; SourceID := SourceID e;
     SourceType := SourceType e; ChunkID := ChunkID e;
     KnowledgeID := KnowledgeID e; KnowledgeBaseID := KnowledgeBaseID e;
     TagID := TagID e; Embedding := Embedding e; IsEnabled := enabled |}.

Definition withTagID (e : MilvusVectorEmbedding) (tagID : string) : MilvusVectorEmbedding :=
  {| ID := ID e; Content := Content e; SourceID := SourceID e;
     SourceType := SourceType e; ChunkID := ChunkID e;
     KnowledgeID := KnowledgeID e; KnowledgeBaseID := KnowledgeBaseID e;
     TagID := tagID; Embedding := Embedding e; IsEnabled := IsEnabled e |}.

(** One half of the loop body of [BatchUpdateChunkEnabledStatus]: read the
    rows of the chunks, set the flag, write the rows back.  [false] is the
    [continue] of the Go loop (the rest of the body is skipped). *)
Definition updateEnabledGroup (m : milvusRepository) (collectionName : string)
    (chunkIDs : list string) (enabled : bool) : prog bool :=
  found ← searchByFilter m collectionName
            (Cond fieldChunkID operatorIn (stringsValue chunkIDs)) None None;
  match found with
  | Fail _ => Ret false
  | Ok (embeddings, _) =>
      let upsertEmbeddings :=
        map (λ e, withEnabled (embedded e) enabled) embeddings in
      if 0 <? Z.of_nat (length upsertEmbeddings)
      then
        res ← call (Upsert (createUpsert collectionName upsertEmbeddings));
        match res with
        | Fail _ => Ret false
        | Ok _ => Ret true
        end
      else Ret true
  end.

Fixpoint updateEnabledLoop (m : milvusRepository) (collections : list string)
    (enabledChunkIDs disabledChunkIDs : list string) : prog unit :=
  match collections with
  | [] => Ret tt
  | collectionName :: rest =>
      let continue_ := updateEnabledLoop m rest enabledChunkIDs disabledChunkIDs in
      if negb (matchesBaseName m collectionName) then continue_
      else
        proceed ← updateEnabledGroup m collectionName enabledChunkIDs true;
        if proceed : bool
        then _ ← updateEnabledGroup m collectionName disabledChunkIDs false; continue_
        else continue_
  end.

(** [BatchUpdateChunkEnabledStatus]; [rangeOrder] is the order in which the
    run time ranges over [chunkStatusMap]. *)
Definition BatchUpdateChunkEnabledStatus
    (rangeOrder : list (string * bool) → list (string * bool))
    (m : milvusRepository) (chunkStatusMap : gmap string bool) : prog (result unit) :=
  if Z.of_nat (size chunkStatusMap) =? 0 then Ret (Ok tt)
  else
    listed ← call ListCollections;
    match listed with
    | Fail err => Ret (Fail (Wrap "failed to list collections: " err))
    | Ok collections =>
        let entries := rangeOrder (map_to_list chunkStatusMap) in
        let enabledChunkIDs := map fst (List.filter snd entries) in
        let disabledChunkIDs := map fst (List.filter (λ e, negb (snd e)) entries) in
        _ ← updateEnabledLoop m collections enabledChunkIDs disabledChunkIDs;
        Ret (Ok tt)
    end.

(** The grouping loop of [BatchUpdateChunkTagID]: [tagGroups]. *)
Definition groupByTag (entries : list (string * string)) : gmap string (list string) :=
  fold_left
    (λ (tagGroups : gmap string (list string)) entry,
       let '(chunkID, tagID) := entry in
       <[ tagID := default [] (tagGroups !! tagID) ++ [chunkID] ]> tagGroups)
    entries ∅.

Definition updateTagGroup (m : milvusRepository) (collectionName : string)
    (group : string * list string) : prog unit :=
  let '(tagID, chunkIDs) := group in
  found ← searchByFilter m collectionName
            (Cond fieldChunkID operatorIn (stringsValue chunkIDs)) None None;
  match found with
  | Fail _ => Ret tt
  | Ok (embeddings, _) =>
      let upsertEmbeddings := map (λ e, withTagID (embedded e) tagID) embeddings in
      if 0 <? Z.of_nat (length upsertEmbeddings)
      then _ ← call (Upsert (createUpsert collectionName upsertEmbeddings)); Ret tt
      else Ret tt
  end.

Fixpoint updateTagGroups (m : milvusRepository) (collectionName : string)
    (groups : list (string * list string)) : prog unit :=
  match groups with
  | [] => Ret tt
  | group :: rest =>
      _ ← updateTagGroup m collectionName group;
      updateTagGroups m collectionName rest
  end.

Fixpoint updateTagLoop (rangeGroups : string → list (string * list string) → list (string * list string))
    (m : milvusRepository) (collections : list string)
    (tagGroups : gmap string (list string)) : prog unit :=
  match collections with
  | [] => Ret tt
  | collectionName :: rest =>
      if negb (matchesBaseName m collectionName)
      then updateTagLoop rangeGroups m rest tagGroups
      else
        _ ← updateTagGroups m collectionName
              (rangeGroups collectionName (map_to_list tagGroups));
        updateTagLoop rangeGroups m rest tagGroups
  end.

(** [BatchUpdateChunkTagID]; [rangeOrder] and [rangeGroups] are the orders
    in which the run time ranges over [chunkTagMap] and, for each
    collection, over [tagGroups]. *)
Definition BatchUpdateChunkTagID
    (rangeOrder : list (string * string) → list (string * string))
    (rangeGroups : string → list (string * list string) → list (string * list string))
    (m : milvusRepository) (chunkTagMap : gmap string string) : prog (result unit) :=
  if Z.of_nat (size chunkTagMap) =? 0 then Ret (Ok tt)
  else
    listed ← call ListCollections;
    match listed with
    | Fail err => Ret (Fail (Wrap "failed to list collections: " err))
    | Ok collections =>
        let tagGroups := groupByTag (rangeOrder (map_to_list chunkTagMap)) in
        _ ← updateTagLoop rangeGroups m collections tagGroups;
        Ret (Ok tt)
    end.

(** [satisfies P Q p]: whatever the answers of the environment, every
    request that [p] issues satisfies [P] and the value it returns
    satisfies [Q]. *)
Fixpoint satisfies {A} (P : request → Prop) (Q : A → Prop) (p : prog A) : Prop :=
  match p with
  | Ret a => Q a
  | Call r k => P r ∧ ∀ x, satisfies P Q (k x)
  | Panic _ => True
  end.

(** An environment in which every call succeeds: nothing is cached, no
    collection exists, searches and queries return nothing. *)
Definition defaultResponse (r : request) : response r :=
  match r with
  | HasCollection _ => Ok false
  | CreateCollection _ _ => Ok tt
  | LoadCollection _ => Ok tt
  | AwaitLoad _ => Ok tt
  | ListCollections => Ok []
  | Upsert _ => Ok tt
  | Delete _ _ _ => Ok tt
  | Search _ => Ok []
  | Query _ => Ok (mkResultSet 0 [] (Ok []))
  | NewUUID => "00000000-0000-4000-8000-000000000000"
  | CacheLoad _ => false
  | CacheStore _ => tt
  end.

Definition emptyStore : oracle := λ _ r, defaultResponse r.

(** ** Collection manager *)

(** A store in which the collection is created by another caller between
    the existence check and the creation call: the check answers "absent",
    the creation fails with a conflict. *)
Definition conflictError : error := Errorf "collection already exists".

Definition conflictStore : oracle :=
  λ _ r, match r return response r with
         | HasCollection _ => Ok false
         | CreateCollection _ _ => Fail conflictError
         | r' => defaultResponse r'
         end.

Definition exampleRepository : milvusRepository := mkRepository "weknora_embeddings".

Definition exampleQuery : RetrieveParams :=
  {| rp_RetrieverType := VectorRetrieverType;
     rp_Query := EmptyString;
     rp_Embedding := [0x3F800000; 0; 0x40000000];
     rp_TopK := 5;
     rp_Threshold := 0;
     rp_KnowledgeBaseIDs := ["kb-1"];
     rp_KnowledgeIDs := [];
     rp_TagIDs := [];
     rp_ExcludeKnowledgeIDs := [];
     rp_ExcludeChunkIDs := [] |}.

(** ** Storage estimator *)

Definition nlist : Z := 16384.

Definition metadataBytes : Z := 32.

(** The estimate as the specification words it: the byte lengths of all the
    variable-length string fields of the record, 8 bytes for the source
    type, 4 bytes per dimension, the index overhead and the per-row
    constant. *)
Definition storageSizeAsSpecified (r : MilvusVectorEmbedding) : Z :=
  (len (ID r) + len (Content r) + len (SourceID r) + len (ChunkID r)
   + len (KnowledgeID r) + len (KnowledgeBaseID r) + len (TagID r))
  + 8
  + 4 * dimensionOf r
  + dimensionOf r * (nlist * 4 + 4)
  + metadataBytes.

(** The string fields the estimator counts. *)
Definition countedStringBytes (r : MilvusVectorEmbedding) : Z :=
  len (Content r) + len (SourceID r) + len (ChunkID r)
  + len (KnowledgeID r) + len (KnowledgeBaseID r).

Definition taggedRow : MilvusVectorEmbedding :=
  {| ID := "6f1c";
     Content := "hello";
     SourceID := "c1";
     SourceType := 0;
     ChunkID := "c1";
     KnowledgeID := "k1";
     KnowledgeBaseID := "b1";
     TagID := "tag-7";
     Embedding := [0; 0; 0; 0];
     IsEnabled := true |}.

(** ** Write path *)

(** The answers to [n] consecutive identifier requests after the events [h]. *)
Fixpoint uuidAnswers (o : oracle) (h : list event) (n : nat) : list string :=
  match n with
  | O => []
  | S n' =>
      let id : string := o h NewUUID in
      id :: uuidAnswers o (h ++ [existT NewUUID id]) n'
  end.

Definition uuidEvents (ids : list string) : list event :=
  map (λ id : string, existT NewUUID id) ids.

Definition convertedRows (embeddings : list IndexInfo)
    (additionalParams : gmap string paramValue) (ids : list string)
    : list MilvusVectorEmbedding :=
  zip_with withID
    (map (λ e, toMilvusVectorEmbedding e additionalParams) embeddings) ids.

(** The outcome and events of one group of [BatchSave], given those of
    [ensureCollection]. *)
Definition groupOutcome (m : milvusRepository) (additionalParams : gmap string paramValue)
    (group : Z * list IndexInfo) (o : oracle) (h : list event)
    : outcome (result unit) * list event :=
  match run (ensureCollection m group.1) o h with
  | (Returned (Fail err), t) => (Returned (Fail err), t)
  | (Panicked msg, t) => (Panicked msg, t)
  | (Returned (Ok _), t) =>
      let ids := uuidAnswers o (h ++ t) (length group.2) in
      let upsert :=
        Upsert (createUpsert (getCollectionName m group.1)
                  (convertedRows group.2 additionalParams ids)) in
      match o (h ++ t ++ uuidEvents ids) upsert return outcome (result unit) * list event with
      | Ok x =>
          (Returned (Ok tt), t ++ uuidEvents ids ++ [existT upsert (Ok x)])
      | Fail err =>
          (Returned (Fail (Wrap ("failed to batch save (dimension "
                                   +:+ fmtInt group.1 +:+ "): ") err)),
           t ++ uuidEvents ids ++ [existT upsert (Fail err)])
      end
  end.

(** Every group, in turn, is saved with success. *)
Fixpoint allGroupsSucceed (m : milvusRepository) (additionalParams : gmap string paramValue)
    (o : oracle) (h : list event) (groups : list (Z * list IndexInfo)) : Prop :=
  match groups with
  | [] => True
  | group :: rest =>
      ∃ t, run (saveGroup m additionalParams group) o h = (Returned (Ok tt), t)
           ∧ allGroupsSucceed m additionalParams o (h ++ t) rest
  end.

(** *** The partition by dimension *)

Definition recordDimension (additionalParams : gmap string paramValue)
    (embedding : IndexInfo) : Z :=
  dimensionOf (toMilvusVectorEmbedding embedding additionalParams).

(** The record has a non-empty embedding, of dimension [d]. *)
Definition inGroup (additionalParams : gmap string paramValue) (d : Z)
    (embedding : IndexInfo) : bool :=
  negb (recordDimension additionalParams embedding =? 0)
  && (recordDimension additionalParams embedding =? d).

Definition nonEmpty {A} (l : list A) : option (list A) :=
  match l with [] => None | _ => Some l end.

Definition exampleParams : gmap string paramValue :=
  {[ fieldEmbedding :=
       PEmbeddings (<["s1" := [0x3F800000; 0]]> {["s2" := [0; 0x3F800000; 0]]}) ]}.

Definition exampleRecord (source chunk : string) : IndexInfo :=
  {| ii_Content := "text of " +:+ chunk;
     ii_SourceID := source;
     ii_SourceType := 0;
     ii_ChunkID := chunk;
     ii_KnowledgeID := "k1";
     ii_KnowledgeBaseID := "b1";
     ii_TagID := EmptyString |}.

(** Two records of dimensions 2 and 3 and one record without embedding. *)
Definition exampleBatch : list IndexInfo :=
  [exampleRecord "s1" "c1"; exampleRecord "s3" "c3"; exampleRecord "s2" "c2"].

(** *** Rows of the write path are enabled *)

Definition enabledRows (rows : list MilvusVectorEmbedding) : Prop :=
  Forall (λ row, IsEnabled row = true) rows.

(** The request, if it is an upsert, carries enabled rows only. *)
Definition enabledUpsert (r : request) : Prop :=
  match r with
  | Upsert opt => enabledRows (uo_rows opt)
  | _ => True
  end.

(** *** The other writers keep the flag they read *)

(** The answer, if it carries rows of the store, carries enabled rows only. *)
Definition enabledSet (set : ResultSet) : Prop :=
  match Columns set with
  | Ok rows => enabledRows rows
  | Fail _ => True
  end.

Definition enabledAnswer (r : request) : response r → Prop :=
  match r return response r → Prop with
  | Query _ => λ x, match x with Ok set => enabledSet set | Fail _ => True end
  | Search _ => λ x, match x with Ok sets => Forall enabledSet sets | Fail _ => True end
  | _ => λ _, True
  end.

(** [keepsEnabled Q p]: as long as the store answers with enabled rows only,
    [p] writes enabled rows only (and returns a value in [Q]). *)
Fixpoint keepsEnabled {A} (Q : A → Prop) (p : prog A) : Prop :=
  match p with
  | Ret a => Q a
  | Call r k => enabledUpsert r ∧ ∀ x, enabledAnswer r x → keepsEnabled Q (k x)
  | Panic _ => True
  end.

Definition enabledFound
    (found : result (list MilvusVectorEmbeddingWithScore * Z)) : Prop :=
  match found with
  | Ok (embeddings, _) => enabledRows (map embedded embeddings)
  | Fail _ => True
  end.

(** A store with one stored row of chunk [c2], enabled. *)
Definition storedRow : MilvusVectorEmbedding :=
  {| ID := "id-2"; Content := "text"; SourceID := "c2"; SourceType := 0;
     ChunkID := "c2"; KnowledgeID := "k1"; KnowledgeBaseID := "b1";
     TagID := EmptyString; Embedding := [0; 0]; IsEnabled := true |}.

Definition oneRowStore : oracle :=
  λ _ r, match r return response r with
         | ListCollections => Ok ["weknora_embeddings_2"]
         | Query opt =>
             Ok (mkResultSet
                   (if String.eqb (qo_filter opt) "chunk_id in {chunk_id_1}"
                    then 1 else 0)
                   []
                   (Ok (match qo_templateParams opt !! "chunk_id_1" with
                        | Some (VSlice [VStr "c2"]) => [storedRow]
                        | _ => []
                        end)))
         | r' => defaultResponse r'
         end.

(** The matches that the answer to one search contributes. *)
Definition searchMatches (answer : result (list ResultSet)) : list IndexWithScore :=
  match answer with
  | Ok resultSet =>
      match convertResultSet resultSet with
      | Ok (sets, _) => map keywordMatch sets
      | Fail _ => []
      end
  | Fail _ => []
  end.

Definition eventMatches (e : event) : list IndexWithScore :=
  match e with
  | existT r x =>
      match r return response r → list IndexWithScore with
      | Search _ => searchMatches
      | _ => λ _, []
      end x
  end.

(** A store whose only collection is named exactly as the base name. *)
Definition baseNamedStore : oracle :=
  λ _ r, match r return response r with
         | ListCollections => Ok ["weknora_embeddings"]
         | r' => defaultResponse r'
         end.

Definition exampleKeywordQuery : RetrieveParams :=
  {| rp_RetrieverType := KeywordsRetrieverType;
     rp_Query := "vector database";
     rp_Embedding := [];
     rp_TopK := 2;
     rp_Threshold := 0;
     rp_KnowledgeBaseIDs := ["b1"];
     rp_KnowledgeIDs := [];
     rp_TagIDs := [];
     rp_ExcludeKnowledgeIDs := [];
     rp_ExcludeChunkIDs := ["c9"] |}.

(** A store with two collections of the repository and an unrelated one;
    every search finds the two rows of the collection. *)
Definition keywordStore : oracle :=
  λ _ r, match r return response r with
         | ListCollections =>
             Ok ["weknora_embeddings_2"; "unrelated"; "weknora_embeddings_3"]
         | Search opt =>
             Ok [mkResultSet 2 [0x40000000; 0x3F000000]
                   (Ok [withID storedRow (so_collection opt +:+ "/1");
                        withID storedRow (so_collection opt +:+ "/2")])]
         | r' => defaultResponse r'
         end.

(** Both remap tables have the ids of the row. *)
Definition mapped (kbMap chunkMap : gmap string string)
    (src : MilvusVectorEmbeddingWithScore) : bool :=
  bool_decide (is_Some (chunkMap !! ChunkID (embedded src)))
  && bool_decide (is_Some (kbMap !! KnowledgeID (embedded src))).

(** [copiedRow kbMap chunkMap targetKB src (row, minted)]: [row] is the copy
    of the source row [src], and [minted] are the identifiers that were
    requested for it, in order. *)
Definition copiedRow (kbMap chunkMap : gmap string string) (targetKB : string)
    (src : MilvusVectorEmbeddingWithScore)
    (copy : MilvusVectorEmbedding * list string) : Prop :=
  let '(row, minted) := copy in
  let source := embedded src in
  chunkMap !! ChunkID source = Some (ChunkID row)
  ∧ kbMap !! KnowledgeID source = Some (KnowledgeID row)
  ∧ KnowledgeBaseID row = targetKB
  ∧ Content row = Content source
  ∧ Embedding row = Embedding source
  ∧ TagID row = TagID source
  ∧ IsEnabled row = IsEnabled source
  ∧ SourceType row = SourceType source
  ∧ (SourceID source = ChunkID source →
       SourceID row = ChunkID row ∧ minted = [ID row])
  ∧ (∀ suffix, SourceID source = ChunkID source +:+ "-" +:+ suffix →
       SourceID row = ChunkID row +:+ "-" +:+ suffix ∧ minted = [ID row])
  ∧ (SourceID source ≠ ChunkID source →
     (∀ suffix, SourceID source ≠ ChunkID source +:+ "-" +:+ suffix) →
       minted = [SourceID row; ID row]).

(** The query of one page of the scan of the source knowledge base. *)
Definition pageQuery (collectionName sourceKB : string) (offset : option Z) : QueryOption :=
  {| qo_collection := collectionName;
     qo_filter := "knowledge_base_id == {knowledge_base_id_1}";
     qo_templateParams := {[ "knowledge_base_id_1" := VStr sourceKB ]};
     qo_outputFields := ["*"];
     qo_limit := Some batchSize;
     qo_offset := offset |}.

Definition sourceRows (rows : list MilvusVectorEmbedding)
    : list MilvusVectorEmbeddingWithScore :=
  map (λ d, mkWithScore d 0) rows.

(** What the scan of a page returns, from the answer to its query. *)
Definition pageFound (answer : result ResultSet)
    : result (list MilvusVectorEmbeddingWithScore * Z) :=
  match answer with
  | Fail err => Fail err
  | Ok resultSet =>
      match Columns resultSet with
      | Fail err => Fail err
      | Ok docs => Ok (sourceRows docs, ResultCount resultSet)
      end
  end.

(** The outcome and the events of a page whose query is answered with the
    result set [set], whose rows are copied to [copies]. *)
Definition pageOutcome (collectionName sourceKB : string) (offset : option Z)
    (o : oracle) (h : list event) (set : ResultSet)
    (copies : list (MilvusVectorEmbedding * list string))
    : outcome pageResult * list event :=
  let queryEvent : event :=
    existT (Query (pageQuery collectionName sourceKB offset)) (Ok set) in
  let minted := uuidEvents (concat (map snd copies)) in
  let next :=
    if ResultCount set <? batchSize then Done (Ok tt)
    else Continue (Some (wrap64 (default 0 offset + ResultCount set))) in
  match copies with
  | [] => (Returned next, [queryEvent])
  | _ =>
      let upsert := Upsert (createUpsert collectionName (map fst copies)) in
      match o (h ++ [queryEvent] ++ minted) upsert
            return outcome pageResult * list event with
      | Ok x => (Returned next, [queryEvent] ++ minted ++ [existT upsert (Ok x)])
      | Fail err =>
          (Returned (Done (Fail err)),
           [queryEvent] ++ minted ++ [existT upsert (Fail err)])
      end
  end.

(** What one page does, by the answer to its query: a failed query or a
    failed decoding ends the copy with that error, an empty page ends it
    with success, and the rows of a non-empty page are copied as
    [copiedRow] says and written with one upsert. *)
Definition pageBehaviour (m : milvusRepository) (collectionName sourceKB : string)
    (kbMap chunkMap : gmap string string) (targetKB : string) (offset : option Z)
    (o : oracle) (h : list event) : Prop :=
  let query := Query (pageQuery collectionName sourceKB offset) in
  match o h query return Prop with
  | Fail err =>
      run (copyPage m collectionName sourceKB kbMap chunkMap targetKB offset) o h
      = (Returned (Done (Fail err)), [existT query (Fail err)])
  | Ok set =>
      match Columns set with
      | Fail err =>
          run (copyPage m collectionName sourceKB kbMap chunkMap targetKB offset) o h
          = (Returned (Done (Fail err)), [existT query (Ok set)])
      | Ok [] =>
          run (copyPage m collectionName sourceKB kbMap chunkMap targetKB offset) o h
          = (Returned (Done (Ok tt)), [existT query (Ok set)])
      | Ok rows =>
          ∃ copies,
            Forall2 (copiedRow kbMap chunkMap targetKB)
                    (List.filter (mapped kbMap chunkMap) (sourceRows rows)) copies
            ∧ run (copyPage m collectionName sourceKB kbMap chunkMap targetKB offset) o h
              = pageOutcome collectionName sourceKB offset o h set copies
      end
  end.


(** *** What a copy writes *)

(** The identifiers that the generator answered in the events [t]. *)
Definition mintedBy (e : event) : list string :=
  match e with
  | existT r x =>
      match r return response r → list string with
      | NewUUID => λ id, [id]
      | _ => λ _, []
      end x
  end.

Definition mintedIn (t : list event) : list string := flat_map mintedBy t.


Definition collectionRequest (r : request) : Prop :=
  match r with
  | HasCollection _ | CreateCollection _ _ | LoadCollection _ | AwaitLoad _
  | CacheLoad _ | CacheStore _ => True
  | _ => False
  end.

(** Three rows of knowledge base [A]; the chunk [c3] of the third one is
    not in the chunk table. *)
Definition rowOfA (id chunk source : string) : MilvusVectorEmbedding :=
  {| ID := id; Content := "text of " +:+ chunk; SourceID := source; SourceType := 0;
     ChunkID := chunk; KnowledgeID := "k1"; KnowledgeBaseID := "A";
     TagID := "t1"; Embedding := [0x3F800000; 0]; IsEnabled := true |}.

Definition rowsOfA : list MilvusVectorEmbedding :=
  [rowOfA "a1" "c1" "c1"; rowOfA "a2" "c2" "c2-q7"; rowOfA "a3" "c3" "c3"].

Definition copyStore : oracle :=
  λ h r, match r return response r with
         | CacheLoad _ => true
         | Query opt =>
             match qo_offset opt with
             | None => Ok (mkResultSet 3 [] (Ok rowsOfA))
             | Some _ => Ok (mkResultSet 0 [] (Ok []))
             end
         | NewUUID => "uuid-" +:+ pretty (length h)
         | r' => defaultResponse r'
         end.

Definition exampleChunkMap : gmap string string := <["c1" := "d1"]> {["c2" := "d2"]}.

Definition exampleKnowledgeMap : gmap string string := {["k1" := "k2"]}.

Definition copiedRowsOfA : list MilvusVectorEmbedding :=
  [ {| ID := "uuid-2"; Content := "text of c1"; SourceID := "d1"; SourceType := 0;
       ChunkID := "d1"; KnowledgeID := "k2"; KnowledgeBaseID := "B";
       TagID := "t1"; Embedding := [0x3F800000; 0]; IsEnabled := true |};
    {| ID := "uuid-3"; Content := "text of c2"; SourceID := "d2-q7"; SourceType := 0;
       ChunkID := "d2"; KnowledgeID := "k2"; KnowledgeBaseID := "B";
       TagID := "t1"; Embedding := [0x3F800000; 0]; IsEnabled := true |} ].


(** ** Filter compiler: acceptance, shape of the result, names *)

(** Structural well-formedness of a condition tree: what the checks of the
    converters ask of each node. *)
Fixpoint valid (c : condptr) : bool :=
  match c with
  | NilCond => false
  | Cond Field Operator Value =>
      if isComparisonOp Operator
      then negb (String.eqb Field EmptyString) && negb (isNil Value)
      else if isLogicalOp Operator
      then match Value with
           | VConds cs =>
               match cs with [] => false | _ => forallb valid cs end
           | _ => false
           end
      else if isMembershipOp Operator
      then negb (String.eqb Field EmptyString)
           && match sliceLen Value with Some n => 0 <? n | None => false end
      else if String.eqb Operator operatorBetween
      then negb (String.eqb Field EmptyString)
           && match sliceLen Value with Some 2 => true | _ => false end
      else false
  end.

Definition isSome {A} (o : option A) : bool :=
  match o with Some _ => true | None => false end.

(** The expression a logical node builds from two operands. *)
Definition joinLogical (Operator : string) (left right : convertResult) : convertResult :=
  mkResult ("(" +:+ exprStr left +:+ ") " +:+ toLower Operator +:+ " ("
              +:+ exprStr right +:+ ")")
           (params right ∪ params left).

(** *** Parameter names are valid template names: no ['.'] *)

Fixpoint noDot (s : string) : bool :=
  match s with
  | EmptyString => true
  | String c rest => negb (Ascii.eqb c "."%char) && noDot rest
  end.

Definition keysNoDot (m : gmap string value) : Prop :=
  ∀ k, is_Some (m !! k) → noDot k = true.

Definition dottedTree : condptr :=
  Cond EmptyString "or"
    (VConds
       [Cond "meta.author.name" "like" (VStr "a.b%");
        Cond "meta.size" "between" (VSlice [VInt 1; VInt 9])]).

Definition dottedResult : convertResult :=
  Eval vm_compute in
    match Convert dottedTree with
    | Ok r => r
    | Fail _ => mkResult EmptyString ∅
    end.

(** ** Properties of every run *)

(** [always R p]: whatever the answers of the environment, the events of
    [p] and its outcome are related by [R]. *)
Fixpoint always {A} (R : list event → outcome A → Prop) (p : prog A) : Prop :=
  match p with
  | Ret a => R [] (Returned a)
  | Call r k => ∀ x, always (λ t out, R (existT r x :: t) out) (k x)
  | Panic msg => R [] (Panicked msg)
  end.

(** The upsert of an event that the store acknowledged. *)
Definition acknowledgedUpsert (e : event) : option UpsertOption :=
  match e with
  | existT r x =>
      match r return response r → option UpsertOption with
      | Upsert opt => λ res, if isOk res then Some opt else None
      | _ => λ _, None
      end x
  end.

(** ** Write path: what is written, and where *)

(** The upsert is addressed to the collection of its declared dimension,
    carries at least one row, and every row has that dimension. *)
Definition dimensionedUpsert (m : milvusRepository) (r : request) : Prop :=
  match r with
  | Upsert opt =>
      uo_rows opt ≠ []
      ∧ uo_dimension opt ≠ 0
      ∧ uo_collection opt = getCollectionName m (uo_dimension opt)
      ∧ Forall (λ row, dimensionOf row = uo_dimension opt) (uo_rows opt)
  | _ => True
  end.

(** ** Delete path: a non-empty list *)

(** One delete request on [field] in the collection of [dimension]; a
    failure of the store is returned wrapped in [failure]. *)
Definition deleted (m : milvusRepository) (field failure : string) (ids : list string)
    (dimension : Z) (o : oracle) (h : list event) : outcome (result unit) * list event :=
  let r := Delete (getCollectionName m dimension) field ids in
  (Returned (match o h r with
             | Ok _ => Ok tt
             | Fail err => Fail (Wrap failure err)
             end),
   [existT r (o h r)]).

(** ** Batch field updaters *)


Definition disableOnly : gmap string bool := <["c1" := false]> {["c2" := false]}.


(** ** Tag updater: what one group writes *)

(** The query of a batch updater for the chunks [chunkIDs] in one
    collection. *)
Definition chunkQuery (collectionName : string) (chunkIDs : list string) : QueryOption :=
  {| qo_collection := collectionName;
     qo_filter := "chunk_id in {chunk_id_1}";
     qo_templateParams := {[ "chunk_id_1" := stringsValue chunkIDs ]};
     qo_outputFields := ["*"];
     qo_limit := None;
     qo_offset := None |}.

(** ** Storage estimator: the total *)

(** The sum of the estimates of the records, before the reduction to a
    machine integer. *)
Definition sumOfEstimates (indexInfoList : list IndexInfo)
    (additionalParams : gmap string paramValue) : Z :=
  foldr (λ embedding total,
           calculateStorageSize (toMilvusVectorEmbedding embedding additionalParams) + total)
        0 indexInfoList.

(** ** Retrieval *)

(** The request reads from the store: an existence check, a listing or a
    search. *)
Definition readRequest (r : request) : Prop :=
  match r with
  | HasCollection _ | ListCollections | Search _ => True
  | _ => False
  end.

(** The lists of identifiers of a query that are not empty. *)
Definition criteria (rparams : RetrieveParams) : list (list string) :=
  List.filter (λ ids, 0 <? Z.of_nat (length ids))
    [rp_KnowledgeBaseIDs rparams; rp_KnowledgeIDs rparams; rp_TagIDs rparams;
     rp_ExcludeKnowledgeIDs rparams; rp_ExcludeChunkIDs rparams].

(** The search of [VectorRetrieve]. *)
Definition vectorSearchOption (m : milvusRepository) (rparams : RetrieveParams)
    (expr : string) (paramsMap : gmap string value) : SearchOption :=
  {| so_collection := getCollectionName m (Z.of_nat (length (rp_Embedding rparams)));
     so_limit := rp_TopK rparams;
     so_vector := FloatVector (rp_Embedding rparams);
     so_annsField := fieldEmbedding;
     so_radius := if float64_gt_zero (rp_Threshold rparams)
                  then Some (rp_Threshold rparams) else None;
     so_filter := expr;
     so_templateParams := if String.eqb expr EmptyString then ∅ else paramsMap;
     so_outputFields := ["*"] |}.

(** The match of a vector search: the row with its score. *)
Definition vectorMatch (row : MilvusVectorEmbedding) (score : float32) : IndexWithScore :=
  {| iws_ID := ID row;
     iws_SourceID := SourceID row;
     iws_SourceType := SourceType row;
     iws_ChunkID := ChunkID row;
     iws_KnowledgeID := KnowledgeID row;
     iws_KnowledgeBaseID := KnowledgeBaseID row;
     iws_TagID := TagID row;
     iws_Content := Content row;
     iws_Score := float64_of_float32 score;
     iws_MatchType := MatchTypeEmbedding |}.

(** A store in which every collection exists and every search finds two
    rows, with their scores. *)
Definition vectorStore : oracle :=
  λ _ r, match r return response r with
         | HasCollection _ => Ok true
         | Search opt =>
             Ok [mkResultSet 2 [0x40000000; 0x3F000000]
                   (Ok [withID storedRow "id-1"; withID storedRow "id-2"])]
         | r' => defaultResponse r'
         end.

Definition negativeTopKQuery : RetrieveParams :=
  {| rp_RetrieverType := KeywordsRetrieverType;
     rp_Query := "vector database";
     rp_Embedding := [];
     rp_TopK := -1;
     rp_Threshold := 0;
     rp_KnowledgeBaseIDs := [];
     rp_KnowledgeIDs := [];
     rp_TagIDs := [];
     rp_ExcludeKnowledgeIDs := [];
     rp_ExcludeChunkIDs := [] |}.

(** ** Conversions between records and rows *)

(** The record that a retrieved match carries. *)
Definition indexInfoOf (r : IndexWithScore) : IndexInfo :=
  {| ii_Content := iws_Content r;
     ii_SourceID := iws_SourceID r;
     ii_SourceType := iws_SourceType r;
     ii_ChunkID := iws_ChunkID r;
     ii_KnowledgeID := iws_KnowledgeID r;
     ii_KnowledgeBaseID := iws_KnowledgeBaseID r;
     ii_TagID := iws_TagID r |}.

(** ** Copy between knowledge bases: the collection *)

(** The request concerns the collection [collectionName] only, or the
    identifier generator or the cache of dimensions; it is no search, no
    listing and no delete. *)
Definition inCollection (collectionName : string) (r : request) : Prop :=
  match r with
  | HasCollection name | CreateCollection name _ | LoadCollection name
  | AwaitLoad name => name = collectionName
  | Query opt => qo_collection opt = collectionName
  | Upsert opt => uo_collection opt = collectionName
  | NewUUID | CacheLoad _ | CacheStore _ => True
  | ListCollections | Search _ | Delete _ _ _ => False
  end.

Definition exampleTags : gmap string string :=
  <["c1" := "t1"]> (<["c2" := "t2"]> {["c3" := "t1"]}).

(** ** Collection manager: the second call *)

(** The cache of initialized dimensions answers a lookup with "present"
    exactly when the dimension has been stored before. *)
Definition cacheConsistent (o : oracle) : Prop :=
  ∀ h dimension,
    o h (CacheLoad dimension) = true ↔ In (CacheStore dimension) (map requestOf h).

(** A store with a cache of dimensions that remembers what is stored. *)
Definition cachingStore : oracle :=
  λ h r, match r return response r with
         | CacheLoad dimension =>
             existsb (λ e, match requestOf e with
                           | CacheStore d => d =? dimension
                           | _ => false
                           end) h
         | r' => defaultResponse r'
         end.

(** ** Escaping of string literals *)

Definition doubleQuote : ascii := "034"%char.

Definition backslash : ascii := "092"%char.

(** [strings.ReplaceAll(s, doubleQuote, backslash doubleQuote)]. *)
Fixpoint escapeDoubleQuotes (s : string) : string :=
  match s with
  | EmptyString => EmptyString
  | String c rest =>
      if Ascii.eqb c doubleQuote
      then String backslash (String doubleQuote (escapeDoubleQuotes rest))
      else String c (escapeDoubleQuotes rest)
  end.

(** The string has a double quote that does not directly follow a
    backslash; [afterBackslash] tells whether the string follows one. *)
Fixpoint bareQuote (afterBackslash : bool) (s : string) : bool :=
  match s with
  | EmptyString => false
  | String c rest =>
      (Ascii.eqb c doubleQuote && negb afterBackslash)
      || bareQuote (Ascii.eqb c backslash) rest
  end.

(** The string without the backslash before each double quote. *)
Fixpoint dropQuoteEscapes (s : string) : string :=
  match s with
  | EmptyString => EmptyString
  | String c rest =>
      match rest with
      | String q rest' =>
          if Ascii.eqb c backslash && Ascii.eqb q doubleQuote
          then String q (dropQuoteEscapes rest')
          else String c (dropQuoteEscapes rest)
      | EmptyString => String c EmptyString
      end
  end.

(** * Part II: properties *)

(** ** Filter compiler *)

Section condptr_induction.

Variable P : condptr → Prop.

Hypothesis P_nil : P NilCond.

Hypothesis P_cond :
  ∀ Field Operator Value, Forall P (children Value) → P (Cond Field Operator Value).

Lemma condptr_children_ind : ∀ c, P c.
Proof.
  fix IH 1. intros [|f o v]; [exact P_nil|].
  apply P_cond. destruct v as [| | | | | |c|cs]; simpl; try constructor.
  induction cs as [|c cs IHcs]; constructor; [apply IH | exact IHcs].
Qed.

End condptr_induction.




Lemma eraseValue_VConds_inv cs v' :
  eraseValue (VConds cs) = eraseValue v' →
  ∃ cs', v' = VConds cs' ∧ map eraseCond cs = map eraseCond cs'.
Proof. destruct v'; simpl; try discriminate. intros [= H]. eauto. Qed.



(** The operators of the four groups are pairwise different. *)
Lemma logical_not_leaf o :
  isLogicalOp o = true →
  isComparisonOp o = false ∧ isMembershipOp o = false
  ∧ String.eqb o operatorBetween = false.
Proof.
  unfold isLogicalOp. intros H. apply orb_true_iff in H as [H|H];
    apply String.eqb_eq in H; subst o; repeat split; reflexivity.
Qed.

Lemma membership_not_between o :
  isMembershipOp o = true → String.eqb o operatorBetween = false.
Proof.
  unfold isMembershipOp. intros H. apply orb_true_iff in H as [H|H];
    apply String.eqb_eq in H; subst o; reflexivity.
Qed.



Lemma pretty_N_char_noUnderscore x : Ascii.eqb (pretty_N_char x) "_"%char = false.
Proof. unfold pretty_N_char. repeat case_match; reflexivity. Qed.

Lemma pretty_N_go_noUnderscore x s :
  noUnderscore s = true → noUnderscore (pretty_N_go x s) = true.
Proof.
  revert s. induction (N.lt_wf_0 x) as [x _ IH]; intros s Hs.
  assert (x = 0 ∨ 0 < x)%N as [->|Hx] by lia.
  - by rewrite pretty_N_go_0.
  - rewrite pretty_N_go_step by done. apply IH.
    + by apply N.div_lt.
    + simpl. by rewrite pretty_N_char_noUnderscore.
Qed.

Lemma pretty_N_noUnderscore (x : N) : noUnderscore (pretty x) = true.
Proof.
  unfold pretty, pretty_N. case_decide; [reflexivity|].
  by apply pretty_N_go_noUnderscore.
Qed.

Lemma fmtInt_noUnderscore n : noUnderscore (fmtInt n) = true.
Proof.
  unfold fmtInt, pretty, pretty_Z. destruct n as [|p|p]; [reflexivity|..].
  - apply (pretty_N_noUnderscore (Npos p)).
  - simpl. apply (pretty_N_noUnderscore (Npos p)).
Qed.

Lemma noUnderscore_app_underscore a b :
  noUnderscore (a +:+ String "_"%char b) = false.
Proof.
  induction a as [|c a IH]; simpl; [reflexivity|].
  rewrite IH. apply andb_false_r.
Qed.

Lemma append_nil_l s : EmptyString +:+ s = s.
Proof. reflexivity. Qed.

Lemma append_cons c a b : String c a +:+ b = String c (a +:+ b).
Proof. reflexivity. Qed.

(** A name is cut in a unique way at its last underscore. *)
Lemma underscore_split s1 s2 d1 d2 :
  noUnderscore d1 = true → noUnderscore d2 = true →
  s1 +:+ String "_"%char d1 = s2 +:+ String "_"%char d2 → s1 = s2 ∧ d1 = d2.
Proof.
  intros H1 H2. revert s2. induction s1 as [|c s1 IH]; intros [|c' s2];
    rewrite ?append_cons, ?append_nil_l.
  - intros [= ->]. auto.
  - intros [= <- ->]. by rewrite noUnderscore_app_underscore in H1.
  - intros [= -> <-]. by rewrite noUnderscore_app_underscore in H2.
  - intros [= -> H]. destruct (IH _ H) as [-> ->]. auto.
Qed.

(** Two names that [convertParamName] produces at different counter values
    are different, whatever the fields. *)
Lemma convertParamName_inj f1 f2 n1 n2 :
  (convertParamName f1 n1).1 = (convertParamName f2 n2).1 →
  wrap64 (n1 + 1) = wrap64 (n2 + 1).
Proof.
  unfold convertParamName. simpl. intros H.
  apply underscore_split in H as [_ H]; auto using fmtInt_noUnderscore.
  unfold fmtInt in H. by apply (inj pretty) in H.
Qed.

Lemma wrap64_small z : - 2 ^ 63 ≤ z < 2 ^ 63 → wrap64 z = z.
Proof. intros H. unfold wrap64. rewrite Z.mod_small; lia. Qed.

Lemma namedIn_mono m lo hi lo' hi' :
  lo' ≤ lo → hi ≤ hi' → namedIn m lo hi → namedIn m lo' hi'.
Proof.
  intros Hlo Hhi H k Hk. destruct (H k Hk) as (f & n & Hn & ->).
  exists f, n. split; [lia | reflexivity].
Qed.

Lemma namedIn_singleton f n (v : value) :
  namedIn {[ (convertParamName f n).1 := v ]} n (n + 1).
Proof.
  intros k [x Hk]. apply lookup_singleton_Some in Hk as [<- _].
  exists f, n. split; [lia | reflexivity].
Qed.

Lemma namedIn_disjoint m1 m2 lo mid hi :
  0 ≤ lo → hi < 2 ^ 63 →
  namedIn m1 lo mid → namedIn m2 mid hi → m1 ##ₘ m2.
Proof.
  intros Hlo Hhi H1 H2. apply map_disjoint_spec. intros k x y Hx Hy.
  destruct (H1 k (mk_is_Some _ _ Hx)) as (f1 & n1 & Hn1 & E1).
  destruct (H2 k (mk_is_Some _ _ Hy)) as (f2 & n2 & Hn2 & E2).
  rewrite E1 in E2. apply convertParamName_inj in E2.
  rewrite !wrap64_small in E2 by lia. lia.
Qed.

Lemma namedIn_union m1 m2 lo hi :
  namedIn m1 lo hi → namedIn m2 lo hi → namedIn (m1 ∪ m2) lo hi.
Proof.
  intros H1 H2 k Hk. apply lookup_union_is_Some in Hk as [Hk|Hk]; auto.
Qed.

Lemma append_nonempty_l a b : a ≠ EmptyString → a +:+ b ≠ EmptyString.
Proof. destruct a; [congruence | rewrite append_cons; discriminate]. Qed.

Lemma append_nonempty_r a b : b ≠ EmptyString → a +:+ b ≠ EmptyString.
Proof.
  intros Hb. destruct a; [by rewrite append_nil_l | rewrite append_cons; discriminate].
Qed.

Lemma eqb_empty_false s : s ≠ EmptyString → String.eqb s EmptyString = false.
Proof. intros H. by apply String.eqb_neq. Qed.

Lemma convertChildren_count op cs :
  Forall countSpec cs → forallb betweenFree cs = true →
  ∀ acc lo c0 r n,
    0 ≤ lo → lo ≤ c0 →
    c0 + Z.of_nat (length (flat_map literals cs)) < 2 ^ 63 →
    accOk acc lo c0 →
    convertChildren convertCondition op cs acc c0 = Ok (r, n) →
    n = c0 + Z.of_nat (length (flat_map literals cs))
    ∧ size (params r) = (accSize acc + length (flat_map literals cs))%nat
    ∧ namedIn (params r) lo n
    ∧ exprStr r ≠ EmptyString.
Proof.
  induction 1 as [|c cs Hc _ IH]; intros Hbf acc lo c0 r n Hlo Hc0 Hbound Hacc Hrun;
    simpl in Hrun, Hbound |- *.
  - destruct acc as [a|]; [|discriminate]. injection Hrun as -> ->.
    destruct Hacc as [He Hn]. rewrite Z.add_0_r, Nat.add_0_r. auto.
  - simpl in Hbf. apply andb_true_iff in Hbf as [Hbc Hbcs].
    rewrite length_app in Hbound |- *. fold (leaves c) in Hbound |- *.
    destruct (convertCondition c c0) as [[rc nc]|e] eqn:Hconv; [|discriminate].
    destruct (Hc Hbc c0 rc nc) as (Hnc & Hsz & Hnm & Hex); [lia..|done|].
    rewrite (eqb_empty_false _ Hex) in Hrun.
    destruct acc as [a|].
    + destruct Hacc as [Hea Hna].
      assert (params rc ##ₘ params a) as Hdisj.
      { apply map_disjoint_sym.
        apply (namedIn_disjoint _ _ lo c0 nc); auto; lia. }
      edestruct (IH Hbcs) as (-> & Hsize & Hnamed & Hexpr); [| | | |exact Hrun|].
      * exact Hlo.
      * lia.
      * lia.
      * simpl. split; [rewrite append_cons; discriminate|].
        apply namedIn_union.
        -- eapply namedIn_mono; [| |exact Hnm]; lia.
        -- eapply namedIn_mono; [| |exact Hna]; lia.
      * simpl in Hsize. rewrite map_size_disj_union in Hsize by done.
        repeat split; auto; simpl; lia.
    + edestruct (IH Hbcs) as (-> & Hsize & Hnamed & Hexpr); [| | | |exact Hrun|].
      * exact Hlo.
      * lia.
      * lia.
      * simpl. split; [done|]. eapply namedIn_mono; [| |exact Hnm]; lia.
      * simpl in Hsize. repeat split; auto; simpl; lia.
Qed.

Lemma convertCondition_count c : countSpec c.
Proof.
  induction c as [|f o v IH] using condptr_children_ind;
    intros Hbf c0 r n Hc0 Hbound Hrun; simpl in Hrun; [discriminate|].
  simpl in Hbf. apply andb_true_iff in Hbf as [Hnb Hbf].
  apply negb_true_iff in Hnb.
  unfold leaves in *. simpl in Hbound |- *.
  destruct (isComparisonOp o) eqn:Hcmp; simpl in Hbound |- *.
  { unfold convertComparisonCondition in Hrun.
    destruct (String.eqb f EmptyString || isNil v)%bool; [discriminate|].
    destruct (comparisonOperators o); [|discriminate].
    injection Hrun as <- <-. simpl.
    rewrite wrap64_small by lia. rewrite map_size_singleton.
    split; [lia|]. split; [reflexivity|]. split.
    - pose proof (namedIn_singleton f c0 v) as H. simpl in H.
      rewrite wrap64_small in H by lia. exact H.
    - do 5 apply append_nonempty_r. discriminate. }
  destruct (isLogicalOp o) eqn:Hlog.
  { destruct (logical_not_leaf _ Hlog) as (_ & Hmem & _).
    rewrite Hmem, Hnb in Hbound |- *. simpl in Hbound |- *.
    destruct v; try discriminate. simpl in IH.
    destruct (convertChildren_count o _ IH Hbf None c0 c0 r n)
      as (-> & Hsz & Hnm & Hex); simpl; auto; lia. }
  destruct (isMembershipOp o) eqn:Hmem; simpl in Hbound |- *.
  { unfold convertInCondition in Hrun.
    destruct (String.eqb f EmptyString || isNil v)%bool; [discriminate|].
    destruct (sliceLen v) as [m|]; [|discriminate].
    destruct (m <=? 0)%Z; [discriminate|].
    injection Hrun as <- <-. simpl.
    rewrite wrap64_small by lia. rewrite map_size_singleton.
    split; [lia|]. split; [reflexivity|]. split.
    - pose proof (namedIn_singleton f c0 v) as H. simpl in H.
      rewrite wrap64_small in H by lia. exact H.
    - do 5 apply append_nonempty_r. discriminate. }
  rewrite Hnb in Hrun. discriminate.
Qed.

(** Among trees without [between], the claim of C3 holds: an accepted tree
    has exactly one parameter-map entry per comparison or membership leaf, so
    no two leaves share a name. *)
Lemma betweenFree_one_entry_per_leaf (c : condptr) (r : convertResult) :
  betweenFree c = true → Z.of_nat (leaves c) < 2 ^ 63 →
  Convert c = Ok r → size (params r) = leaves c.
Proof.
  unfold Convert. intros Hbf Hbound Hc.
  destruct (convertCondition c 0) as [[r0 n]|e] eqn:Hrun; [|discriminate].
  injection Hc as ->.
  destruct (convertCondition_count c Hbf 0 r n) as (_ & Hsz & _); auto; lia.
Qed.

Lemma bindings_logical f o cs counter :
  isLogicalOp o = true →
  bindings (Cond f o (VConds cs)) counter = childBindings cs counter.
Proof. intros H. simpl. by rewrite H. Qed.

Lemma bindings_leaf f o v counter r n :
  isLogicalOp o = false →
  convertCondition (Cond f o v) counter = Ok (r, n) →
  bindings (Cond f o v) counter = map_to_list (params r).
Proof.
  intros Hlog Hrun. unfold bindings. rewrite Hlog.
  change (match convertCondition (Cond f o v) counter with
          | Ok (r0, _) => map_to_list (params r0)
          | Fail _ => []
          end = map_to_list (params r)).
  by rewrite Hrun.
Qed.

Lemma comparison_not_logical o : isComparisonOp o = true → isLogicalOp o = false.
Proof.
  intros H. destruct (isLogicalOp o) eqn:Hlog; [|reflexivity].
  destruct (logical_not_leaf _ Hlog) as [Hc _]. congruence.
Qed.

(** An accepted condition has a non-empty expression. *)
Lemma convertChildren_nonempty op cs :
  Forall (λ c, ∀ counter r n, convertCondition c counter = Ok (r, n) →
               exprStr r ≠ EmptyString) cs →
  ∀ acc counter r n,
    match acc with Some a => exprStr a ≠ EmptyString | None => True end →
    convertChildren convertCondition op cs acc counter = Ok (r, n) →
    exprStr r ≠ EmptyString.
Proof.
  induction 1 as [|c cs Hc _ IH]; intros acc counter r n Hacc Hrun; simpl in Hrun.
  - destruct acc as [a|]; [|discriminate]. by injection Hrun as <- _.
  - destruct (convertCondition c counter) as [[rc nc]|e] eqn:Hconv; [|discriminate].
    specialize (Hc _ _ _ Hconv). rewrite (eqb_empty_false _ Hc) in Hrun.
    destruct acc as [a|]; eapply IH; try exact Hrun; simpl; auto.
Qed.

Lemma convertCondition_nonempty c :
  ∀ counter r n, convertCondition c counter = Ok (r, n) → exprStr r ≠ EmptyString.
Proof.
  induction c as [|f o v IH] using condptr_children_ind;
    intros counter r n Hrun; simpl in Hrun; [discriminate|].
  destruct (isComparisonOp o).
  { unfold convertComparisonCondition in Hrun.
    destruct (String.eqb f EmptyString || isNil v)%bool; [discriminate|].
    destruct (comparisonOperators o); [|discriminate].
    injection Hrun as <- _. simpl. apply append_nonempty_r, append_nonempty_l. discriminate. }
  destruct (isLogicalOp o).
  { destruct v; try discriminate. simpl in IH.
    eapply convertChildren_nonempty; [exact IH| |exact Hrun]. exact I. }
  destruct (isMembershipOp o).
  { unfold convertInCondition in Hrun.
    destruct (String.eqb f EmptyString || isNil v)%bool; [discriminate|].
    destruct (sliceLen v) as [m|]; [|discriminate].
    destruct (m <=? 0)%Z; [discriminate|].
    injection Hrun as <- _. simpl. apply append_nonempty_r, append_nonempty_l. discriminate. }
  destruct (String.eqb o operatorBetween); [|discriminate].
  unfold convertBetweenCondition in Hrun.
  destruct (String.eqb f EmptyString || isNil v)%bool; [discriminate|].
  destruct (sliceLen v) as [[|[[]|[]|]|]|]; try discriminate.
  injection Hrun as <- _. simpl. apply append_nonempty_r, append_nonempty_l. discriminate.
Qed.

(** The returned map is the map of the bindings, a later binding of a name
    replacing an earlier one. *)
Lemma convertChildren_bindings op cs :
  Forall (λ c, ∀ counter r n, convertCondition c counter = Ok (r, n) →
               params r = list_to_map (rev (bindings c counter))) cs →
  ∀ acc counter r n (before : list (string * value)),
    match acc with
    | Some a => params a = list_to_map (rev before)
    | None => before = []
    end →
    convertChildren convertCondition op cs acc counter = Ok (r, n) →
    params r = list_to_map (rev (before ++ childBindings cs counter)).
Proof.
  induction 1 as [|c cs Hc _ IH]; intros acc counter r n before Hacc Hrun;
    simpl in Hrun.
  - destruct acc as [a|]; [|discriminate]. injection Hrun as <- _.
    simpl. by rewrite app_nil_r.
  - destruct (convertCondition c counter) as [[rc nc]|e] eqn:Hconv; [|discriminate].
    pose proof (convertCondition_nonempty _ _ _ _ Hconv) as Hne.
    rewrite (eqb_empty_false _ Hne) in Hrun.
    specialize (Hc _ _ _ Hconv).
    cbn [childBindings]. unfold counterAfter. rewrite Hconv.
    rewrite app_assoc.
    destruct acc as [a|].
    + eapply IH; [|exact Hrun]. simpl.
      by rewrite rev_app_distr, list_to_map_app, Hc, Hacc.
    + subst before. eapply IH; [|exact Hrun]. simpl. exact Hc.
Qed.

Lemma convertCondition_bindings c :
  ∀ counter r n, convertCondition c counter = Ok (r, n) →
    params r = list_to_map (rev (bindings c counter)).
Proof.
  induction c as [|f o v IH] using condptr_children_ind;
    intros counter r n Hrun; [discriminate|].
  destruct (isLogicalOp o) eqn:Hlog.
  - destruct (logical_not_leaf _ Hlog) as (Hcmp & _).
    simpl in Hrun. rewrite Hcmp, Hlog in Hrun.
    destruct v; try discriminate. simpl in IH.
    rewrite bindings_logical by done.
    apply (convertChildren_bindings o cs IH None counter r n []); [reflexivity|exact Hrun].
  - rewrite (bindings_leaf _ _ _ _ _ _ Hlog Hrun).
    rewrite <- (list_to_map_to_list (params r)) at 1.
    apply list_to_map_proper; [apply NoDup_fst_map_to_list|].
    apply Permutation_rev.
Qed.






Lemma size_list_to_map_le (l : list (string * value)) :
  (size (list_to_map l : gmap string value) ≤ length l)%nat.
Proof.
  induction l as [|[k v] l IH]; [done|].
  change (list_to_map ((k, v) :: l) : gmap string value)
    with (<[k:=v]> (list_to_map l : gmap string value)). simpl.
  destruct ((list_to_map l : gmap string value) !! k) as [y|] eqn:Hk.
  - rewrite map_size_insert_Some by eauto. lia.
  - rewrite map_size_insert_None by done. lia.
Qed.

Lemma size_list_to_map_NoDup (l : list (string * value)) :
  size (list_to_map l : gmap string value) = length l → NoDup (map fst l).
Proof.
  induction l as [|[k v] l IH]; [constructor|].
  change (list_to_map ((k, v) :: l) : gmap string value)
    with (<[k:=v]> (list_to_map l : gmap string value)). simpl. intros Hsize.
  pose proof (size_list_to_map_le l) as Hle.
  destruct ((list_to_map l : gmap string value) !! k) as [y|] eqn:Hk.
  - rewrite map_size_insert_Some in Hsize by eauto. lia.
  - rewrite map_size_insert_None in Hsize by done.
    constructor; [|apply IH; lia].
    by apply not_elem_of_list_to_map in Hk.
Qed.

Lemma convertChildren_lengths op cs :
  Forall oneBindingPerLeaf cs → forallb betweenFree cs = true →
  ∀ acc counter r n,
    convertChildren convertCondition op cs acc counter = Ok (r, n) →
    length (childBindings cs counter) = length (flat_map literals cs).
Proof.
  induction 1 as [|c cs Hc _ IH]; intros Hbf acc counter r n Hrun; [reflexivity|].
  simpl in Hbf. apply andb_true_iff in Hbf as [Hbc Hbcs]. simpl in Hrun.
  destruct (convertCondition c counter) as [[rc nc]|e] eqn:Hconv; [|discriminate].
  cbn [flat_map childBindings]. unfold counterAfter. rewrite Hconv.
  rewrite !length_app, (Hc Hbc _ _ _ Hconv). fold (leaves c). f_equal.
  destruct (String.eqb (exprStr rc) EmptyString); [by eapply IH|].
  destruct acc; by eapply IH.
Qed.

Lemma convertCondition_lengths c : oneBindingPerLeaf c.
Proof.
  induction c as [|f o v IH] using condptr_children_ind;
    intros Hbf counter r n Hrun; [discriminate|].
  simpl in Hbf. apply andb_true_iff in Hbf as [Hnb Hbf]. apply negb_true_iff in Hnb.
  destruct (isLogicalOp o) eqn:Hlog.
  - destruct (logical_not_leaf _ Hlog) as (Hcmp & Hmem & Hbet).
    pose proof Hrun as Hrun'. simpl in Hrun'. rewrite Hcmp, Hlog in Hrun'.
    destruct v; try discriminate. simpl in IH.
    rewrite bindings_logical by done.
    unfold leaves. simpl. rewrite Hcmp, Hmem, Hbet, Hlog. cbn [orb].
    by apply (convertChildren_lengths o cs IH Hbf None counter r n).
  - rewrite (bindings_leaf _ _ _ _ _ _ Hlog Hrun).
    unfold leaves. simpl in Hrun |- *. rewrite Hlog, Hnb in Hrun.
    destruct (isComparisonOp o) eqn:Hcmp; cbn [orb].
    { unfold convertComparisonCondition in Hrun.
      destruct (String.eqb f EmptyString || isNil v)%bool; [discriminate|].
      destruct (comparisonOperators o); [|discriminate].
      injection Hrun as <- _. simpl. by rewrite map_to_list_singleton. }
    destruct (isMembershipOp o) eqn:Hmem; cbn [orb]; [|discriminate].
    unfold convertInCondition in Hrun.
    destruct (String.eqb f EmptyString || isNil v)%bool; [discriminate|].
    destruct (sliceLen v) as [m|]; [|discriminate].
    destruct (m <=? 0)%Z; [discriminate|].
    injection Hrun as <- _. simpl. by rewrite map_to_list_singleton.
Qed.

(** Among trees without [between] the generated names are pairwise
    distinct. *)
Lemma betweenFree_names_distinct (c : condptr) (r : convertResult) :
  betweenFree c = true → Z.of_nat (leaves c) < 2 ^ 63 →
  Convert c = Ok r → NoDup (paramNames c).
Proof.
  intros Hbf Hbound Hc.
  pose proof (betweenFree_one_entry_per_leaf c r Hbf Hbound Hc) as Hsize.
  unfold Convert in Hc. unfold paramNames.
  destruct (convertCondition c 0) as [[r0 n]|e] eqn:Hrun; [|discriminate].
  injection Hc as ->.
  rewrite (convertCondition_bindings c 0 r n Hrun) in Hsize.
  rewrite <- (convertCondition_lengths c Hbf 0 r n Hrun), <- length_rev in Hsize.
  apply size_list_to_map_NoDup in Hsize. rewrite map_rev in Hsize.
  apply NoDup_ListNoDup. apply NoDup_ListNoDup, NoDup_rev in Hsize.
  by rewrite rev_involutive in Hsize.
Qed.

(** C3, evaluated on the code: the compiler accepts the tree, three
    placeholders are generated for its three operands (5, 1 and 9), but
    the names are not pairwise distinct: the merged map has two entries, the
    name shared by the comparison and by the upper bound is bound to 9, and
    the comparison's operand 5 is bound nowhere. *)
Theorem C3_between_suffix_collision :
  Convert collidingTree = Ok collidingResult
  ∧ literals collidingTree = [VInt 5; VInt 1; VInt 9]
  ∧ size (params collidingResult) = 2%nat
  ∧ params collidingResult !! "a_2_1" = Some (VInt 9)
  ∧ (∀ k, params collidingResult !! k ≠ Some (VInt 5))
  ∧ paramNames collidingTree = ["a_2_1"; "a_2_1"; "a_2_0"]
  ∧ ¬ NoDup (paramNames collidingTree).
Proof.
  split; [vm_compute; reflexivity|].
  split; [reflexivity|].
  split; [vm_compute; reflexivity|].
  split; [vm_compute; reflexivity|].
  split.
  { intros k Hk. simpl in Hk.
    apply lookup_insert_Some in Hk as [[_ [=]]|[_ Hk]].
    apply lookup_singleton_Some in Hk as [_ [=]]. }
  split; [vm_compute; reflexivity|].
  change (paramNames collidingTree) with ["a_2_1"; "a_2_1"; "a_2_0"].
  intros Hnames. apply NoDup_cons in Hnames as [Hnotin _].
  apply Hnotin. by left.
Qed.



(** ** Running repository programs *)

Lemma run_bind {A B} (p : prog A) (f : A → prog B) o h :
  run (p ≫= f) o h =
  match run p o h with
  | (Returned a, t) =>
      let '(out, t') := run (f a) o (h ++ t) in (out, (t ++ t')%list)
  | (Panicked msg, t) => (Panicked msg, t)
  end.
Proof.
  unfold mbind, prog_bind. revert h.
  induction p as [a|r k IH|msg]; intros h; simpl.
  - rewrite app_nil_r. by destruct (run (f a) o h).
  - rewrite IH. destruct (run (k (o h r)) o (h ++ [existT r (o h r)])) as [[a|msg] t].
    + rewrite <- app_assoc. simpl.
      by destruct (run (f a) o (h ++ existT r (o h r) :: t)).
    + reflexivity.
  - reflexivity.
Qed.

Lemma run_call r o h :
  run (call r) o h = (Returned (o h r), [existT r (o h r)]).
Proof. reflexivity. Qed.

Lemma run_ret {A} (a : A) o h : run (Ret a) o h = (Returned a, []).
Proof. reflexivity. Qed.

(** One step of a run: the next request of the program is a [call]. *)
Ltac run_bind_call := rewrite run_bind; cbn [run call].

Lemma satisfies_bind {A B} P (Q : A → Prop) (R : B → Prop) (p : prog A) (f : A → prog B) :
  satisfies P Q p → (∀ a, Q a → satisfies P R (f a)) → satisfies P R (p ≫= f).
Proof.
  unfold mbind, prog_bind. intros Hp Hf.
  induction p as [a|r k IH|msg]; simpl in *; auto.
  destruct Hp as [Hr Hk]. split; auto.
Qed.

Lemma satisfies_call (P : request → Prop) r : P r → satisfies P (λ _, True) (call r).
Proof. intros Hr. simpl. auto. Qed.

Lemma satisfies_weaken {A} P (Q Q' : A → Prop) (p : prog A) :
  (∀ a, Q a → Q' a) → satisfies P Q p → satisfies P Q' p.
Proof.
  intros HQ. induction p as [a|r k IH|msg]; simpl; auto.
  intros [Hr Hk]. split; auto.
Qed.

Lemma satisfies_run {A} P (Q : A → Prop) (p : prog A) o h :
  satisfies P Q p →
  Forall P (requests p o h) ∧ (∀ a, (run p o h).1 = Returned a → Q a).
Proof.
  unfold requests. revert h. induction p as [a|r k IH|msg]; intros h Hp; simpl.
  - split; [constructor|]. by intros ? [= <-].
  - destruct Hp as [Hr Hk].
    specialize (IH (o h r) (h ++ [existT r (o h r)]) (Hk _)).
    destruct (run (k (o h r)) o (h ++ [existT r (o h r)])) as [out t].
    simpl in *. destruct IH as [IH1 IH2]. split; auto.
  - split; [constructor|]. discriminate.
Qed.

(** ** Delete path *)

(** C9.  Each of the three delete methods, called with an empty id list,
    returns success at once: the program issues no request (it is the
    plain return of [nil]), so no run of it has an event. *)
Theorem C9_delete_empty_is_noop (m : milvusRepository) (dimension : Z)
    (knowledgeType : string) (o : oracle) (h : list event) :
  DeleteByChunkIDList m [] dimension knowledgeType = Ret (Ok tt)
  ∧ DeleteByKnowledgeIDList m [] dimension knowledgeType = Ret (Ok tt)
  ∧ DeleteBySourceIDList m [] dimension knowledgeType = Ret (Ok tt)
  ∧ run (DeleteByChunkIDList m [] dimension knowledgeType) o h = (Returned (Ok tt), [])
  ∧ run (DeleteByKnowledgeIDList m [] dimension knowledgeType) o h = (Returned (Ok tt), [])
  ∧ run (DeleteBySourceIDList m [] dimension knowledgeType) o h = (Returned (Ok tt), []).
Proof. repeat split; reflexivity. Qed.

(** A non-empty list goes to the store as one filtered delete. *)
Lemma DeleteByChunkIDList_nonempty m id ids dimension knowledgeType
    (o : oracle) (h : list event) :
  requests (DeleteByChunkIDList m (id :: ids) dimension knowledgeType) o h
  = [Delete (getCollectionName m dimension) fieldChunkID (id :: ids)].
Proof.
  unfold requests, DeleteByChunkIDList, deleteByIDs. simpl length.
  change (Z.of_nat (S (length ids)) =? 0) with false. cbv iota.
  run_bind_call. simpl.
  by destruct (o h (Delete _ _ _)).
Qed.

(** ** Collection manager *)

(** C2 as stated fails: when the existence check answers "absent" and the
    creation call fails with an "already exists" conflict,
    [ensureCollection] does not treat the conflict as success: it returns
    the creation error and neither loads the collection nor marks the
    dimension as initialized. *)
Lemma C2_conflict_not_treated_as_success :
  run (ensureCollection exampleRepository 4) conflictStore []
  = (Returned (Fail (Wrap "failed to create collection: " conflictError)),
     [existT (CacheLoad 4) false;
      existT (HasCollection "weknora_embeddings_4") (Ok false);
      existT (CreateCollection "weknora_embeddings_4" 4) (Fail conflictError)])
  ∧ (run (ensureCollection exampleRepository 4) conflictStore []).1 ≠ Returned (Ok tt)
  ∧ ¬ In (LoadCollection "weknora_embeddings_4")
         (requests (ensureCollection exampleRepository 4) conflictStore []).
Proof.
  split; [vm_compute; reflexivity|]. split; [vm_compute; discriminate|].
  vm_compute. intros [H|[H|[H|[]]]]; discriminate.
Qed.

(** C2, amended.  When [ensureCollection] misses the cache, finds the
    collection absent and its creation call fails, with an "already exists"
    conflict or with any other error, it returns that error, wrapped as a
    creation failure, and issues no further request: the collection is not
    loaded and the dimension is not marked as initialized. *)
Theorem C2_creation_failure_is_surfaced (m : milvusRepository) (dimension : Z)
    (o : oracle) (h : list event) (err : error) :
  o h (CacheLoad dimension) = false →
  o (h ++ [existT (CacheLoad dimension) false])
    (HasCollection (getCollectionName m dimension)) = Ok false →
  o (h ++ [existT (CacheLoad dimension) false]
       ++ [existT (HasCollection (getCollectionName m dimension)) (Ok false)])
    (CreateCollection (getCollectionName m dimension) dimension) = Fail err →
  run (ensureCollection m dimension) o h
  = (Returned (Fail (Wrap "failed to create collection: " err)),
     [existT (CacheLoad dimension) false;
      existT (HasCollection (getCollectionName m dimension)) (Ok false);
      existT (CreateCollection (getCollectionName m dimension) dimension) (Fail err)]).
Proof.
  intros Hcache Hhas Hcreate. unfold ensureCollection.
  run_bind_call. rewrite Hcache. cbv iota beta zeta.
  run_bind_call. rewrite Hhas. cbv iota beta zeta.
  rewrite run_bind. simpl negb. cbv iota.
  run_bind_call. rewrite <- !app_assoc in *.
  simpl app in *. rewrite Hcreate. reflexivity.
Qed.

Lemma C2_creation_failure_is_surfaced_witness :
  run (ensureCollection exampleRepository 4) conflictStore []
  = (Returned (Fail (Wrap "failed to create collection: " conflictError)),
     [existT (CacheLoad 4) false;
      existT (HasCollection (getCollectionName exampleRepository 4)) (Ok false);
      existT (CreateCollection (getCollectionName exampleRepository 4) 4)
        (Fail conflictError)]).
Proof.
  apply (C2_creation_failure_is_surfaced exampleRepository 4 conflictStore []
           conflictError); reflexivity.
Defined.

(** When nothing fails, the absent collection is created, loaded, awaited
    and the dimension is marked as initialized. *)
Example ensureCollection_creates_and_loads :
  run (ensureCollection exampleRepository 4) emptyStore []
  = (Returned (Ok tt),
     [existT (CacheLoad 4) false;
      existT (HasCollection "weknora_embeddings_4") (Ok false);
      existT (CreateCollection "weknora_embeddings_4" 4) (Ok tt);
      existT (LoadCollection "weknora_embeddings_4") (Ok tt);
      existT (AwaitLoad "weknora_embeddings_4") (Ok tt);
      existT (CacheStore 4) tt]).
Proof. vm_compute. reflexivity. Qed.

(** ** Vector retrieval *)

(** C4.  When the store answers that the collection of the query
    embedding's dimension does not exist, [VectorRetrieve] returns a
    successful result that wraps an empty result list, and asks the store
    nothing else. *)
Theorem C4_vector_retrieve_missing_collection (m : milvusRepository)
    (rparams : RetrieveParams) (o : oracle) (h : list event) :
  let collectionName :=
    collectionBaseName m +:+ "_" +:+ fmtInt (Z.of_nat (length (rp_Embedding rparams))) in
  o h (HasCollection collectionName) = Ok false →
  run (VectorRetrieve m rparams) o h
  = (Returned (Ok [ {| Results := [];
                       rr_RetrieverEngineType := MilvusRetrieverEngineType;
                       rr_RetrieverType := VectorRetrieverType;
                       rr_Error := None |} ]),
     [existT (HasCollection collectionName) (Ok false)]).
Proof.
  intros collectionName Hhas. unfold VectorRetrieve.
  unfold getCollectionName. fold collectionName.
  run_bind_call. rewrite Hhas. reflexivity.
Qed.

Lemma C4_vector_retrieve_missing_collection_witness :
  run (VectorRetrieve exampleRepository exampleQuery) emptyStore []
  = (Returned (Ok [ {| Results := [];
                       rr_RetrieverEngineType := MilvusRetrieverEngineType;
                       rr_RetrieverType := VectorRetrieverType;
                       rr_Error := None |} ]),
     [existT (HasCollection "weknora_embeddings_3") (Ok false)]).
Proof.
  apply (C4_vector_retrieve_missing_collection exampleRepository exampleQuery emptyStore []).
  reflexivity.
Defined.

(** ** Storage estimator *)

(** C8 as stated fails: the tag identifier and the record identifier are
    string fields of the record, and the estimator does not count them. *)
Lemma C8_tag_and_id_not_counted :
  calculateStorageSize taggedRow = 262229
  ∧ storageSizeAsSpecified taggedRow = 262238
  ∧ calculateStorageSize taggedRow ≠ storageSizeAsSpecified taggedRow.
Proof. vm_compute. repeat split; discriminate. Qed.

(** Removes the wrap-arounds of a goal, innermost first, where [lia] shows
    that the wrapped value is in range. *)
Ltac unwrap64 :=
  repeat match goal with
         | |- context [wrap64 ?z] =>
             lazymatch z with
             | context [wrap64 _] => fail
             | _ => rewrite (wrap64_small z) by lia
             end
         end.

(** C8, amended.  For every record whose estimate fits a 64-bit integer,
    the estimator returns the byte lengths of the content, source id, chunk
    id, knowledge id and knowledge-base id, plus 8, plus 4 bytes per
    dimension, plus dimension times (nlist * 4 + 4) with nlist = 16384,
    plus 32; the tag id and the record id do not contribute.  The result
    is a function of the record alone. *)
Theorem C8_storage_estimate (r : MilvusVectorEmbedding) :
  countedStringBytes r + 8 + 4 * dimensionOf r
    + dimensionOf r * (nlist * 4 + 4) + metadataBytes < 2 ^ 63 →
  calculateStorageSize r
  = countedStringBytes r + 8 + 4 * dimensionOf r
    + dimensionOf r * (nlist * 4 + 4) + metadataBytes
  ∧ (∀ id tag, calculateStorageSize
                 {| ID := id; Content := Content r; SourceID := SourceID r;
                    SourceType := SourceType r; ChunkID := ChunkID r;
                    KnowledgeID := KnowledgeID r;
                    KnowledgeBaseID := KnowledgeBaseID r; TagID := tag;
                    Embedding := Embedding r; IsEnabled := IsEnabled r |}
               = calculateStorageSize r).
Proof.
  intros Hfit. split.
  2:{ intros id tag. unfold calculateStorageSize, dimensionOf.
      cbn [Content SourceID ChunkID KnowledgeID KnowledgeBaseID Embedding].
      reflexivity. }
  unfold calculateStorageSize, countedStringBytes, nlist, metadataBytes in *.
  cbv zeta.
  assert (0 ≤ len (Content r)) by (unfold len; lia).
  assert (0 ≤ len (SourceID r)) by (unfold len; lia).
  assert (0 ≤ len (ChunkID r)) by (unfold len; lia).
  assert (0 ≤ len (KnowledgeID r)) by (unfold len; lia).
  assert (0 ≤ len (KnowledgeBaseID r)) by (unfold len; lia).
  assert (0 ≤ dimensionOf r) by (unfold dimensionOf; lia).
  generalize dependent (len (Content r)). generalize dependent (len (SourceID r)).
  generalize dependent (len (ChunkID r)). generalize dependent (len (KnowledgeID r)).
  generalize dependent (len (KnowledgeBaseID r)). generalize dependent (dimensionOf r).
  intros d Hd e He k Hk c Hc s Hs n Hfit Hn.
  unwrap64. lia.
Qed.

Lemma C8_storage_estimate_witness :
  countedStringBytes taggedRow + 8 + 4 * dimensionOf taggedRow
    + dimensionOf taggedRow * (nlist * 4 + 4) + metadataBytes < 2 ^ 63
  ∧ calculateStorageSize taggedRow
    = countedStringBytes taggedRow + 8 + 4 * dimensionOf taggedRow
      + dimensionOf taggedRow * (nlist * 4 + 4) + metadataBytes.
Proof.
  assert (countedStringBytes taggedRow + 8 + 4 * dimensionOf taggedRow
          + dimensionOf taggedRow * (nlist * 4 + 4) + metadataBytes < 2 ^ 63) as Hfit
    by (vm_compute; reflexivity).
  split; [exact Hfit|].
  exact (proj1 (C8_storage_estimate taggedRow Hfit)).
Defined.

(** ** Write path *)

Lemma length_uuidAnswers o h n : length (uuidAnswers o h n) = n.
Proof. revert h. induction n as [|n IH]; intros h; simpl; auto. Qed.

Lemma run_assignIDs embeddings additionalParams (o : oracle) (h : list event) :
  let ids := uuidAnswers o h (length embeddings) in
  run (assignIDs embeddings additionalParams) o h
  = (Returned (convertedRows embeddings additionalParams ids), uuidEvents ids).
Proof.
  revert h. induction embeddings as [|e es IH]; intros h; [reflexivity|].
  cbn [assignIDs]. run_bind_call. cbv zeta. rewrite run_bind, IH.
  cbn [run]. rewrite app_nil_r. reflexivity.
Qed.

Lemma toMilvusVectorEmbedding_enabled embedding additionalParams :
  IsEnabled (toMilvusVectorEmbedding embedding additionalParams) = true.
Proof.
  unfold toMilvusVectorEmbedding.
  destruct (additionalParams !! fieldEmbedding) as [[?|?]|]; reflexivity.
Qed.

Lemma run_saveGroup m additionalParams group (o : oracle) (h : list event) :
  run (saveGroup m additionalParams group) o h
  = groupOutcome m additionalParams group o h.
Proof.
  destruct group as [dimension embeddings]. unfold saveGroup, groupOutcome.
  cbn [fst snd]. rewrite run_bind.
  destruct (run (ensureCollection m dimension) o h) as [[[[]|err]|msg] t];
    [|cbn [run]; by rewrite app_nil_r|reflexivity].
  rewrite run_bind, run_assignIDs. cbv zeta. run_bind_call.
  rewrite <- !app_assoc.
  destruct (o _ (Upsert _)) as [[]|err]; cbn [run]; by rewrite ?app_nil_r.
Qed.

Lemma run_saveGroups_cons m additionalParams group rest (o : oracle) (h : list event) :
  run (saveGroups m additionalParams (group :: rest)) o h
  = match run (saveGroup m additionalParams group) o h with
    | (Returned (Ok _), t) =>
        let '(out, t') := run (saveGroups m additionalParams rest) o (h ++ t) in
        (out, t ++ t')
    | (Returned (Fail err), t) => (Returned (Fail err), t)
    | (Panicked msg, t) => (Panicked msg, t)
    end.
Proof.
  cbn [saveGroups]. rewrite run_bind.
  destruct (run (saveGroup m additionalParams group) o h) as [[[[]|err]|msg] t];
    [reflexivity|cbn [run]; by rewrite app_nil_r|reflexivity].
Qed.

Lemma saveGroups_success_iff m additionalParams o h groups :
  (run (saveGroups m additionalParams groups) o h).1 = Returned (Ok tt)
  ↔ allGroupsSucceed m additionalParams o h groups.
Proof.
  revert h. induction groups as [|g gs IH]; intros h.
  - simpl. tauto.
  - rewrite run_saveGroups_cons. cbn [allGroupsSucceed].
    destruct (run (saveGroup m additionalParams g) o h) as [[[[]|err]|msg] t].
    + specialize (IH (h ++ t)).
      destruct (run (saveGroups m additionalParams gs) o (h ++ t)) as [out t'].
      simpl in *. split.
      * intros Hout. exists t. split; [reflexivity | by apply IH].
      * intros (t0 & [= <-] & Hrest). by apply IH.
    + simpl. split; [discriminate|]. intros (t0 & [=] & _).
    + simpl. split; [discriminate|]. intros (t0 & [=] & _).
Qed.

(** Fail-fast: when a group fails after the groups before it succeeded,
    the failure is the outcome and the events end with that group's
    events, whatever groups follow. *)
Lemma saveGroups_fail_fast m additionalParams o pre group post :
  ∀ h t1 err t2,
    run (saveGroups m additionalParams pre) o h = (Returned (Ok tt), t1) →
    run (saveGroup m additionalParams group) o (h ++ t1) = (Returned (Fail err), t2) →
    run (saveGroups m additionalParams (pre ++ group :: post)) o h
    = (Returned (Fail err), t1 ++ t2).
Proof.
  induction pre as [|g gs IH]; intros h t1 err t2 Hpre Hg.
  - injection Hpre as <-. rewrite app_nil_r in Hg.
    simpl app. rewrite run_saveGroups_cons, Hg. reflexivity.
  - rewrite run_saveGroups_cons in Hpre. simpl app. rewrite run_saveGroups_cons.
    destruct (run (saveGroup m additionalParams g) o h) as [[[[]|e]|msg] t];
      try discriminate.
    destruct (run (saveGroups m additionalParams gs) o (h ++ t)) as [out t'] eqn:Hgs.
    injection Hpre as -> <-.
    rewrite app_assoc in Hg.
    rewrite (IH _ _ _ _ Hgs Hg). by rewrite app_assoc.
Qed.

Lemma nonEmpty_snoc {A} (l : list A) x : nonEmpty (l ++ [x]) = Some (l ++ [x]).
Proof. by destruct l. Qed.

Lemma default_nonEmpty {A} (l : list A) : default [] (nonEmpty l) = l.
Proof. by destruct l. Qed.

Lemma groupByDimension_snoc l e additionalParams :
  groupByDimension (l ++ [e]) additionalParams
  = let groups := groupByDimension l additionalParams in
    if recordDimension additionalParams e =? 0 then groups
    else <[ recordDimension additionalParams e :=
              default [] (groups !! recordDimension additionalParams e) ++ [e] ]> groups.
Proof. unfold groupByDimension. by rewrite fold_left_app. Qed.

(** Every group holds, in input order, the records of its dimension that
    have a non-empty embedding; there is no other group. *)
Lemma groupByDimension_lookup l additionalParams d :
  groupByDimension l additionalParams !! d
  = nonEmpty (List.filter (inGroup additionalParams d) l).
Proof.
  induction l as [|e l IH] using rev_ind; [reflexivity|].
  rewrite groupByDimension_snoc, List.filter_app. cbv zeta. cbn [List.filter].
  unfold inGroup at 2.
  destruct (recordDimension additionalParams e =? 0) eqn:Hzero; cbn [negb andb].
  { by rewrite app_nil_r. }
  destruct (recordDimension additionalParams e =? d) eqn:Hd.
  - apply Z.eqb_eq in Hd. subst d.
    rewrite lookup_insert_eq, IH, default_nonEmpty. by rewrite nonEmpty_snoc.
  - apply Z.eqb_neq in Hd. rewrite lookup_insert_ne by done.
    by rewrite app_nil_r.
Qed.

Lemma convertedRows_ids embeddings additionalParams ids :
  length ids = length embeddings →
  map ID (convertedRows embeddings additionalParams ids) = ids.
Proof.
  unfold convertedRows. revert ids.
  induction embeddings as [|e es IH]; intros [|id ids] Hlen; simpl in *;
    try discriminate; [reflexivity|].
  f_equal. apply IH. lia.
Qed.

Lemma BatchSave_run rangeOrder m embeddingList additionalParams (o : oracle) h :
  (∀ groups, Permutation (rangeOrder groups) groups) →
  run (BatchSave rangeOrder m embeddingList additionalParams) o h
  = run (saveGroups m additionalParams
           (rangeOrder (map_to_list (groupByDimension embeddingList additionalParams))))
        o h.
Proof.
  intros Hperm. unfold BatchSave. destruct embeddingList as [|e l].
  { change (groupByDimension [] additionalParams) with (∅ : gmap Z (list IndexInfo)).
    rewrite map_to_list_empty.
    by rewrite (proj1 (Permutation_nil_r _) (Hperm [])). }
  destruct (Z.of_nat (size (groupByDimension (e :: l) additionalParams)) =? 0) eqn:Hsize;
    [|reflexivity].
  apply Z.eqb_eq in Hsize.
  assert (groupByDimension (e :: l) additionalParams = ∅) as ->.
  { apply map_size_empty_iff. lia. }
  rewrite map_to_list_empty.
  by rewrite (proj1 (Permutation_nil_r _) (Hperm [])).
Qed.

(** C6.  [BatchSave] partitions the records by embedding dimension and
    leaves the records with an empty embedding out; the groups are
    processed one after the other, each one by ensuring its collection,
    asking one new identifier per row and sending one upsert with all the
    rows of the group; the call succeeds iff every group succeeds, and
    when a group fails the call returns that failure and nothing of the
    groups after it is processed. *)
Theorem C6_batch_save
    (rangeOrder : list (Z * list IndexInfo) → list (Z * list IndexInfo))
    (m : milvusRepository) (embeddingList : list IndexInfo)
    (additionalParams : gmap string paramValue) (o : oracle) (h : list event) :
  (∀ groups, Permutation (rangeOrder groups) groups) →
  let embeddingsByDimension := groupByDimension embeddingList additionalParams in
  let groups := rangeOrder (map_to_list embeddingsByDimension) in
  (∀ d, embeddingsByDimension !! d
        = nonEmpty (List.filter (inGroup additionalParams d) embeddingList))
  ∧ Permutation groups (map_to_list embeddingsByDimension)
  ∧ run (BatchSave rangeOrder m embeddingList additionalParams) o h
    = run (saveGroups m additionalParams groups) o h
  ∧ (∀ group h',
       run (saveGroup m additionalParams group) o h'
       = groupOutcome m additionalParams group o h'
       ∧ ∀ h'', map ID (convertedRows group.2 additionalParams
                          (uuidAnswers o h'' (length group.2)))
                = uuidAnswers o h'' (length group.2))
  ∧ ((run (BatchSave rangeOrder m embeddingList additionalParams) o h).1
       = Returned (Ok tt)
     ↔ allGroupsSucceed m additionalParams o h groups)
  ∧ (∀ pre group post t1 err t2,
       groups = pre ++ group :: post →
       run (saveGroups m additionalParams pre) o h = (Returned (Ok tt), t1) →
       run (saveGroup m additionalParams group) o (h ++ t1) = (Returned (Fail err), t2) →
       run (BatchSave rangeOrder m embeddingList additionalParams) o h
       = (Returned (Fail err), t1 ++ t2)).
Proof.
  intros Hperm G groups. split; [|split; [|split; [|split; [|split]]]].
  - intros d. apply groupByDimension_lookup.
  - apply Hperm.
  - by apply BatchSave_run.
  - intros group h'. split; [apply run_saveGroup|].
    intros h''. apply convertedRows_ids, length_uuidAnswers.
  - rewrite BatchSave_run by done. apply saveGroups_success_iff.
  - intros pre group post t1 err t2 Hgroups Hpre Hgroup.
    rewrite BatchSave_run by done. fold G. fold groups. rewrite Hgroups.
    by apply saveGroups_fail_fast.
Qed.

Lemma C6_batch_save_witness :
  (∀ groups : list (Z * list IndexInfo), Permutation (id groups) groups)
  ∧ groupByDimension exampleBatch exampleParams !! 2
    = nonEmpty (List.filter (inGroup exampleParams 2) exampleBatch)
  ∧ run (BatchSave id exampleRepository exampleBatch exampleParams) emptyStore []
    = run (saveGroups exampleRepository exampleParams
             (id (map_to_list (groupByDimension exampleBatch exampleParams))))
          emptyStore [].
Proof.
  assert (∀ groups : list (Z * list IndexInfo), Permutation (id groups) groups) as Hperm
    by (intros groups; reflexivity).
  pose proof (C6_batch_save id exampleRepository exampleBatch exampleParams
                emptyStore [] Hperm) as H.
  cbv zeta in H. destruct H as (Hpart & _ & Hrun & _).
  split; [exact Hperm|]. split; [apply Hpart | exact Hrun].
Defined.

(** The run of the example batch: the record without embedding is left
    out, the two groups are saved with one upsert each. *)
Example exampleBatch_requests :
  requests (BatchSave id exampleRepository exampleBatch exampleParams) emptyStore []
  = [CacheLoad 3; HasCollection "weknora_embeddings_3";
     CreateCollection "weknora_embeddings_3" 3; LoadCollection "weknora_embeddings_3";
     AwaitLoad "weknora_embeddings_3"; CacheStore 3; NewUUID;
     Upsert (createUpsert "weknora_embeddings_3"
               [withID (toMilvusVectorEmbedding (exampleRecord "s2" "c2") exampleParams)
                  "00000000-0000-4000-8000-000000000000"]);
     CacheLoad 2; HasCollection "weknora_embeddings_2";
     CreateCollection "weknora_embeddings_2" 2; LoadCollection "weknora_embeddings_2";
     AwaitLoad "weknora_embeddings_2"; CacheStore 2; NewUUID;
     Upsert (createUpsert "weknora_embeddings_2"
               [withID (toMilvusVectorEmbedding (exampleRecord "s1" "c1") exampleParams)
                  "00000000-0000-4000-8000-000000000000"])].
Proof. vm_compute. reflexivity. Qed.

Lemma ensureCollection_enabledUpsert m dimension :
  satisfies enabledUpsert (λ _, True) (ensureCollection m dimension).
Proof.
  unfold ensureCollection, mbind, prog_bind. simpl.
  split; [exact I|]. intros [|]; simpl; [exact I|].
  split; [exact I|]. intros [[|]|err]; simpl; try exact I.
  - split; [exact I|]. intros [[]|err]; simpl; [|exact I].
    split; [exact I|]. intros [[]|err]; simpl; [|exact I].
    split; [exact I|]. intros []. exact I.
  - split; [exact I|]. intros [[]|err]; simpl; [|exact I].
    split; [exact I|]. intros [[]|err]; simpl; [|exact I].
    split; [exact I|]. intros [[]|err]; simpl; [|exact I].
    split; [exact I|]. intros []. exact I.
Qed.

Lemma assignIDs_enabled embeddings additionalParams :
  satisfies enabledUpsert enabledRows (assignIDs embeddings additionalParams).
Proof.
  induction embeddings as [|e es IH]; [constructor|].
  cbn [assignIDs]. eapply satisfies_bind; [by apply satisfies_call|].
  intros id _. eapply satisfies_bind; [exact IH|].
  intros rows Hrows. constructor; [|exact Hrows].
  apply toMilvusVectorEmbedding_enabled.
Qed.

Lemma saveGroup_enabledUpsert m additionalParams group :
  satisfies enabledUpsert (λ _, True) (saveGroup m additionalParams group).
Proof.
  destruct group as [dimension embeddings]. unfold saveGroup.
  eapply satisfies_bind; [apply ensureCollection_enabledUpsert|].
  intros [[]|err] _; [|exact I].
  eapply satisfies_bind; [apply assignIDs_enabled|].
  intros rows Hrows. eapply satisfies_bind; [apply satisfies_call; exact Hrows|].
  by intros [[]|err] _.
Qed.

Lemma saveGroups_enabledUpsert m additionalParams groups :
  satisfies enabledUpsert (λ _, True) (saveGroups m additionalParams groups).
Proof.
  induction groups as [|g gs IH]; [exact I|].
  cbn [saveGroups]. eapply satisfies_bind; [apply saveGroup_enabledUpsert|].
  by intros [[]|err] _.
Qed.

Lemma Save_enabledUpsert m embedding additionalParams :
  satisfies enabledUpsert (λ _, True) (Save m embedding additionalParams).
Proof.
  unfold Save. destruct (_ =? 0); [exact I|].
  eapply satisfies_bind; [apply ensureCollection_enabledUpsert|].
  intros [[]|err] _; [|exact I].
  eapply satisfies_bind; [by apply satisfies_call|].
  intros id _. eapply satisfies_bind.
  - apply satisfies_call. simpl. constructor; [|constructor].
    apply toMilvusVectorEmbedding_enabled.
  - by intros [[]|err] _.
Qed.

Lemma BatchSave_enabledUpsert rangeOrder m embeddingList additionalParams :
  satisfies enabledUpsert (λ _, True)
    (BatchSave rangeOrder m embeddingList additionalParams).
Proof.
  unfold BatchSave. destruct embeddingList; [exact I|].
  destruct (_ =? 0); [exact I|]. apply saveGroups_enabledUpsert.
Qed.

Lemma keepsEnabled_bind {A B} (Q : A → Prop) (R : B → Prop) (p : prog A) (f : A → prog B) :
  keepsEnabled Q p → (∀ a, Q a → keepsEnabled R (f a)) → keepsEnabled R (p ≫= f).
Proof.
  unfold mbind, prog_bind. intros Hp Hf.
  induction p as [a|r k IH|msg]; simpl in *; auto.
  destruct Hp as [Hr Hk]. split; auto.
Qed.

Lemma satisfies_keepsEnabled {A} (Q : A → Prop) (p : prog A) :
  satisfies enabledUpsert Q p → keepsEnabled Q p.
Proof.
  induction p as [a|r k IH|msg]; simpl; auto.
  intros [Hr Hk]. split; auto.
Qed.

Lemma keepsEnabled_run {A} (Q : A → Prop) (p : prog A) (o : oracle) h :
  (∀ h' r, enabledAnswer r (o h' r)) →
  keepsEnabled Q p → Forall enabledUpsert (requests p o h).
Proof.
  intros Ho. unfold requests. revert h.
  induction p as [a|r k IH|msg]; intros h Hp; simpl; [constructor| |constructor].
  destruct Hp as [Hr Hk].
  specialize (IH (o h r) (h ++ [existT r (o h r)]) (Hk _ (Ho h r))).
  destruct (run (k (o h r)) o (h ++ [existT r (o h r)])) as [out t].
  simpl in *. constructor; auto.
Qed.

Lemma searchByFilter_keepsEnabled m collectionName filter limit offset :
  keepsEnabled enabledFound (searchByFilter m collectionName filter limit offset).
Proof.
  unfold searchByFilter. destruct (Convert filter) as [r|err]; [|exact I].
  eapply keepsEnabled_bind with (Q := λ x, match x with Ok set => enabledSet set | Fail _ => True end).
  - simpl. split; [exact I|]. intros x Hx. exact Hx.
  - intros [set|err] Hset; [|exact I]. unfold convertResultSet.
    unfold enabledSet in Hset. destruct (Columns set) as [rows|err]; [|exact I].
    simpl. rewrite map_map. simpl. by rewrite map_id.
Qed.

Lemma targetSourceIDOf_satisfies original sourceChunk targetChunk :
  satisfies enabledUpsert (λ _, True) (targetSourceIDOf original sourceChunk targetChunk).
Proof.
  unfold targetSourceIDOf. destruct (String.eqb _ _); [exact I|].
  destruct (hasPrefix _ _); [exact I|]. by apply satisfies_call.
Qed.

Lemma copyRows_enabled kbMap chunkMap targetKB sourceEmbeddings :
  enabledRows (map embedded sourceEmbeddings) →
  satisfies enabledUpsert enabledRows (copyRows kbMap chunkMap targetKB sourceEmbeddings).
Proof.
  induction sourceEmbeddings as [|src rest IH]; intros Hsrc; [constructor|].
  apply Forall_cons in Hsrc as [Hhead Hrest]. specialize (IH Hrest).
  cbn [copyRows]. cbv zeta.
  destruct (chunkMap !! _) as [targetChunk|]; [|exact IH].
  destruct (kbMap !! _) as [targetKnowledge|]; [|exact IH].
  eapply satisfies_bind; [apply targetSourceIDOf_satisfies|].
  intros targetSource _. eapply satisfies_bind; [by apply satisfies_call|].
  intros id _. eapply satisfies_bind; [exact IH|].
  intros rows Hrows. constructor; [exact Hhead | exact Hrows].
Qed.

Lemma copyPage_keepsEnabled m collectionName sourceKB kbMap chunkMap targetKB offset :
  keepsEnabled (λ _, True)
    (copyPage m collectionName sourceKB kbMap chunkMap targetKB offset).
Proof.
  unfold copyPage. eapply keepsEnabled_bind; [apply searchByFilter_keepsEnabled|].
  intros [[sourceEmbeddings count]|err] Hfound; [|exact I].
  destruct (_ =? 0); [exact I|].
  eapply keepsEnabled_bind.
  { apply satisfies_keepsEnabled, copyRows_enabled, Hfound. }
  intros rows Hrows. eapply keepsEnabled_bind with (Q := λ _, True).
  { destruct (0 <? _); [|exact I]. simpl. split; [exact Hrows|]. auto. }
  intros [[]|err] _; [|exact I].
  by destruct (count <? batchSize).
Qed.

Lemma copyLoop_keepsEnabled fuel m collectionName sourceKB kbMap chunkMap targetKB offset :
  keepsEnabled (λ _, True)
    (copyLoop fuel m collectionName sourceKB kbMap chunkMap targetKB offset).
Proof.
  revert offset. induction fuel as [|fuel IH]; intros offset; [exact I|].
  cbn [copyLoop]. eapply keepsEnabled_bind; [apply copyPage_keepsEnabled|].
  intros [res|offset'] _; [exact I | apply IH].
Qed.

Lemma CopyIndices_keepsEnabled fuel m sourceKB kbMap chunkMap targetKB dimension knowledgeType :
  keepsEnabled (λ _, True)
    (CopyIndices fuel m sourceKB kbMap chunkMap targetKB dimension knowledgeType).
Proof.
  unfold CopyIndices. destruct (_ =? 0); [exact I|].
  eapply keepsEnabled_bind.
  { apply satisfies_keepsEnabled, ensureCollection_enabledUpsert. }
  intros [[]|err] _; [|exact I]. apply copyLoop_keepsEnabled.
Qed.

Lemma updateTagGroup_keepsEnabled m collectionName group :
  keepsEnabled (λ _, True) (updateTagGroup m collectionName group).
Proof.
  destruct group as [tagID chunkIDs]. unfold updateTagGroup.
  eapply keepsEnabled_bind; [apply searchByFilter_keepsEnabled|].
  intros [[embeddings count]|err] Hfound; [|exact I].
  destruct (0 <? _); [|exact I].
  eapply keepsEnabled_bind with (Q := λ _, True); [|by intros].
  simpl. split; [|auto].
  unfold enabledFound, enabledRows in *. rewrite List.Forall_map in Hfound |- *.
  eapply Forall_impl; [exact Hfound|]. by intros e He.
Qed.

Lemma updateTagLoop_keepsEnabled rangeGroups m collections tagGroups :
  keepsEnabled (λ _, True) (updateTagLoop rangeGroups m collections tagGroups).
Proof.
  induction collections as [|c rest IH]; [exact I|].
  cbn [updateTagLoop]. destruct (negb _); [exact IH|].
  eapply keepsEnabled_bind with (Q := λ _, True); [|by intros].
  induction (rangeGroups c (map_to_list tagGroups)) as [|g gs IHg]; [exact I|].
  cbn [updateTagGroups].
  eapply keepsEnabled_bind; [apply updateTagGroup_keepsEnabled | by intros].
Qed.

Lemma BatchUpdateChunkTagID_keepsEnabled rangeOrder rangeGroups m chunkTagMap :
  keepsEnabled (λ _, True) (BatchUpdateChunkTagID rangeOrder rangeGroups m chunkTagMap).
Proof.
  unfold BatchUpdateChunkTagID. destruct (_ =? 0); [exact I|].
  eapply keepsEnabled_bind with (Q := λ _, True).
  { simpl. split; auto. }
  intros [collections|err] _; [|exact I].
  eapply keepsEnabled_bind; [apply updateTagLoop_keepsEnabled | by intros].
Qed.

Lemma deleteByIDs_enabledUpsert m field failure ids dimension :
  satisfies enabledUpsert (λ _, True) (deleteByIDs m field failure ids dimension).
Proof.
  unfold deleteByIDs. eapply satisfies_bind; [by apply satisfies_call|].
  by intros [[]|err] _.
Qed.

(** The enabled-status updater does write disabled rows. *)
Example status_updater_disables :
  requests (BatchUpdateChunkEnabledStatus id exampleRepository
              (<["c1" := true]> {["c2" := false]})) oneRowStore []
  = [ListCollections;
     Query {| qo_collection := "weknora_embeddings_2";
              qo_filter := "chunk_id in {chunk_id_1}";
              qo_templateParams := {["chunk_id_1" := VSlice [VStr "c1"]]};
              qo_outputFields := ["*"]; qo_limit := None; qo_offset := None |};
     Query {| qo_collection := "weknora_embeddings_2";
              qo_filter := "chunk_id in {chunk_id_1}";
              qo_templateParams := {["chunk_id_1" := VSlice [VStr "c2"]]};
              qo_outputFields := ["*"]; qo_limit := None; qo_offset := None |};
     Upsert (createUpsert "weknora_embeddings_2" [withEnabled storedRow false])].
Proof. vm_compute. reflexivity. Qed.

(** C10.  The conversion of an [IndexInfo] sets the enabled flag whatever
    the input, so every row that [Save] or [BatchSave] sends to the store is
    enabled, in every environment.  The other writers do not disable
    anything either: in a store that holds (and so answers with) enabled
    rows only, [CopyIndices] and [BatchUpdateChunkTagID] write enabled rows
    only, and the delete methods write no row at all; what is left is the
    enabled-status updater. *)
Theorem C10_write_path_always_enabled
    (rangeOrder : list (Z * list IndexInfo) → list (Z * list IndexInfo))
    (m : milvusRepository) (embedding : IndexInfo) (embeddingList : list IndexInfo)
    (additionalParams : gmap string paramValue) (o : oracle) (h : list event) :
  IsEnabled (toMilvusVectorEmbedding embedding additionalParams) = true
  ∧ Forall enabledUpsert (requests (Save m embedding additionalParams) o h)
  ∧ Forall enabledUpsert
      (requests (BatchSave rangeOrder m embeddingList additionalParams) o h)
  ∧ (∀ ids dimension knowledgeType,
       Forall enabledUpsert (requests (DeleteByChunkIDList m ids dimension knowledgeType) o h)
       ∧ Forall enabledUpsert (requests (DeleteByKnowledgeIDList m ids dimension knowledgeType) o h)
       ∧ Forall enabledUpsert (requests (DeleteBySourceIDList m ids dimension knowledgeType) o h))
  ∧ ((∀ h' r, enabledAnswer r (o h' r)) →
     (∀ fuel sourceKB kbMap chunkMap targetKB dimension knowledgeType,
        Forall enabledUpsert
          (requests (CopyIndices fuel m sourceKB kbMap chunkMap targetKB
                       dimension knowledgeType) o h))
     ∧ (∀ rangeTags rangeGroups chunkTagMap,
          Forall enabledUpsert
            (requests (BatchUpdateChunkTagID rangeTags rangeGroups m chunkTagMap) o h))).
Proof.
  split; [apply toMilvusVectorEmbedding_enabled|].
  split; [apply (satisfies_run _ (λ _, True)), Save_enabledUpsert|].
  split; [apply (satisfies_run _ (λ _, True)), BatchSave_enabledUpsert|].
  split.
  - intros ids dimension knowledgeType.
    unfold DeleteByChunkIDList, DeleteByKnowledgeIDList, DeleteBySourceIDList.
    destruct (_ =? 0); repeat split; try constructor;
      apply (satisfies_run _ (λ _, True)), deleteByIDs_enabledUpsert.
  - intros Ho. split.
    + intros. eapply keepsEnabled_run; [exact Ho | apply CopyIndices_keepsEnabled].
    + intros. eapply keepsEnabled_run; [exact Ho|].
      apply BatchUpdateChunkTagID_keepsEnabled.
Qed.

Lemma emptyStore_enabledAnswer (h : list event) (r : request) :
  enabledAnswer r (emptyStore h r).
Proof. destruct r; simpl; try exact I; constructor. Qed.

Lemma C10_write_path_always_enabled_witness :
  Forall enabledUpsert
    (requests (BatchSave id exampleRepository exampleBatch exampleParams) emptyStore [])
  ∧ Forall enabledUpsert
      (requests (CopyIndices 2 exampleRepository "b1" {["k1" := "k2"]} {["c1" := "d1"]}
                   "b2" 2 EmptyString) emptyStore []).
Proof.
  pose proof (C10_write_path_always_enabled id exampleRepository
                (exampleRecord "s1" "c1") exampleBatch exampleParams emptyStore [])
    as (_ & _ & Hbatch & _ & Hothers).
  split; [exact Hbatch|].
  apply (proj1 (Hothers emptyStore_enabledAnswer)).
Defined.

(** ** Keyword retrieval *)

(** The base filter of a query always compiles: its conditions are
    membership conditions on fixed fields with non-empty lists. *)
Lemma getBaseFilterForQuery_isOk rparams : isOk (getBaseFilterForQuery rparams) = true.
Proof.
  destruct rparams as [ty q emb topK thr kbs ks tags xks xcs].
  unfold getBaseFilterForQuery. cbn [rp_KnowledgeBaseIDs rp_KnowledgeIDs rp_TagIDs
    rp_ExcludeKnowledgeIDs rp_ExcludeChunkIDs].
  destruct kbs as [|kb kbs], ks as [|k ks], tags as [|tag tags],
    xks as [|xk xks], xcs as [|xc xcs]; vm_compute; reflexivity.
Qed.

Lemma getBaseFilterForQuery_ok rparams :
  ∃ expr paramsMap, getBaseFilterForQuery rparams = Ok (expr, paramsMap).
Proof.
  pose proof (getBaseFilterForQuery_isOk rparams) as H.
  destruct (getBaseFilterForQuery rparams) as [[expr paramsMap]|err]; [eauto|discriminate].
Qed.

Lemma run_keywordsLoop m rparams expr paramsMap (o : oracle) :
  getBaseFilterForQuery rparams = Ok (expr, paramsMap) →
  ∀ collections allResults h,
    (run (keywordsLoop m rparams collections allResults) o h).1
    = Returned (allResults
                ++ flat_map eventMatches
                     (run (keywordsLoop m rparams collections allResults) o h).2)
    ∧ requests (keywordsLoop m rparams collections allResults) o h
      = map (λ c, Search (keywordsSearchOption m rparams c expr paramsMap))
            (List.filter (matchesBaseName m) collections).
Proof.
  intros Hfilter. unfold requests.
  induction collections as [|c rest IH]; intros allResults h.
  - simpl. by rewrite app_nil_r.
  - cbn [keywordsLoop List.filter].
    destruct (matchesBaseName m c); cbn [negb]; [|apply IH].
    rewrite Hfilter. run_bind_call.
    set (search := Search (keywordsSearchOption m rparams c expr paramsMap)).
    set (answer := o h search).
    assert (∀ results,
              results = allResults ++ searchMatches answer →
              (let '(out, t') := run (keywordsLoop m rparams rest results) o
                                   (h ++ [existT search answer]) in
               (out, [existT search answer] ++ t')).1
              = Returned (allResults
                          ++ flat_map eventMatches
                               (let '(out, t') :=
                                  run (keywordsLoop m rparams rest results) o
                                    (h ++ [existT search answer]) in
                                (out, [existT search answer] ++ t')).2)
              ∧ map requestOf
                  (let '(out, t') := run (keywordsLoop m rparams rest results) o
                                       (h ++ [existT search answer]) in
                   (out, [existT search answer] ++ t')).2
                = search :: map (λ c, Search (keywordsSearchOption m rparams c expr paramsMap))
                              (List.filter (matchesBaseName m) rest)) as Hstep.
    { intros results ->.
      destruct (IH (allResults ++ searchMatches answer) (h ++ [existT search answer]))
        as [Hout Hreq].
      destruct (run (keywordsLoop m rparams rest (allResults ++ searchMatches answer)) o
                  (h ++ [existT search answer])) as [out t'].
      simpl in *. split; [|by rewrite Hreq].
      rewrite Hout. by rewrite <- app_assoc. }
    unfold searchMatches in Hstep.
    destruct answer as [resultSet|err].
    + destruct (convertResultSet resultSet) as [[sets scores]|err].
      * by apply Hstep.
      * apply Hstep. by rewrite app_nil_r.
    + apply Hstep. by rewrite app_nil_r.
Qed.

Lemma keywordMatch_constant set :
  iws_Score (keywordMatch set) = float64_one
  ∧ iws_MatchType (keywordMatch set) = MatchTypeKeywords.
Proof. split; reflexivity. Qed.

Lemma eventMatches_constant t :
  Forall (λ r, iws_Score r = float64_one ∧ iws_MatchType r = MatchTypeKeywords)
         (flat_map eventMatches t).
Proof.
  apply List.Forall_forall. intros r Hr. apply in_flat_map in Hr as (e & _ & Hr).
  destruct e as [[] x]; simpl in Hr; try (by destruct Hr).
  unfold searchMatches in Hr. destruct x as [resultSet|err]; [|by destruct Hr].
  destruct (convertResultSet resultSet) as [[sets scores]|err]; [|by destruct Hr].
  apply in_map_iff in Hr as (set & <- & _). apply keywordMatch_constant.
Qed.

(** C5 as stated fails: the collection named exactly as the base name
    starts with the base name, and it is not searched. *)
Lemma C5_base_named_collection_skipped :
  hasPrefix "weknora_embeddings" (collectionBaseName exampleRepository) = true
  ∧ requests (KeywordsRetrieve exampleRepository exampleKeywordQuery) baseNamedStore []
    = [ListCollections].
Proof. split; vm_compute; reflexivity. Qed.

(** C5, amended.  [KeywordsRetrieve] sends one search to every listed
    collection whose name is longer than the base name and starts with it,
    in the order of the listing, and to no other collection; every search
    carries the same base filter, the query text and the top-K limit; every
    match gets the score 1.0 and the keyword tag; the matches of the
    searches are concatenated in that order (a search that fails or whose
    rows do not decode gives none) and, for a non-negative top-K, the
    result is the first top-K entries of the concatenation. *)
Theorem C5_keywords_retrieve (m : milvusRepository) (rparams : RetrieveParams)
    (o : oracle) (h : list event) (collections : list string) :
  o h ListCollections = Ok collections →
  0 ≤ rp_TopK rparams →
  ∃ expr paramsMap,
    getBaseFilterForQuery rparams = Ok (expr, paramsMap)
    ∧ requests (KeywordsRetrieve m rparams) o h
      = ListCollections
        :: map (λ c, Search (keywordsSearchOption m rparams c expr paramsMap))
             (List.filter (matchesBaseName m) collections)
    ∧ (run (KeywordsRetrieve m rparams) o h).1
      = Returned (Ok [ {| Results :=
                            take (Z.to_nat (rp_TopK rparams))
                              (flat_map eventMatches (run (KeywordsRetrieve m rparams) o h).2);
                          rr_RetrieverEngineType := MilvusRetrieverEngineType;
                          rr_RetrieverType := KeywordsRetrieverType;
                          rr_Error := None |} ])
    ∧ Forall (λ r, iws_Score r = float64_one ∧ iws_MatchType r = MatchTypeKeywords)
             (flat_map eventMatches (run (KeywordsRetrieve m rparams) o h).2).
Proof.
  intros Hlist HtopK.
  destruct (getBaseFilterForQuery_ok rparams) as (expr & paramsMap & Hfilter).
  exists expr, paramsMap. split; [exact Hfilter|].
  unfold requests, KeywordsRetrieve. run_bind_call. rewrite Hlist.
  cbv beta iota zeta. rewrite run_bind.
  destruct (run_keywordsLoop m rparams expr paramsMap o Hfilter collections []
              (h ++ [existT ListCollections (Ok collections)])) as [Hout Hreq].
  unfold requests in Hreq.
  destruct (run (keywordsLoop m rparams collections []) o
              (h ++ [existT ListCollections (Ok collections)])) as [out t].
  cbn [fst snd] in Hout, Hreq. subst out. cbn [app] in *.
  set (allResults := flat_map eventMatches t) in *.
  assert (flat_map eventMatches (existT ListCollections (Ok collections) :: t)
          = allResults) as Hall by reflexivity.
  destruct (rp_TopK rparams <? Z.of_nat (length allResults)) eqn:Hlt.
  - destruct (rp_TopK rparams <? 0) eqn:Hneg; [apply Z.ltb_lt in Hneg; lia|].
    cbn [run fst snd]. rewrite !app_nil_r, Hall.
    repeat split; [cbn [map]; by rewrite Hreq | apply eventMatches_constant].
  - cbn [run fst snd]. rewrite !app_nil_r, Hall.
    apply Z.ltb_ge in Hlt. rewrite take_ge by lia.
    repeat split; [cbn [map]; by rewrite Hreq | apply eventMatches_constant].
Qed.

Lemma C5_keywords_retrieve_witness :
  ∃ expr paramsMap,
    getBaseFilterForQuery exampleKeywordQuery = Ok (expr, paramsMap)
    ∧ requests (KeywordsRetrieve exampleRepository exampleKeywordQuery) keywordStore []
      = ListCollections
        :: map (λ c, Search (keywordsSearchOption exampleRepository exampleKeywordQuery
                               c expr paramsMap))
             (List.filter (matchesBaseName exampleRepository)
                ["weknora_embeddings_2"; "unrelated"; "weknora_embeddings_3"])
    ∧ (run (KeywordsRetrieve exampleRepository exampleKeywordQuery) keywordStore []).1
      = Returned (Ok [ {| Results :=
                            take (Z.to_nat (rp_TopK exampleKeywordQuery))
                              (flat_map eventMatches
                                 (run (KeywordsRetrieve exampleRepository exampleKeywordQuery)
                                    keywordStore []).2);
                          rr_RetrieverEngineType := MilvusRetrieverEngineType;
                          rr_RetrieverType := KeywordsRetrieverType;
                          rr_Error := None |} ])
    ∧ Forall (λ r, iws_Score r = float64_one ∧ iws_MatchType r = MatchTypeKeywords)
             (flat_map eventMatches
                (run (KeywordsRetrieve exampleRepository exampleKeywordQuery)
                   keywordStore []).2).
Proof.
  apply (C5_keywords_retrieve exampleRepository exampleKeywordQuery keywordStore []
           ["weknora_embeddings_2"; "unrelated"; "weknora_embeddings_3"]).
  - reflexivity.
  - simpl. lia.
Defined.

(** The run of the example: two collections are searched, the four matches
    are cut to the first two, which are those of the first collection. *)
Example keywords_example_results :
  map (λ rr, map (λ r, (iws_ID r, iws_Score r, iws_MatchType r)) (Results rr))
      match (run (KeywordsRetrieve exampleRepository exampleKeywordQuery) keywordStore []).1 with
      | Returned (Ok rrs) => rrs
      | _ => []
      end
  = [[("weknora_embeddings_2/1", float64_one, MatchTypeKeywords);
      ("weknora_embeddings_2/2", float64_one, MatchTypeKeywords)]].
Proof. vm_compute. reflexivity. Qed.

(** ** Copy between knowledge bases *)

Lemma hasPrefix_append p s : hasPrefix (p +:+ s) p = true.
Proof.
  induction p as [|c p IH]; [by destruct s|].
  rewrite append_cons. simpl. by rewrite Ascii.eqb_refl, IH.
Qed.

Lemma dropBytes_append p s : dropBytes (String.length p) (p +:+ s) = s.
Proof. induction p as [|c p IH]; [by destruct s | by rewrite append_cons]. Qed.

Lemma trimPrefix_append p s : trimPrefix (p +:+ s) p = s.
Proof. unfold trimPrefix. by rewrite hasPrefix_append, dropBytes_append. Qed.

Lemma hasPrefix_inv s p :
  hasPrefix s p = true → s = p +:+ dropBytes (String.length p) s.
Proof.
  revert s. induction p as [|c p IH]; intros s H; [by destruct s|].
  destruct s as [|c' s]; [discriminate|]. simpl in H.
  apply andb_true_iff in H as [Hc Hp]. apply Ascii.eqb_eq in Hc. subst c'.
  rewrite append_cons. simpl. f_equal. by apply IH.
Qed.

Lemma length_append a b :
  String.length (a +:+ b) = (String.length a + String.length b)%nat.
Proof. induction a as [|c a IH]; [reflexivity|]. rewrite append_cons. simpl. lia. Qed.

Lemma append_assoc a b c : (a +:+ b) +:+ c = a +:+ b +:+ c.
Proof. induction a as [|x a IH]; [reflexivity|]. by rewrite !append_cons, IH. Qed.

Lemma append_dash_ne chunk suffix : chunk +:+ "-" +:+ suffix ≠ chunk.
Proof.
  intros H. apply (f_equal String.length) in H.
  rewrite !length_append in H. simpl in H. lia.
Qed.

(** The three cases of the new source id. *)
Lemma targetSourceIDOf_same chunk target :
  targetSourceIDOf chunk chunk target = Ret target.
Proof. unfold targetSourceIDOf. by rewrite String.eqb_refl. Qed.

Lemma targetSourceIDOf_suffix chunk suffix target :
  targetSourceIDOf (chunk +:+ "-" +:+ suffix) chunk target
  = Ret (target +:+ "-" +:+ suffix).
Proof.
  unfold targetSourceIDOf.
  rewrite (proj2 (String.eqb_neq _ _) (append_dash_ne chunk suffix)).
  rewrite <- (append_assoc chunk "-" suffix).
  by rewrite hasPrefix_append, trimPrefix_append.
Qed.

Lemma targetSourceIDOf_other original chunk target :
  original ≠ chunk → (∀ suffix, original ≠ chunk +:+ "-" +:+ suffix) →
  targetSourceIDOf original chunk target = call NewUUID.
Proof.
  intros Hne Hsuffix. unfold targetSourceIDOf.
  rewrite (proj2 (String.eqb_neq _ _) Hne).
  destruct (hasPrefix original (chunk +:+ "-")) eqn:Hp; [|reflexivity].
  apply hasPrefix_inv in Hp. rewrite append_assoc in Hp. by destruct (Hsuffix _ Hp).
Qed.

Lemma run_targetSourceIDOf original chunk target (o : oracle) h :
  ∃ sid minted,
    run (targetSourceIDOf original chunk target) o h = (Returned sid, uuidEvents minted)
    ∧ (original = chunk → sid = target ∧ minted = [])
    ∧ (∀ suffix, original = chunk +:+ "-" +:+ suffix →
         sid = target +:+ "-" +:+ suffix ∧ minted = [])
    ∧ (original ≠ chunk → (∀ suffix, original ≠ chunk +:+ "-" +:+ suffix) →
         minted = [sid]).
Proof.
  destruct (String.eqb_spec original chunk) as [->|Hne].
  { exists target, []. rewrite targetSourceIDOf_same. split; [reflexivity|].
    split; [done|]. split; [|done].
    intros suffix H. symmetry in H. by destruct (append_dash_ne _ _ H). }
  destruct (hasPrefix original (chunk +:+ "-")) eqn:Hp.
  - apply hasPrefix_inv in Hp. rewrite append_assoc in Hp.
    set (suffix := dropBytes _ _) in Hp.
    exists (target +:+ "-" +:+ suffix), []. rewrite Hp at 1.
    rewrite targetSourceIDOf_suffix. split; [reflexivity|].
    split; [done|]. split.
    + intros suffix' H. rewrite Hp in H.
      apply (inj (String.append chunk)) in H.
      rewrite !append_cons, !append_nil_l in H. by injection H as <-.
    + intros _ H. by destruct (H _ Hp).
  - exists (o h NewUUID), [o h NewUUID].
    unfold targetSourceIDOf. rewrite (proj2 (String.eqb_neq _ _) Hne), Hp.
    split; [reflexivity|]. split; [done|]. split; [|done].
    intros suffix H. rewrite H, <- append_assoc, hasPrefix_append in Hp. discriminate.
Qed.

Lemma uuidEvents_app a b : uuidEvents (a ++ b) = uuidEvents a ++ uuidEvents b.
Proof. apply map_app. Qed.

(** The rows that one page of source rows is copied to: one copy for every
    source row that both tables map, in order, each with identifiers of its
    own; the only requests are the identifier requests. *)
Lemma run_copyRows kbMap chunkMap targetKB srcs (o : oracle) :
  ∀ h, ∃ copies : list (MilvusVectorEmbedding * list string),
    run (copyRows kbMap chunkMap targetKB srcs) o h
    = (Returned (map fst copies), uuidEvents (concat (map snd copies)))
    ∧ Forall2 (copiedRow kbMap chunkMap targetKB)
              (List.filter (mapped kbMap chunkMap) srcs) copies.
Proof.
  induction srcs as [|src rest IH]; intros h.
  { exists []. split; [reflexivity | constructor]. }
  cbn [copyRows List.filter]. cbv zeta. unfold mapped at 1.
  destruct (chunkMap !! ChunkID (embedded src)) as [targetChunk|] eqn:Hchunk.
  2:{ rewrite bool_decide_eq_false_2 by (by intros [? ?]). apply IH. }
  destruct (kbMap !! KnowledgeID (embedded src)) as [targetKnowledge|] eqn:Hkb.
  2:{ rewrite (bool_decide_eq_false_2 (is_Some None)) by (by intros [? ?]).
      rewrite andb_false_r. apply IH. }
  rewrite !bool_decide_eq_true_2 by eauto. cbn [andb].
  destruct (run_targetSourceIDOf (SourceID (embedded src)) (ChunkID (embedded src))
              targetChunk o h) as (sid & minted & Hsid & Hsame & Hsuffix & Hother).
  rewrite run_bind, Hsid. cbv zeta. run_bind_call.
  set (id := o (h ++ uuidEvents minted) NewUUID : string).
  destruct (IH ((h ++ uuidEvents minted) ++ [existT NewUUID id]))
    as (copies & Hrest & Hcopies).
  rewrite run_bind, Hrest. cbn [run].
  set (row := {| ID := id; Content := Content (embedded src); SourceID := sid;
                 SourceType := SourceType (embedded src); ChunkID := targetChunk;
                 KnowledgeID := targetKnowledge; KnowledgeBaseID := targetKB;
                 TagID := TagID (embedded src); Embedding := Embedding (embedded src);
                 IsEnabled := IsEnabled (embedded src) |}).
  exists ((row, minted ++ [id]) :: copies). split.
  - cbn [map fst snd concat]. rewrite !uuidEvents_app, app_nil_r.
    by rewrite <- !app_assoc.
  - constructor; [|exact Hcopies].
    unfold copiedRow. cbn [ID Content SourceID SourceType ChunkID KnowledgeID
      KnowledgeBaseID TagID Embedding IsEnabled row].
    repeat (split; [done|]). split; [|split].
    + intros H. destruct (Hsame H) as [-> ->]. done.
    + intros suffix H. destruct (Hsuffix _ H) as [-> ->]. done.
    + intros H1 H2. by rewrite (Hother H1 H2).
Qed.

Lemma run_searchByFilter_page m collectionName sourceKB offset (o : oracle) h :
  run (searchByFilter m collectionName
         (Cond fieldKnowledgeBaseID operatorEqual (VStr sourceKB)) (Some batchSize) offset)
      o h
  = (Returned (pageFound (o h (Query (pageQuery collectionName sourceKB offset)))),
     [existT (Query (pageQuery collectionName sourceKB offset))
        (o h (Query (pageQuery collectionName sourceKB offset)))]).
Proof.
  unfold searchByFilter.
  change (Convert (Cond fieldKnowledgeBaseID operatorEqual (VStr sourceKB)))
    with (Ok (mkResult "knowledge_base_id == {knowledge_base_id_1}"
                ({[ "knowledge_base_id_1" := VStr sourceKB ]} : gmap string value))).
  cbn [exprStr params String.eqb Ascii.eqb Bool.eqb negb].
  fold (pageQuery collectionName sourceKB offset). run_bind_call.
  unfold pageFound, convertResultSet.
  destruct (o h (Query (pageQuery collectionName sourceKB offset))) as [set|err];
    [|reflexivity].
  by destruct (Columns set).
Qed.

Lemma run_copyPage m collectionName sourceKB kbMap chunkMap targetKB offset
    (o : oracle) h :
  pageBehaviour m collectionName sourceKB kbMap chunkMap targetKB offset o h.
Proof.
  unfold pageBehaviour. cbv zeta.
  set (query := Query (pageQuery collectionName sourceKB offset)). unfold copyPage. rewrite run_bind, run_searchByFilter_page.
  fold query. unfold pageFound.
  destruct (o h query) as [set|err] eqn:Hanswer; [|reflexivity].
  destruct (Columns set) as [rows|err] eqn:Hrows; [|reflexivity].
  destruct rows as [|row rows]; [reflexivity|].
  cbv zeta. cbn [sourceRows map length]. 
  change (Z.of_nat (S _) =? 0) with false. cbv iota.
  rewrite run_bind.
  destruct (run_copyRows kbMap chunkMap targetKB (sourceRows (row :: rows)) o
              (h ++ [existT query (Ok set)])) as (copies & Hrun & Hcopies).
  cbn [sourceRows map] in Hrun. rewrite Hrun. exists copies. split; [exact Hcopies|].
  unfold pageOutcome. fold query. cbv zeta.
  destruct copies as [|copy copies].
  - cbn [map length run concat uuidEvents]. 
    change (0 <? Z.of_nat 0) with false. cbv iota.
    rewrite run_bind. cbn [run]. rewrite !app_nil_r.
    by destruct (ResultCount set <? batchSize).
  - cbn [map length]. change (0 <? Z.of_nat (S _)) with true. cbv iota.
    run_bind_call. rewrite <- !app_assoc.
    destruct (o _ (Upsert _)) as [[]|err]; cbn [run]; rewrite ?app_nil_r.
    + by destruct (ResultCount set <? batchSize).
    + reflexivity.
Qed.




(** Without enough fuel the model stops after [fuel] pages, all of which
    continued. *)
Lemma copyLoop_out_of_fuel m collectionName sourceKB kbMap chunkMap targetKB o
    fuel h offset t :
  run (copyLoop fuel m collectionName sourceKB kbMap chunkMap targetKB offset) o h
  = (Returned None, t) →
  length (List.filter (λ r, match r with Query _ => true | _ => false end)
            (map requestOf t)) = fuel.
Proof.
  revert h offset t. induction fuel as [|fuel IH]; intros h offset t Hrun.
  { injection Hrun as <-. reflexivity. }
  cbn [copyLoop] in Hrun. rewrite run_bind in Hrun.
  pose proof (run_copyPage m collectionName sourceKB kbMap chunkMap targetKB offset o h)
    as Hpage. unfold pageBehaviour in Hpage. cbv zeta in Hpage.
  destruct (run (copyPage m collectionName sourceKB kbMap chunkMap targetKB offset) o h)
    as [[[res|offset']|msg] t1] eqn:Hfirst; try discriminate.
  destruct (run (copyLoop fuel m collectionName sourceKB kbMap chunkMap targetKB offset')
              o (h ++ t1)) as [out t2] eqn:Hrest.
  injection Hrun as -> <-. apply IH in Hrest.
  rewrite map_app, List.filter_app, length_app, Hrest.
  enough (length (List.filter (λ r, match r with Query _ => true | _ => false end)
                    (map requestOf t1)) = 1%nat) as -> by lia.
  destruct (o h (Query (pageQuery collectionName sourceKB offset))) as [set|err];
    [|discriminate].
  destruct (Columns set) as [[|row rows]|err]; try discriminate.
  destruct Hpage as (copies & _ & Hpage). unfold pageOutcome in Hpage. cbv zeta in Hpage.
  assert (∀ ids, List.filter (λ r, match r with Query _ => true | _ => false end)
                   (map requestOf (uuidEvents ids)) = []) as Hminted.
  { induction ids as [|id ids IHids]; [reflexivity | exact IHids]. }
  destruct copies as [|copy copies]; [by injection Hpage as _ ->|].
  destruct (o _ (Upsert _)); injection Hpage as _ ->;
    cbn [app map requestOf projT1 List.filter];
    by rewrite map_app, List.filter_app, Hminted.
Qed.








Lemma ensureCollection_collectionRequests m dimension :
  satisfies collectionRequest (λ _, True) (ensureCollection m dimension).
Proof.
  unfold ensureCollection, mbind, prog_bind. simpl.
  split; [exact I|]. intros [|]; simpl; [exact I|].
  split; [exact I|]. intros [[|]|err]; simpl; try exact I.
  - split; [exact I|]. intros [[]|err]; simpl; [|exact I].
    split; [exact I|]. intros [[]|err]; simpl; [|exact I].
    split; [exact I|]. intros []. exact I.
  - split; [exact I|]. intros [[]|err]; simpl; [|exact I].
    split; [exact I|]. intros [[]|err]; simpl; [|exact I].
    split; [exact I|]. intros [[]|err]; simpl; [|exact I].
    split; [exact I|]. intros []. exact I.
Qed.



(** The copy of the example: two of the three rows are copied, the
    unmapped one is skipped, one page is read and nothing is deleted. *)
Example copy_example_run :
  (run (CopyIndices 1 exampleRepository "A" exampleKnowledgeMap exampleChunkMap "B" 2
          EmptyString) copyStore []).1 = Returned (Some (Ok tt))
  ∧ requests (CopyIndices 1 exampleRepository "A" exampleKnowledgeMap exampleChunkMap "B" 2
                EmptyString) copyStore []
    = [CacheLoad 2;
       Query (pageQuery "weknora_embeddings_2" "A" None);
       NewUUID; NewUUID;
       Upsert (createUpsert "weknora_embeddings_2" copiedRowsOfA)].
Proof. split; vm_compute; reflexivity. Qed.


(** ** Filter compiler: acceptance and composition *)

Lemma sliceLen_not_nil v n : sliceLen v = Some n → isNil v = false.
Proof. by destruct v. Qed.

Lemma convertChildren_accepts op cs :
  Forall (λ c, ∀ counter, isOk (convertCondition c counter) = valid c) cs →
  ∀ acc counter,
    isOk (convertChildren convertCondition op cs acc counter)
    = forallb valid cs && (isSome acc || match cs with [] => false | _ => true end).
Proof.
  induction 1 as [|c cs Hc _ IH]; intros acc counter.
  - by destruct acc.
  - cbn [convertChildren forallb]. specialize (Hc counter).
    destruct (convertCondition c counter) as [[rc nc]|e] eqn:Hconv; simpl in Hc;
      rewrite <- Hc; [|reflexivity].
    rewrite (eqb_empty_false _ (convertCondition_nonempty _ _ _ _ Hconv)).
    cbn [andb]. rewrite orb_true_r, andb_true_r.
    destruct acc as [a|]; rewrite IH; cbn [isSome orb]; by rewrite andb_true_r.
Qed.

Lemma comparison_operator_known o :
  isComparisonOp o = true → ∃ s, comparisonOperators o = Some s.
Proof.
  unfold isComparisonOp, comparisonOperators.
  repeat (destruct (String.eqb o _); [eauto|]). discriminate.
Qed.

Lemma convertCondition_accepts c :
  ∀ counter, isOk (convertCondition c counter) = valid c.
Proof.
  induction c as [|f o v IH] using condptr_children_ind; intros counter;
    [reflexivity|].
  simpl. destruct (isComparisonOp o) eqn:Hcmp.
  { unfold convertComparisonCondition.
    destruct (comparison_operator_known _ Hcmp) as [s ->].
    destruct (String.eqb f EmptyString); [reflexivity|].
    by destruct (isNil v). }
  destruct (isLogicalOp o).
  { destruct v as [| | | | | | |cs]; try reflexivity. simpl in IH.
    rewrite (convertChildren_accepts o cs IH None counter). cbn [isSome orb].
    destruct cs; [reflexivity|]. by rewrite andb_true_r. }
  destruct (isMembershipOp o).
  { unfold convertInCondition.
    destruct (String.eqb f EmptyString); [reflexivity|]. cbn [negb andb orb].
    destruct (sliceLen v) as [m|] eqn:Hlen; [|by destruct (isNil v)].
    rewrite (sliceLen_not_nil _ _ Hlen).
    destruct (Z.leb_spec m 0), (Z.ltb_spec 0 m); try lia; reflexivity. }
  destruct (String.eqb o operatorBetween); [|reflexivity].
  unfold convertBetweenCondition.
  destruct (String.eqb f EmptyString); [reflexivity|]. cbn [negb andb orb].
  destruct (sliceLen v) as [m|] eqn:Hlen; [|by destruct (isNil v)].
  rewrite (sliceLen_not_nil _ _ Hlen).
  by destruct m as [|[[]|[]|]|].
Qed.

(** X1.  The compiler accepts exactly the well-formed trees: [Convert]
    returns a result iff every node has one of the thirteen operators and,
    for a comparison, a field and a value; for [in] and [not in], a field
    and a non-empty slice; for [between], a field and a slice of two
    values; for [and] and [or], a non-empty list of sub-conditions that are
    well-formed in turn.  Every other tree gets an error. *)
Theorem Convert_accepts_iff_valid (c : condptr) :
  isOk (Convert c) = valid c.
Proof.
  unfold Convert. rewrite <- (convertCondition_accepts c 0).
  by destruct (convertCondition c 0) as [[r n]|e].
Qed.

(** X2.  A logical node with one sub-condition compiles to the result of the
    sub-condition, unchanged. *)
Theorem logical_single_child (Field Operator : string) (c : condptr) :
  isLogicalOp Operator = true →
  Convert (Cond Field Operator (VConds [c])) = Convert c.
Proof.
  intros Hlog. destruct (logical_not_leaf _ Hlog) as (Hcmp & _).
  unfold Convert. simpl. rewrite Hcmp, Hlog.
  destruct (convertCondition c 0) as [[r n]|e] eqn:Hconv; [|reflexivity].
  by rewrite (eqb_empty_false _ (convertCondition_nonempty _ _ _ _ Hconv)).
Qed.

Lemma logical_single_child_witness :
  Convert (Cond EmptyString "or" (VConds [Cond "age" "gt" (VInt 3)]))
  = Convert (Cond "age" "gt" (VInt 3)).
Proof. apply logical_single_child. reflexivity. Defined.

Lemma convertChildren_snoc op cs c :
  ∀ acc counter,
    (isSome acc || match cs with [] => false | _ => true end) = true →
    convertChildren convertCondition op (cs ++ [c]) acc counter
    = match convertChildren convertCondition op cs acc counter with
      | Fail e => Fail e
      | Ok (r, counter') =>
          match convertCondition c counter' with
          | Fail e => Fail e
          | Ok (rc, counter'') => Ok (joinLogical op r rc, counter'')
          end
      end.
Proof.
  induction cs as [|c0 cs IH]; intros acc counter Hacc.
  - destruct acc as [a|]; [|discriminate]. simpl.
    destruct (convertCondition c counter) as [[rc nc]|e] eqn:Hconv; [|reflexivity].
    by rewrite (eqb_empty_false _ (convertCondition_nonempty _ _ _ _ Hconv)).
  - simpl.
    destruct (convertCondition c0 counter) as [[r0 n0]|e] eqn:Hconv; [|reflexivity].
    rewrite (eqb_empty_false _ (convertCondition_nonempty _ _ _ _ Hconv)).
    destruct acc as [a|]; by rewrite IH.
Qed.

(** X3.  Left-to-right folding: adding one more sub-condition to a logical node
    encloses the expression of the node so far and the expression of the new
    sub-condition in parentheses, joins them with the operator, and merges
    the parameter maps; the new sub-condition is compiled at the counter the
    node so far ends with. *)
Theorem logical_append_child (Field Operator : string) (first : condptr)
    (others : list condptr) (last : condptr) (counter : Z) :
  isLogicalOp Operator = true →
  convertCondition (Cond Field Operator (VConds ((first :: others) ++ [last]))) counter
  = match convertCondition (Cond Field Operator (VConds (first :: others))) counter with
    | Fail e => Fail e
    | Ok (r, counter') =>
        match convertCondition last counter' with
        | Fail e => Fail e
        | Ok (rc, counter'') => Ok (joinLogical Operator r rc, counter'')
        end
    end.
Proof.
  intros Hlog. destruct (logical_not_leaf _ Hlog) as (Hcmp & _).
  cbn [convertCondition]. rewrite Hcmp, Hlog.
  by apply (convertChildren_snoc Operator (first :: others) last None counter).
Qed.

Lemma logical_append_child_witness :
  convertCondition
    (Cond EmptyString "and"
       (VConds ((Cond "a" "eq" (VInt 1) :: [Cond "b" "lt" (VInt 2)])
                ++ [Cond "c.d" "in" (VSlice [VInt 3])]))) 0
  = match convertCondition
            (Cond EmptyString "and"
               (VConds (Cond "a" "eq" (VInt 1) :: [Cond "b" "lt" (VInt 2)]))) 0 with
    | Fail e => Fail e
    | Ok (r, counter') =>
        match convertCondition (Cond "c.d" "in" (VSlice [VInt 3])) counter' with
        | Fail e => Fail e
        | Ok (rc, counter'') => Ok (joinLogical "and" r rc, counter'')
        end
    end.
Proof. apply logical_append_child. reflexivity. Defined.

Example three_operands_expression :
  Convert (Cond EmptyString "and"
             (VConds [Cond "a" "eq" (VInt 1); Cond "b" "lt" (VInt 2);
                      Cond "c.d" "in" (VSlice [VInt 3])]))
  = Ok (mkResult "((a == {a_1}) and (b < {b_2})) and (c.d in {c_d_3})"
          (<["c_d_3" := VSlice [VInt 3]]> (<["b_2" := VInt 2]> {["a_1" := VInt 1]}))).
Proof. vm_compute. reflexivity. Qed.

(** X4.  [between] with a field and a slice of two values compiles to two
    inclusive comparisons on the field, each bound to a parameter of its
    own: the lower bound to the name with suffix [_0], the upper bound to
    the name with suffix [_1]. *)
Theorem between_two_inclusive_comparisons (Field : string) (Value : value) :
  Field ≠ EmptyString → sliceLen Value = Some 2 →
  let base := replaceDots Field +:+ "_1" in
  ∃ r, Convert (Cond Field operatorBetween Value) = Ok r
       ∧ exprStr r = Field +:+ " >= {" +:+ base +:+ "_0} and "
                       +:+ Field +:+ " <= {" +:+ base +:+ "_1}"
       ∧ params r !! (base +:+ "_0") = Some (sliceIndex Value 0)
       ∧ params r !! (base +:+ "_1") = Some (sliceIndex Value 1)
       ∧ size (params r) = 2%nat.
Proof.
  intros Hfield Hlen base. unfold Convert. cbn [convertCondition].
  change (isComparisonOp operatorBetween) with false.
  change (isLogicalOp operatorBetween) with false.
  change (isMembershipOp operatorBetween) with false.
  change (String.eqb operatorBetween operatorBetween) with true. cbv iota.
  unfold convertBetweenCondition.
  rewrite (proj2 (String.eqb_neq _ _) Hfield), (sliceLen_not_nil _ _ Hlen), Hlen.
  cbn [orb negb]. cbv iota.
  change (convertParamName Field 0) with (base, 1).
  cbv beta iota zeta. eexists. split; [reflexivity|].
  cbn [exprStr params].
  change (fmtInt 0) with "0". change (fmtInt 1) with "1".
  assert (base +:+ "_" +:+ "0" ≠ base +:+ "_" +:+ "1") as Hne.
  { intros H. apply (inj (String.append base)) in H. discriminate. }
  split; [|split; [|split]].
  - by rewrite !append_assoc.
  - rewrite lookup_insert_ne by (by apply not_eq_sym). apply lookup_singleton_eq.
  - apply lookup_insert_eq.
  - rewrite map_size_insert_None by (by rewrite lookup_singleton_ne).
    by rewrite map_size_singleton.
Qed.

Lemma between_two_inclusive_comparisons_witness :
  ∃ r, Convert (Cond "meta.price" operatorBetween (VSlice [VInt 10; VInt 20])) = Ok r
       ∧ exprStr r = "meta.price" +:+ " >= {" +:+ (replaceDots "meta.price" +:+ "_1")
                       +:+ "_0} and " +:+ "meta.price" +:+ " <= {"
                       +:+ (replaceDots "meta.price" +:+ "_1") +:+ "_1}"
       ∧ params r !! ((replaceDots "meta.price" +:+ "_1") +:+ "_0")
         = Some (sliceIndex (VSlice [VInt 10; VInt 20]) 0)
       ∧ params r !! ((replaceDots "meta.price" +:+ "_1") +:+ "_1")
         = Some (sliceIndex (VSlice [VInt 10; VInt 20]) 1)
       ∧ size (params r) = 2%nat.
Proof.
  apply (between_two_inclusive_comparisons "meta.price" (VSlice [VInt 10; VInt 20]));
    [discriminate | reflexivity].
Defined.

(** ** Filter compiler: parameter names without dots *)

Lemma noDot_append a b : noDot (a +:+ b) = noDot a && noDot b.
Proof.
  induction a as [|c a IH]; [reflexivity|].
  rewrite append_cons. simpl. by rewrite IH, andb_assoc.
Qed.

Lemma replaceDots_noDot s : noDot (replaceDots s) = true.
Proof.
  induction s as [|c s IH]; [reflexivity|]. simpl. rewrite IH, andb_true_r.
  destruct (Ascii.eqb c ".") eqn:Hc; [reflexivity|]. by rewrite Hc.
Qed.

Lemma pretty_N_go_noDot x s : noDot s = true → noDot (pretty_N_go x s) = true.
Proof.
  revert s. induction (N.lt_wf_0 x) as [x _ IH]; intros s Hs.
  assert (x = 0 ∨ 0 < x)%N as [->|Hx] by lia.
  - by rewrite pretty_N_go_0.
  - rewrite pretty_N_go_step by done. apply IH.
    + by apply N.div_lt.
    + simpl. rewrite Hs, andb_true_r. unfold pretty_N_char.
      by repeat case_match.
Qed.

Lemma fmtInt_noDot n : noDot (fmtInt n) = true.
Proof.
  assert (∀ x : N, noDot (pretty x) = true) as HN.
  { intros x. unfold pretty, pretty_N. case_decide; [reflexivity|].
    by apply pretty_N_go_noDot. }
  unfold fmtInt, pretty, pretty_Z. destruct n as [|p|p]; [reflexivity|..].
  - apply (HN (Npos p)).
  - rewrite noDot_append. simpl. apply (HN (Npos p)).
Qed.

Lemma convertParamName_noDot field counter :
  noDot (convertParamName field counter).1 = true.
Proof.
  unfold convertParamName. cbn [fst].
  by rewrite !noDot_append, replaceDots_noDot, fmtInt_noDot.
Qed.

Lemma convertChildren_noDot op cs :
  Forall (λ c, ∀ counter r n, convertCondition c counter = Ok (r, n) →
               keysNoDot (params r)) cs →
  ∀ acc counter r n,
    match acc with Some a => keysNoDot (params a) | None => True end →
    convertChildren convertCondition op cs acc counter = Ok (r, n) →
    keysNoDot (params r).
Proof.
  induction 1 as [|c cs Hc _ IH]; intros acc counter r n Hacc Hrun; simpl in Hrun.
  - destruct acc as [a|]; [|discriminate]. by injection Hrun as <- _.
  - destruct (convertCondition c counter) as [[rc nc]|e] eqn:Hconv; [|discriminate].
    specialize (Hc _ _ _ Hconv).
    destruct (String.eqb (exprStr rc) EmptyString); [by eapply IH|].
    destruct acc as [a|]; (eapply IH; [|exact Hrun]); simpl; [|exact Hc].
    intros k Hk. apply lookup_union_is_Some in Hk as [Hk|Hk]; auto.
Qed.

(** X5.  Every parameter name of an accepted tree is free of ['.'], whatever
    the field names are. *)
Theorem parameter_names_have_no_dot (c : condptr) (r : convertResult) :
  Convert c = Ok r → ∀ k, is_Some (params r !! k) → noDot k = true.
Proof.
  unfold Convert. intros Hc.
  destruct (convertCondition c 0) as [[r0 n0]|e] eqn:Hrun; [|discriminate].
  injection Hc as ->. revert Hrun. generalize 0 as counter. revert r n0.
  induction c as [|f o v IH] using condptr_children_ind;
    intros r n counter Hrun; simpl in Hrun; [discriminate|].
  destruct (isComparisonOp o).
  { unfold convertComparisonCondition in Hrun.
    destruct (String.eqb f EmptyString || isNil v)%bool; [discriminate|].
    destruct (comparisonOperators o); [|discriminate].
    injection Hrun as <- _. intros k [x Hk]. cbn [params] in Hk.
    apply lookup_singleton_Some in Hk as [<- _]. apply (convertParamName_noDot f counter). }
  destruct (isLogicalOp o).
  { destruct v; try discriminate. simpl in IH.
    apply (convertChildren_noDot o cs) with (acc := None) (counter := counter) (n := n);
      [|exact I|exact Hrun].
    eapply Forall_impl; [exact IH|]. intros c Hc counter' r' n' Hrun'.
    exact (Hc r' n' counter' Hrun'). }
  destruct (isMembershipOp o).
  { unfold convertInCondition in Hrun.
    destruct (String.eqb f EmptyString || isNil v)%bool; [discriminate|].
    destruct (sliceLen v) as [m|]; [|discriminate].
    destruct (m <=? 0)%Z; [discriminate|].
    injection Hrun as <- _. intros k [x Hk]. cbn [params] in Hk.
    apply lookup_singleton_Some in Hk as [<- _]. apply (convertParamName_noDot f counter). }
  destruct (String.eqb o operatorBetween); [|discriminate].
  unfold convertBetweenCondition in Hrun.
  destruct (String.eqb f EmptyString || isNil v)%bool; [discriminate|].
  destruct (sliceLen v) as [[|[[]|[]|]|]|]; try discriminate.
  injection Hrun as <- _. intros k [x Hk]. cbn [params] in Hk.
  apply lookup_insert_Some in Hk as [[<- _]|[_ Hk]].
  - by rewrite !noDot_append, replaceDots_noDot, !fmtInt_noDot.
  - apply lookup_singleton_Some in Hk as [<- _].
    by rewrite !noDot_append, replaceDots_noDot, !fmtInt_noDot.
Qed.

Lemma parameter_names_have_no_dot_witness :
  is_Some (params dottedResult !! "meta_author_name_1")
  ∧ noDot "meta_author_name_1" = true.
Proof.
  assert (is_Some (params dottedResult !! "meta_author_name_1")) as Hbound
    by (eexists; vm_compute; reflexivity).
  split; [exact Hbound|].
  apply (parameter_names_have_no_dot dottedTree dottedResult);
    [vm_compute; reflexivity | exact Hbound].
Defined.

(** ** Collection names *)

Lemma substring_prefix p s : String.substring 0 (String.length p) (p +:+ s) = p.
Proof.
  induction p as [|c p IH]; [by destruct s|].
  rewrite append_cons. simpl. by rewrite IH.
Qed.

Lemma substring_prefix_inv p s :
  String.substring 0 (String.length p) s = p → ∃ t, s = p +:+ t.
Proof.
  revert s. induction p as [|c p IH]; intros s H; [by exists s|].
  destruct s as [|c' s]; [discriminate|]. simpl in H.
  injection H as -> H. destruct (IH s H) as [t ->]. by exists t.
Qed.

(** X6.  The guard of the fan-out loops accepts exactly the collection
    names that are the base name followed by a non-empty suffix. *)
Theorem matchesBaseName_iff (m : milvusRepository) (collectionName : string) :
  matchesBaseName m collectionName = true
  ↔ ∃ suffix, suffix ≠ EmptyString ∧ collectionName = collectionBaseName m +:+ suffix.
Proof.
  unfold matchesBaseName, len. split.
  - intros H. apply negb_true_iff, orb_false_iff in H as [Hlen Hpre].
    apply negb_false_iff, String.eqb_eq, substring_prefix_inv in Hpre as [t ->].
    exists t. split; [|reflexivity]. intros ->.
    apply Z.leb_gt in Hlen. rewrite length_append in Hlen. simpl in Hlen. lia.
  - intros (suffix & Hne & ->). apply negb_true_iff, orb_false_iff. split.
    + rewrite length_append. apply Z.leb_gt. destruct suffix; [done|]. simpl. lia.
    + apply negb_false_iff, String.eqb_eq, substring_prefix.
Qed.

(** X7.  Every dimension has a collection name of its own, and the guard
    of the fan-out loops accepts the name of every dimension: the
    collections that the write path creates are the ones that keyword
    retrieval and the batch updaters visit. *)
Theorem getCollectionName_per_dimension (m : milvusRepository) (d1 d2 : Z) :
  (getCollectionName m d1 = getCollectionName m d2 → d1 = d2)
  ∧ matchesBaseName m (getCollectionName m d1) = true.
Proof.
  unfold getCollectionName. split.
  - intros H. apply (inj (String.append _)) in H.
    rewrite !append_cons, !append_nil_l in H. injection H as H.
    by apply (inj pretty) in H.
  - unfold matchesBaseName, len. apply negb_true_iff, orb_false_iff. split.
    + rewrite length_append, append_cons. apply Z.leb_gt. simpl. lia.
    + apply negb_false_iff, String.eqb_eq, substring_prefix.
Qed.

(** ** Properties of every run *)

Lemma always_run {A} (R : list event → outcome A → Prop) (p : prog A) o h :
  always R p → R (run p o h).2 (run p o h).1.
Proof.
  revert R h. induction p as [a|r k IH|msg]; intros R h Hp; simpl in *; auto.
  specialize (IH _ _ (h ++ [existT r (o h r)]) (Hp (o h r))).
  by destruct (run (k (o h r)) o (h ++ [existT r (o h r)])).
Qed.



(** ** Collection manager: the protocol *)

(** X8.  [ensureCollection] marks a dimension as initialized only after
    the store has acknowledged both the load of its collection and the
    wait for it, and then it succeeds; it succeeds only if the dimension
    was marked before or is marked now. *)
Theorem ensureCollection_marks_only_loaded (m : milvusRepository) (dimension : Z)
    (o : oracle) (h : list event) :
  let collectionName := getCollectionName m dimension in
  let out := (run (ensureCollection m dimension) o h).1 in
  let t := (run (ensureCollection m dimension) o h).2 in
  (In (CacheStore dimension) (map requestOf t) →
   out = Returned (Ok tt)
   ∧ In (existT (LoadCollection collectionName) (Ok tt)) t
   ∧ In (existT (AwaitLoad collectionName) (Ok tt)) t)
  ∧ (out = Returned (Ok tt) →
     t = [existT (CacheLoad dimension) true]
     ∨ In (CacheStore dimension) (map requestOf t)).
Proof.
  cbv zeta.
  apply (always_run
           (λ t out,
              (In (CacheStore dimension) (map requestOf t) →
               out = Returned (Ok tt)
               ∧ In (existT (LoadCollection (getCollectionName m dimension)) (Ok tt)) t
               ∧ In (existT (AwaitLoad (getCollectionName m dimension)) (Ok tt)) t)
              ∧ (out = Returned (Ok tt) →
                 t = [existT (CacheLoad dimension) true]
                 ∨ In (CacheStore dimension) (map requestOf t)))).
  unfold ensureCollection, mbind, prog_bind. simpl.
  intros [|]; simpl.
  { split; [|auto]. intros [H|[]]. discriminate. }
  intros [[|]|err]; simpl.
  - intros [[]|err]; simpl.
    + intros [[]|err]; simpl.
      * intros []. split; [|auto 10]. intros _. auto 10.
      * split; [|discriminate]. intros [H|[H|[H|[H|[]]]]]; discriminate.
    + split; [|discriminate]. intros [H|[H|[H|[]]]]; discriminate.
  - intros [[]|err]; simpl.
    + intros [[]|err]; simpl.
      * intros [[]|err]; simpl.
        -- intros []. split; [|auto 10]. intros _. auto 10.
        -- split; [|discriminate]. intros [H|[H|[H|[H|[H|[]]]]]]; discriminate.
      * split; [|discriminate]. intros [H|[H|[H|[H|[]]]]]; discriminate.
    + split; [|discriminate]. intros [H|[H|[H|[]]]]; discriminate.
  - split; [|discriminate]. intros [H|[H|[]]]; discriminate.
Qed.

(** X9.  The requests of [ensureCollection] are, in this order and each at
    most once, the cache lookup, the existence check, the creation, the
    load, the wait and the cache update for the one collection of the
    dimension; the creation is requested only after the store has reported
    the collection absent. *)
Theorem ensureCollection_protocol (m : milvusRepository) (dimension : Z)
    (o : oracle) (h : list event) :
  let collectionName := getCollectionName m dimension in
  let t := (run (ensureCollection m dimension) o h).2 in
  sublist (map requestOf t)
    [CacheLoad dimension; HasCollection collectionName;
     CreateCollection collectionName dimension; LoadCollection collectionName;
     AwaitLoad collectionName; CacheStore dimension]
  ∧ (In (CreateCollection collectionName dimension) (map requestOf t) →
     In (existT (HasCollection collectionName) (Ok false)) t).
Proof.
  cbv zeta.
  apply (always_run
           (λ t (_ : outcome (result unit)),
              sublist (map requestOf t)
                [CacheLoad dimension; HasCollection (getCollectionName m dimension);
                 CreateCollection (getCollectionName m dimension) dimension;
                 LoadCollection (getCollectionName m dimension);
                 AwaitLoad (getCollectionName m dimension); CacheStore dimension]
              ∧ (In (CreateCollection (getCollectionName m dimension) dimension)
                    (map requestOf t) →
                 In (existT (HasCollection (getCollectionName m dimension)) (Ok false)) t))).
  unfold ensureCollection, mbind, prog_bind, requestOf. simpl.
  intros [|]; simpl.
  { split; [|intros [H|[]]; discriminate].
    repeat first [apply sublist_nil_l | apply sublist_skip | apply sublist_cons]. }
  intros [[|]|err]; simpl.
  - intros [[]|err]; simpl; [intros [[]|err]; simpl; [intros []|]|];
      (split; [repeat first [apply sublist_nil_l | apply sublist_skip | apply sublist_cons]|]);
      intros H; exfalso; repeat (destruct H as [H|H]; [discriminate|]); exact H.
  - intros [[]|err]; simpl; [intros [[]|err]; simpl; [intros [[]|err]; simpl; [intros []|]|]|];
      (split; [repeat first [apply sublist_nil_l | apply sublist_skip | apply sublist_cons]|]);
      auto.
  - split; [repeat first [apply sublist_nil_l | apply sublist_skip | apply sublist_cons]|].
    intros H; exfalso; repeat (destruct H as [H|H]; [discriminate|]); exact H.
Qed.

(** ** Write path: what is written, and where *)

(** One step of a proof over all answers of the environment. *)
Ltac answers :=
  repeat (match goal with
          | |- ∀ x : ?T, _ =>
              let T' := eval simpl in T in
              lazymatch T' with
              | bool => intros [|]
              | result bool => intros [[|]|?]
              | result unit => intros [[]|?]
              | unit => intros []
              | string => intros ?
              end
          end; simpl).

Lemma satisfies_requests_weaken {A} (P P' : request → Prop) (Q : A → Prop) (p : prog A) :
  (∀ r, P r → P' r) → satisfies P Q p → satisfies P' Q p.
Proof.
  intros HP. induction p as [a|r k IH|msg]; simpl; auto.
  intros [Hr Hk]. split; auto.
Qed.

Lemma BatchSave_skips_step l1 e l2 additionalParams :
  Embedding (toMilvusVectorEmbedding e additionalParams) = [] →
  groupByDimension (l1 ++ e :: l2) additionalParams
  = groupByDimension (l1 ++ l2) additionalParams.
Proof.
  intros He. apply map_eq. intros d. rewrite !groupByDimension_lookup.
  rewrite !List.filter_app. cbn [List.filter].
  unfold inGroup at 2. unfold recordDimension, dimensionOf. rewrite He.
  reflexivity.
Qed.

(** X10.  A record without a vector (no vector under its source id in the
    additional parameters, or an empty one): [Save] fails with an error and
    issues no request, while [BatchSave] drops the record silently: a batch
    with the record runs as the batch without it. *)
Theorem record_without_vector
    (rangeOrder : list (Z * list IndexInfo) → list (Z * list IndexInfo))
    (m : milvusRepository) (embedding : IndexInfo) (before after : list IndexInfo)
    (additionalParams : gmap string paramValue) (o : oracle) (h : list event) :
  Embedding (toMilvusVectorEmbedding embedding additionalParams) = [] →
  run (Save m embedding additionalParams) o h
  = (Returned (Fail (Errorf ("empty embedding vector for chunk ID: "
                              +:+ ii_ChunkID embedding))), [])
  ∧ run (BatchSave rangeOrder m (before ++ embedding :: after) additionalParams) o h
    = run (BatchSave rangeOrder m (before ++ after) additionalParams) o h.
Proof.
  intros He. split.
  - unfold Save, dimensionOf. rewrite He. reflexivity.
  - unfold BatchSave. rewrite (BatchSave_skips_step _ _ _ _ He).
    destruct (before ++ embedding :: after) as [|x l] eqn:Hl.
    { by destruct before. }
    destruct (before ++ after) as [|y l']; [reflexivity|].
    destruct (Z.of_nat (size (groupByDimension (y :: l') additionalParams)) =? 0);
      reflexivity.
Qed.

Lemma record_without_vector_witness :
  run (Save exampleRepository (exampleRecord "s3" "c3") exampleParams) emptyStore []
  = (Returned (Fail (Errorf ("empty embedding vector for chunk ID: "
                              +:+ ii_ChunkID (exampleRecord "s3" "c3")))), [])
  ∧ run (BatchSave id exampleRepository
           ([exampleRecord "s1" "c1"] ++ exampleRecord "s3" "c3" :: [exampleRecord "s2" "c2"])
           exampleParams) emptyStore []
    = run (BatchSave id exampleRepository
             ([exampleRecord "s1" "c1"] ++ [exampleRecord "s2" "c2"])
             exampleParams) emptyStore [].
Proof.
  apply (record_without_vector id exampleRepository (exampleRecord "s3" "c3")
           [exampleRecord "s1" "c1"] [exampleRecord "s2" "c2"] exampleParams emptyStore []).
  reflexivity.
Defined.

(** X11.  [Save] reports success exactly when the store has acknowledged
    one upsert, of the one row of the record under an identifier that the
    generator gave in this call, into the collection of the dimension of
    its vector. *)
Theorem Save_success_iff_written (m : milvusRepository) (embedding : IndexInfo)
    (additionalParams : gmap string paramValue) (o : oracle) (h : list event) :
  let row := toMilvusVectorEmbedding embedding additionalParams in
  let out := (run (Save m embedding additionalParams) o h).1 in
  let t := (run (Save m embedding additionalParams) o h).2 in
  out = Returned (Ok tt)
  ↔ ∃ id, In id (mintedIn t)
          ∧ omap acknowledgedUpsert t
            = [createUpsert (getCollectionName m (dimensionOf row)) [withID row id]].
Proof.
  cbv zeta.
  apply (always_run
           (λ t out,
              out = Returned (Ok tt)
              ↔ ∃ id, In id (mintedIn t)
                      ∧ omap acknowledgedUpsert t
                        = [createUpsert
                             (getCollectionName m
                                (dimensionOf (toMilvusVectorEmbedding embedding
                                                additionalParams)))
                             [withID (toMilvusVectorEmbedding embedding additionalParams)
                                id]])).
  unfold Save. destruct (_ =? 0).
  { simpl. split; [discriminate|]. intros (id & [] & _). }
  unfold ensureCollection, mbind, prog_bind. simpl.
  answers;
    first [ split; [discriminate | intros (id & _ & H); discriminate H]
          | split; [intros _; eexists; split; [left; reflexivity | reflexivity]
                   | reflexivity] ].
Qed.

Lemma dimensionOf_withID row id : dimensionOf (withID row id) = dimensionOf row.
Proof. reflexivity. Qed.

Lemma createUpsert_dimensioned m d rows :
  rows ≠ [] → d ≠ 0 → Forall (λ row, dimensionOf row = d) rows →
  dimensionedUpsert m (Upsert (createUpsert (getCollectionName m d) rows)).
Proof.
  intros Hne Hd Hrows. simpl.
  destruct (last rows) as [e|] eqn:Hlast.
  - apply last_Some_elem_of, list_elem_of_In in Hlast.
    rewrite (proj1 (List.Forall_forall _ _) Hrows e Hlast). auto.
  - by apply last_None in Hlast.
Qed.

Lemma assignIDs_dimensioned m embeddings additionalParams d :
  Forall (λ e, recordDimension additionalParams e = d) embeddings →
  satisfies (dimensionedUpsert m)
    (λ rows, length rows = length embeddings
             ∧ Forall (λ row, dimensionOf row = d) rows)
    (assignIDs embeddings additionalParams).
Proof.
  induction 1 as [|e es He _ IH]; [by split|].
  cbn [assignIDs]. eapply satisfies_bind; [by apply satisfies_call|].
  intros id _. eapply satisfies_bind; [exact IH|].
  intros rows [Hlen Hrows]. split; [simpl; lia|]. by constructor.
Qed.

Lemma saveGroup_dimensioned m additionalParams d embeddings :
  embeddings ≠ [] → d ≠ 0 →
  Forall (λ e, recordDimension additionalParams e = d) embeddings →
  satisfies (dimensionedUpsert m) (λ _, True)
    (saveGroup m additionalParams (d, embeddings)).
Proof.
  intros Hne Hd Hdims. unfold saveGroup.
  eapply satisfies_bind.
  { eapply satisfies_requests_weaken; [|apply ensureCollection_collectionRequests].
    by intros []. }
  intros [[]|err] _; [|exact I].
  eapply satisfies_bind; [by apply assignIDs_dimensioned|].
  intros rows [Hlen Hrows]. eapply satisfies_bind.
  - apply satisfies_call, createUpsert_dimensioned; auto.
    intros ->. by destruct embeddings.
  - by intros [[]|err] _.
Qed.

Lemma saveGroups_dimensioned m additionalParams groups :
  Forall (λ g : Z * list IndexInfo,
            g.2 ≠ [] ∧ g.1 ≠ 0
            ∧ Forall (λ e, recordDimension additionalParams e = g.1) g.2) groups →
  satisfies (dimensionedUpsert m) (λ _, True) (saveGroups m additionalParams groups).
Proof.
  induction 1 as [|[d es] gs (Hne & Hd & Hdims) _ IH]; [exact I|].
  cbn [saveGroups]. eapply satisfies_bind; [by apply saveGroup_dimensioned|].
  by intros [[]|err] _.
Qed.

Lemma groupByDimension_groups l additionalParams d es :
  groupByDimension l additionalParams !! d = Some es →
  es ≠ [] ∧ d ≠ 0 ∧ Forall (λ e, recordDimension additionalParams e = d) es.
Proof.
  rewrite groupByDimension_lookup. unfold nonEmpty.
  destruct (List.filter (inGroup additionalParams d) l) as [|x xs] eqn:Hfilter;
    [discriminate|].
  intros [= <-]. split; [discriminate|].
  assert (∀ e, In e (x :: xs) → inGroup additionalParams d e = true) as Hin.
  { intros e He. rewrite <- Hfilter in He. by apply List.filter_In in He as [_ He]. }
  split.
  - specialize (Hin x (or_introl eq_refl)). unfold inGroup in Hin.
    apply andb_true_iff in Hin as [Hz Hd]. apply negb_true_iff, Z.eqb_neq in Hz.
    apply Z.eqb_eq in Hd. congruence.
  - apply List.Forall_forall. intros e He. specialize (Hin e He).
    unfold inGroup in Hin. apply andb_true_iff in Hin as [_ Hd].
    by apply Z.eqb_eq in Hd.
Qed.

(** X12.  Every upsert of the write path carries at least one row, and
    every row has a vector of the one dimension, not zero, whose collection
    the upsert addresses: [Save] and [BatchSave] never write a vector into
    the collection of another dimension. *)
Theorem write_path_upserts_dimensioned
    (rangeOrder : list (Z * list IndexInfo) → list (Z * list IndexInfo))
    (m : milvusRepository) (embedding : IndexInfo) (embeddingList : list IndexInfo)
    (additionalParams : gmap string paramValue) (o : oracle) (h : list event) :
  (∀ groups, Permutation (rangeOrder groups) groups) →
  Forall (dimensionedUpsert m) (requests (Save m embedding additionalParams) o h)
  ∧ Forall (dimensionedUpsert m)
      (requests (BatchSave rangeOrder m embeddingList additionalParams) o h).
Proof.
  intros Hperm. split.
  - apply (satisfies_run _ (λ _, True)). unfold Save.
    destruct (_ =? 0) eqn:Hzero; [exact I|]. apply Z.eqb_neq in Hzero.
    eapply satisfies_bind.
    { eapply satisfies_requests_weaken; [|apply ensureCollection_collectionRequests].
      by intros []. }
    intros [[]|err] _; [|exact I].
    eapply satisfies_bind; [by apply satisfies_call|].
    intros id _. eapply satisfies_bind.
    + apply satisfies_call, createUpsert_dimensioned; [discriminate|exact Hzero|].
      by constructor.
    + by intros [[]|err] _.
  - apply (satisfies_run _ (λ _, True)). unfold BatchSave.
    destruct embeddingList as [|e l]; [exact I|].
    destruct (_ =? 0); [exact I|].
    apply saveGroups_dimensioned, List.Forall_forall. intros [d es] Hin.
    apply (Permutation_in _ (Hperm _)) in Hin.
    apply list_elem_of_In, elem_of_map_to_list in Hin.
    by apply groupByDimension_groups in Hin.
Qed.

Lemma write_path_upserts_dimensioned_witness :
  Forall (dimensionedUpsert exampleRepository)
    (requests (Save exampleRepository (exampleRecord "s1" "c1") exampleParams) emptyStore [])
  ∧ Forall (dimensionedUpsert exampleRepository)
      (requests (BatchSave id exampleRepository exampleBatch exampleParams) emptyStore []).
Proof.
  apply (write_path_upserts_dimensioned id exampleRepository (exampleRecord "s1" "c1")
           exampleBatch exampleParams emptyStore []).
  intros groups. reflexivity.
Defined.

(** ** Delete path: a non-empty list *)

(** X13.  With a non-empty list, each delete method issues exactly one
    delete request, on the field of its kind and in the collection of the
    given dimension, with the whole list; it succeeds iff the store
    acknowledges the request and returns the failure of the store wrapped
    otherwise.  The knowledge type plays no part. *)
Theorem delete_nonempty_is_one_request (m : milvusRepository) (ids : list string)
    (dimension : Z) (knowledgeType : string) (o : oracle) (h : list event) :
  ids ≠ [] →
  run (DeleteByChunkIDList m ids dimension knowledgeType) o h
  = deleted m fieldChunkID "failed to delete by chunk IDs: " ids dimension o h
  ∧ run (DeleteByKnowledgeIDList m ids dimension knowledgeType) o h
    = deleted m fieldKnowledgeID "failed to delete by knowledge IDs: " ids dimension o h
  ∧ run (DeleteBySourceIDList m ids dimension knowledgeType) o h
    = deleted m fieldSourceID "failed to delete by source IDs: " ids dimension o h.
Proof.
  intros Hne. destruct ids as [|id ids]; [done|].
  unfold DeleteByChunkIDList, DeleteByKnowledgeIDList, DeleteBySourceIDList,
    deleteByIDs, deleted. simpl length.
  change (Z.of_nat (S (length ids)) =? 0) with false. cbv iota zeta.
  repeat split; run_bind_call; by destruct (o h (Delete _ _ _)) as [[]|err].
Qed.

Lemma delete_nonempty_is_one_request_witness :
  run (DeleteByChunkIDList exampleRepository ["c1"; "c2"] 2 "manual") emptyStore []
  = deleted exampleRepository fieldChunkID "failed to delete by chunk IDs: "
      ["c1"; "c2"] 2 emptyStore []
  ∧ run (DeleteByKnowledgeIDList exampleRepository ["c1"; "c2"] 2 "manual") emptyStore []
    = deleted exampleRepository fieldKnowledgeID "failed to delete by knowledge IDs: "
        ["c1"; "c2"] 2 emptyStore []
  ∧ run (DeleteBySourceIDList exampleRepository ["c1"; "c2"] 2 "manual") emptyStore []
    = deleted exampleRepository fieldSourceID "failed to delete by source IDs: "
        ["c1"; "c2"] 2 emptyStore [].
Proof.
  apply (delete_nonempty_is_one_request exampleRepository ["c1"; "c2"] 2 "manual"
           emptyStore []).
  discriminate.
Defined.

(** ** Batch field updaters *)

Lemma updateEnabledLoop_nothing_to_enable m collections disabledChunkIDs :
  updateEnabledLoop m collections [] disabledChunkIDs = Ret tt.
Proof.
  induction collections as [|c cs IH]; [reflexivity|].
  cbn [updateEnabledLoop]. rewrite IH.
  destruct (negb (matchesBaseName m c)); reflexivity.
Qed.

Lemma filter_none {A} (f : A → bool) (l : list A) :
  (∀ x, In x l → f x = false) → List.filter f l = [].
Proof.
  induction l as [|x l IH]; [reflexivity|]. intros H. cbn [List.filter].
  rewrite (H x (or_introl eq_refl)). apply IH. intros y Hy. apply H. by right.
Qed.

(** X14.  When the status map enables no chunk (every entry is [false]),
    [BatchUpdateChunkEnabledStatus] reads and writes no row: the filter on
    the empty list of chunks to enable is rejected by the filter compiler,
    and the loop leaves each collection before it gets to the chunks to
    disable.  The method issues the list request only (none for the empty
    map) and returns success unless the listing fails. *)
Theorem disabling_alone_updates_nothing
    (rangeOrder : list (string * bool) → list (string * bool))
    (m : milvusRepository) (chunkStatusMap : gmap string bool)
    (o : oracle) (h : list event) :
  (∀ entries, Permutation (rangeOrder entries) entries) →
  (∀ chunkID enabled, chunkStatusMap !! chunkID = Some enabled → enabled = false) →
  run (BatchUpdateChunkEnabledStatus rangeOrder m chunkStatusMap) o h
  = if Z.of_nat (size chunkStatusMap) =? 0 then (Returned (Ok tt), [])
    else (Returned (match o h ListCollections with
                    | Ok _ => Ok tt
                    | Fail err => Fail (Wrap "failed to list collections: " err)
                    end),
          [existT ListCollections (o h ListCollections)]).
Proof.
  intros Hperm Hfalse. unfold BatchUpdateChunkEnabledStatus.
  destruct (_ =? 0); [reflexivity|].
  rewrite (filter_none snd).
  2:{ intros [chunkID enabled] Hin. apply (Permutation_in _ (Hperm _)) in Hin.
      apply list_elem_of_In, elem_of_map_to_list in Hin. exact (Hfalse _ _ Hin). }
  cbn [map]. run_bind_call.
  destruct (o h ListCollections) as [collections|err]; [|reflexivity].
  by rewrite updateEnabledLoop_nothing_to_enable.
Qed.

Lemma disabling_alone_updates_nothing_witness :
  run (BatchUpdateChunkEnabledStatus id exampleRepository disableOnly) oneRowStore []
  = if Z.of_nat (size disableOnly) =? 0 then (Returned (Ok tt), [])
    else (Returned (match oneRowStore [] ListCollections with
                    | Ok _ => Ok tt
                    | Fail err => Fail (Wrap "failed to list collections: " err)
                    end),
          [existT ListCollections (oneRowStore [] ListCollections)]).
Proof.
  apply (disabling_alone_updates_nothing id exampleRepository disableOnly oneRowStore []).
  - intros entries. reflexivity.
  - intros chunkID enabled H. unfold disableOnly in H.
    apply lookup_insert_Some in H as [[_ <-]|[_ H]]; [reflexivity|].
    by apply lookup_singleton_Some in H as [_ <-].
Defined.

(** *** The updaters' failures are not reported, their requests stay in
    the repository's collections *)









(** ** Tag updater: what one group writes *)

Lemma Convert_chunk_filter chunkID chunkIDs :
  Convert (Cond fieldChunkID operatorIn (stringsValue (chunkID :: chunkIDs)))
  = Ok (mkResult "chunk_id in {chunk_id_1}"
          ({[ "chunk_id_1" := stringsValue (chunkID :: chunkIDs) ]} : gmap string value)).
Proof. reflexivity. Qed.

Lemma last_withTagID_dimension tagID rows :
  match last (map (λ row, withTagID row tagID) rows) with
  | Some e => dimensionOf e
  | None => 0
  end = default 0 (dimensionOf <$> last rows).
Proof.
  induction rows as [|x l IH] using rev_ind; [reflexivity|].
  rewrite map_app. cbn [map]. by rewrite !last_snoc.
Qed.

(** X16.  For one tag and its (non-empty) list of chunks in one collection,
    the tag updater queries the rows whose chunk id is in the list, through
    the placeholder [chunk_id_1] bound to the list, without limit; when the
    store answers with rows it writes back exactly these rows, in order,
    with the tag replaced and every other field as read; when it answers
    with no row nothing is written. *)
Theorem tag_group_writes_back (m : milvusRepository) (collectionName tagID : string)
    (chunkIDs : list string) (o : oracle) (h : list event)
    (set : ResultSet) (rows : list MilvusVectorEmbedding) :
  chunkIDs ≠ [] →
  o h (Query (chunkQuery collectionName chunkIDs)) = Ok set →
  Columns set = Ok rows →
  requests (updateTagGroup m collectionName (tagID, chunkIDs)) o h
  = Query (chunkQuery collectionName chunkIDs)
    :: match rows with
       | [] => []
       | _ => [Upsert {| uo_collection := collectionName;
                         uo_dimension := default 0 (dimensionOf <$> last rows);
                         uo_rows := map (λ row, withTagID row tagID) rows |}]
       end.
Proof.
  intros Hne Hquery Hrows. destruct chunkIDs as [|chunkID chunkIDs]; [done|].
  unfold requests, updateTagGroup, searchByFilter. rewrite Convert_chunk_filter.
  cbn [exprStr params String.eqb Ascii.eqb Bool.eqb negb].
  fold (chunkQuery collectionName (chunkID :: chunkIDs)).
  rewrite run_bind. run_bind_call. rewrite Hquery. cbv iota beta.
  unfold convertResultSet. rewrite Hrows. cbn [run fst snd app].
  rewrite map_map. cbn [embedded].
  destruct rows as [|row rows']; [reflexivity|].
  change (0 <? Z.of_nat (length (map (λ x, withTagID x tagID) (row :: rows')))) with true.
  cbv iota. unfold createUpsert. rewrite last_withTagID_dimension.
  run_bind_call. reflexivity.
Qed.

Lemma tag_group_writes_back_witness :
  requests (updateTagGroup exampleRepository "weknora_embeddings_2" ("t9", ["c2"]))
    oneRowStore []
  = Query (chunkQuery "weknora_embeddings_2" ["c2"])
    :: match [storedRow] with
       | [] => []
       | _ => [Upsert {| uo_collection := "weknora_embeddings_2";
                         uo_dimension := default 0 (dimensionOf <$> last [storedRow]);
                         uo_rows := map (λ row, withTagID row "t9") [storedRow] |}]
       end.
Proof.
  apply (tag_group_writes_back exampleRepository "weknora_embeddings_2" "t9" ["c2"]
           oneRowStore [] (mkResultSet 1 [] (Ok [storedRow])) [storedRow]).
  - discriminate.
  - reflexivity.
  - reflexivity.
Defined.

(** ** Storage estimator: the total *)

Lemma wrap64_add_l a b : wrap64 (wrap64 a + b) = wrap64 (a + b).
Proof.
  unfold wrap64. f_equal.
  replace ((a + 2 ^ 63) mod 2 ^ 64 - 2 ^ 63 + b + 2 ^ 63)
    with ((a + 2 ^ 63) mod 2 ^ 64 + b) by lia.
  rewrite Z.add_mod_idemp_l by lia. f_equal. lia.
Qed.

Lemma wrap64_add_r a b : wrap64 (a + wrap64 b) = wrap64 (a + b).
Proof. by rewrite (Z.add_comm a), wrap64_add_l, (Z.add_comm b). Qed.

Lemma EstimateStorageSize_fold l additionalParams total :
  wrap64 (fold_left (λ totalStorageSize embedding,
                       wrap64 (totalStorageSize
                               + calculateStorageSize
                                   (toMilvusVectorEmbedding embedding additionalParams)))
            l total)
  = wrap64 (total + sumOfEstimates l additionalParams).
Proof.
  revert total. induction l as [|e l IH]; intros total; simpl.
  - by rewrite Z.add_0_r.
  - rewrite IH, wrap64_add_l. f_equal. lia.
Qed.

Lemma wrap64_idemp z : wrap64 (wrap64 z) = wrap64 z.
Proof.
  replace (wrap64 (wrap64 z)) with (wrap64 (wrap64 z + 0)) by (f_equal; lia).
  rewrite wrap64_add_l. f_equal. lia.
Qed.

Lemma EstimateStorageSize_sum l additionalParams :
  EstimateStorageSize l additionalParams = wrap64 (sumOfEstimates l additionalParams).
Proof.
  replace (sumOfEstimates l additionalParams)
    with (0 + sumOfEstimates l additionalParams) by lia.
  rewrite <- (EstimateStorageSize_fold l additionalParams 0). unfold EstimateStorageSize.
  destruct l as [|e l _] using rev_ind; [reflexivity|].
  rewrite fold_left_app. simpl. by rewrite wrap64_idemp.
Qed.

Lemma sumOfEstimates_app l1 l2 additionalParams :
  sumOfEstimates (l1 ++ l2) additionalParams
  = sumOfEstimates l1 additionalParams + sumOfEstimates l2 additionalParams.
Proof. induction l1 as [|e l1 IH]; simpl; [reflexivity|]. rewrite IH. lia. Qed.

(** X17.  The total estimate is the sum of the estimates of the records,
    reduced once to a 64-bit integer: the reductions after each record do
    not show.  Hence the estimate of two lists put together is the sum of
    their estimates (reduced), and the estimate of no record is zero. *)
Theorem EstimateStorageSize_is_sum (indexInfoList more : list IndexInfo)
    (additionalParams : gmap string paramValue) :
  EstimateStorageSize indexInfoList additionalParams
  = wrap64 (sumOfEstimates indexInfoList additionalParams)
  ∧ EstimateStorageSize (indexInfoList ++ more) additionalParams
    = wrap64 (EstimateStorageSize indexInfoList additionalParams
              + EstimateStorageSize more additionalParams)
  ∧ EstimateStorageSize [] additionalParams = 0.
Proof.
  split; [apply EstimateStorageSize_sum|]. split; [|reflexivity].
  rewrite !EstimateStorageSize_sum, sumOfEstimates_app.
  by rewrite wrap64_add_l, wrap64_add_r.
Qed.

(** X18.  The total estimate does not depend on the order of the
    records. *)
Theorem EstimateStorageSize_order (indexInfoList reordered : list IndexInfo)
    (additionalParams : gmap string paramValue) :
  Permutation indexInfoList reordered →
  EstimateStorageSize indexInfoList additionalParams
  = EstimateStorageSize reordered additionalParams.
Proof.
  intros Hperm. rewrite !EstimateStorageSize_sum. f_equal.
  induction Hperm as [|x l l' _ IH|x y l|l l' l'' _ IH1 _ IH2]; simpl; lia.
Qed.

Lemma EstimateStorageSize_order_witness :
  EstimateStorageSize [exampleRecord "s1" "c1"; exampleRecord "s2" "c2"] exampleParams
  = EstimateStorageSize [exampleRecord "s2" "c2"; exampleRecord "s1" "c1"] exampleParams.
Proof.
  apply (EstimateStorageSize_order
           [exampleRecord "s1" "c1"; exampleRecord "s2" "c2"]
           [exampleRecord "s2" "c2"; exampleRecord "s1" "c1"] exampleParams).
  apply perm_swap.
Defined.

(** ** Retrieval: requests and matches *)

Lemma keywordsLoop_reads m rparams collections allResults :
  satisfies readRequest (λ _, True) (keywordsLoop m rparams collections allResults).
Proof.
  revert allResults. induction collections as [|c cs IH]; intros allResults; [exact I|].
  cbn [keywordsLoop]. destruct (negb (matchesBaseName m c)); [apply IH|].
  destruct (getBaseFilterForQuery rparams) as [[expr paramsMap]|err]; [|apply IH].
  eapply satisfies_bind; [by apply satisfies_call|].
  intros [resultSet|err] _; [|apply IH].
  destruct (convertResultSet resultSet) as [[sets scores]|err]; apply IH.
Qed.

(** X19.  Retrieval reads only: whatever the retriever type and the
    answers of the store, [Retrieve] issues nothing but existence checks,
    listings and searches; it writes, deletes, creates and loads
    nothing. *)
Theorem Retrieve_reads_only (m : milvusRepository) (rparams : RetrieveParams)
    (o : oracle) (h : list event) :
  Forall readRequest (requests (Retrieve m rparams) o h).
Proof.
  apply (satisfies_run _ (λ _, True)). unfold Retrieve.
  destruct (rp_RetrieverType rparams); [| |exact I].
  - unfold KeywordsRetrieve. eapply satisfies_bind; [by apply satisfies_call|].
    intros [collections|err] _; [|exact I].
    eapply satisfies_bind; [apply keywordsLoop_reads|].
    intros allResults _. by repeat (case_match; try exact I).
  - unfold VectorRetrieve. eapply satisfies_bind; [by apply satisfies_call|].
    intros [[|]|err] _; try exact I. cbn [negb].
    destruct (getBaseFilterForQuery rparams) as [[expr paramsMap]|err]; [|exact I].
    eapply satisfies_bind; [by apply satisfies_call|].
    intros [resultSet|err] _; [|exact I].
    by repeat (case_match; try exact I).
Qed.

Lemma attachScores_enough rows scores :
  (length rows ≤ length scores)%nat →
  attachScores (map (λ d, mkWithScore d 0) rows) (map float64_of_float32 scores)
  = Some (zip_with vectorMatch rows scores).
Proof.
  revert scores. induction rows as [|row rows IH]; intros [|score scores] Hlen;
    simpl in *; try lia; [reflexivity..|].
  rewrite IH by lia. reflexivity.
Qed.

Lemma attachScores_short rows scores :
  (length scores < length rows)%nat →
  attachScores (map (λ d, mkWithScore d 0) rows) (map float64_of_float32 scores) = None.
Proof.
  revert scores. induction rows as [|row rows IH]; intros [|score scores] Hlen;
    simpl in *; try lia; [reflexivity|].
  rewrite IH by lia. reflexivity.
Qed.

(** X20.  [VectorRetrieve] on an existing collection: one search in the
    collection of the dimension of the query vector, on the vector field,
    limited to top-K, with a radius iff the threshold is positive and with
    the base filter; when the store answers with rows and at least as many
    scores, the result is the rows of the first result set in order, each
    with its score widened to [float64] and tagged as a vector match; when
    it answers with fewer scores than rows, the method panics. *)
Theorem VectorRetrieve_matches (m : milvusRepository) (rparams : RetrieveParams)
    (o : oracle) (h : list event) (expr : string) (paramsMap : gmap string value)
    (set : ResultSet) (others : list ResultSet) (rows : list MilvusVectorEmbedding) :
  let collectionName := getCollectionName m (Z.of_nat (length (rp_Embedding rparams))) in
  let search := Search (vectorSearchOption m rparams expr paramsMap) in
  getBaseFilterForQuery rparams = Ok (expr, paramsMap) →
  o h (HasCollection collectionName) = Ok true →
  o (h ++ [existT (HasCollection collectionName) (Ok true)]) search = Ok (set :: others) →
  Columns set = Ok rows →
  requests (VectorRetrieve m rparams) o h = [HasCollection collectionName; search]
  ∧ (run (VectorRetrieve m rparams) o h).1
    = if (length rows <=? length (Scores set))%nat
      then Returned (Ok (buildRetrieveResult (zip_with vectorMatch rows (Scores set))
                           VectorRetrieverType))
      else Panicked "index out of range".
Proof.
  intros collectionName search Hfilter Hhas Hsearch Hrows.
  unfold requests, VectorRetrieve. run_bind_call. fold collectionName. rewrite Hhas.
  cbn [negb]. cbv iota beta. rewrite Hfilter. cbv iota beta zeta.
  assert ({| so_collection := collectionName;
             so_limit := rp_TopK rparams;
             so_vector := FloatVector (rp_Embedding rparams);
             so_annsField := fieldEmbedding;
             so_radius := if float64_gt_zero (rp_Threshold rparams)
                          then Some (rp_Threshold rparams) else None;
             so_filter := if negb (String.eqb expr EmptyString) then expr else EmptyString;
             so_templateParams := if negb (String.eqb expr EmptyString)
                                  then paramsMap else ∅;
             so_outputFields := ["*"] |}
          = vectorSearchOption m rparams expr paramsMap) as ->.
  { unfold vectorSearchOption. fold collectionName.
    destruct (String.eqb expr EmptyString) eqn:Hexpr; [|reflexivity].
    apply String.eqb_eq in Hexpr. by subst expr. }
  run_bind_call. fold search. rewrite Hsearch. cbv iota beta.
  unfold convertResultSet. rewrite Hrows.
  destruct (length rows <=? length (Scores set))%nat eqn:Hlen.
  - apply Nat.leb_le in Hlen. rewrite attachScores_enough by exact Hlen.
    split; reflexivity.
  - apply Nat.leb_gt in Hlen. rewrite attachScores_short by exact Hlen.
    split; reflexivity.
Qed.

Lemma VectorRetrieve_matches_witness :
  requests (VectorRetrieve exampleRepository exampleQuery) vectorStore []
  = [HasCollection (getCollectionName exampleRepository 3);
     Search (vectorSearchOption exampleRepository exampleQuery
               "knowledge_base_id in {knowledge_base_id_1}"
               {[ "knowledge_base_id_1" := stringsValue ["kb-1"] ]})]
  ∧ (run (VectorRetrieve exampleRepository exampleQuery) vectorStore []).1
    = Returned (Ok (buildRetrieveResult
                      (zip_with vectorMatch
                         [withID storedRow "id-1"; withID storedRow "id-2"]
                         [0x40000000; 0x3F000000])
                      VectorRetrieverType)).
Proof.
  apply (VectorRetrieve_matches exampleRepository exampleQuery vectorStore []
           "knowledge_base_id in {knowledge_base_id_1}"
           {[ "knowledge_base_id_1" := stringsValue ["kb-1"] ]}
           (mkResultSet 2 [0x40000000; 0x3F000000]
              (Ok [withID storedRow "id-1"; withID storedRow "id-2"]))
           [] [withID storedRow "id-1"; withID storedRow "id-2"]);
    vm_compute; reflexivity.
Defined.

(** X21.  With a negative top-K, [KeywordsRetrieve] panics once the
    collections are listed, whether or not anything matches: the length of
    the matches exceeds top-K, and the truncation to a negative length is
    out of the bounds of the slice. *)
Theorem KeywordsRetrieve_negative_topK_panics (m : milvusRepository)
    (rparams : RetrieveParams) (o : oracle) (h : list event) (collections : list string) :
  o h ListCollections = Ok collections →
  rp_TopK rparams < 0 →
  (run (KeywordsRetrieve m rparams) o h).1 = Panicked "slice bounds out of range".
Proof.
  intros Hlist Hneg. unfold KeywordsRetrieve. run_bind_call. rewrite Hlist.
  cbv iota beta. rewrite run_bind.
  destruct (getBaseFilterForQuery_ok rparams) as (expr & paramsMap & Hfilter).
  pose proof (run_keywordsLoop m rparams expr paramsMap o Hfilter collections []
                (h ++ [existT ListCollections (Ok collections)])) as [Hout _].
  destruct (run (keywordsLoop m rparams collections []) o _) as [out t].
  cbn [fst snd] in Hout. subst out. cbv iota beta.
  rewrite (proj2 (Z.ltb_lt _ _)) by lia.
  by rewrite (proj2 (Z.ltb_lt _ _) Hneg).
Qed.

Lemma KeywordsRetrieve_negative_topK_panics_witness :
  (run (KeywordsRetrieve exampleRepository negativeTopKQuery) keywordStore []).1
  = Panicked "slice bounds out of range".
Proof.
  apply (KeywordsRetrieve_negative_topK_panics exampleRepository negativeTopKQuery
           keywordStore [] ["weknora_embeddings_2"; "unrelated"; "weknora_embeddings_3"]).
  - reflexivity.
  - reflexivity.
Defined.

(** ** Conversions between records and rows *)

(** X22.  A record converted to a row and the row, under any identifier,
    converted to a match gives the record back: content, source, chunk,
    knowledge, knowledge base, tag and source type survive the two
    conversions, whatever the additional parameters; the match carries the
    identifier, the score and the match type it was built with. *)
Theorem record_survives_conversions (embedding : IndexInfo)
    (additionalParams : gmap string paramValue) (id : string) (score : float64)
    (matchType : MatchType) :
  let row := withID (toMilvusVectorEmbedding embedding additionalParams) id in
  let found := fromMilvusVectorEmbedding (ID row) (mkWithScore row score) matchType in
  indexInfoOf found = embedding
  ∧ iws_ID found = id ∧ iws_Score found = score ∧ iws_MatchType found = matchType.
Proof.
  cbv zeta. destruct embedding. unfold toMilvusVectorEmbedding.
  by destruct (additionalParams !! fieldEmbedding) as [[]|].
Qed.

(** ** The base filter of a query *)


Lemma base_filter_check rparams :
  match getBaseFilterForQuery rparams with
  | Ok (expr, paramsMap) =>
      Nat.eqb (size paramsMap) (length (criteria rparams))
      && Bool.eqb (String.eqb expr EmptyString)
                  (Nat.eqb (length (criteria rparams)) 0)
  | Fail _ => false
  end = true.
Proof.
  destruct rparams as [ty q emb topK thr kbs ks tags xks xcs].
  unfold getBaseFilterForQuery, criteria.
  cbn [rp_KnowledgeBaseIDs rp_KnowledgeIDs rp_TagIDs
         rp_ExcludeKnowledgeIDs rp_ExcludeChunkIDs].
  destruct kbs as [|kb kbs], ks as [|k ks], tags as [|tag tags],
    xks as [|xk xks], xcs as [|xc xcs]; vm_compute; reflexivity.
Qed.

(** X23.  The base filter of a query is always built: with no criterion
    the expression is empty and nothing is bound; otherwise the expression
    is not empty and exactly one parameter is bound per non-empty list of
    identifiers. *)
Theorem base_filter_binds_one_parameter_per_criterion (rparams : RetrieveParams) :
  ∃ expr paramsMap,
    getBaseFilterForQuery rparams = Ok (expr, paramsMap)
    ∧ size paramsMap = length (criteria rparams)
    ∧ (expr = EmptyString ↔ criteria rparams = []).
Proof.
  pose proof (base_filter_check rparams) as H.
  destruct (getBaseFilterForQuery rparams) as [[expr paramsMap]|err]; [|discriminate].
  apply andb_true_iff in H as [Hsize Hexpr].
  apply Nat.eqb_eq in Hsize. apply Bool.eqb_prop in Hexpr.
  exists expr, paramsMap. split; [reflexivity|]. split; [exact Hsize|].
  rewrite <- String.eqb_eq, Hexpr, Nat.eqb_eq. apply length_zero_iff_nil.
Qed.

(** ** Queries by filter *)

(** X24.  A filter that the compiler rejects never reaches the store:
    [searchByFilter] returns the error of the compiler and issues no
    request.  For a well-formed filter it issues exactly one query, in the
    given collection, with the given limit and offset, for all fields, and
    always with the compiled expression and its parameters: the compiled
    expression of a well-formed filter is never empty. *)
Theorem searchByFilter_sends_valid_filters_only (m : milvusRepository)
    (collectionName : string) (filter : condptr) (limit offset : option Z)
    (o : oracle) (h : list event) :
  let p := searchByFilter m collectionName filter limit offset in
  if valid filter
  then ∃ r, Convert filter = Ok r
            ∧ exprStr r ≠ EmptyString
            ∧ requests p o h
              = [Query {| qo_collection := collectionName;
                          qo_filter := exprStr r;
                          qo_templateParams := params r;
                          qo_outputFields := ["*"];
                          qo_limit := limit;
                          qo_offset := offset |}]
  else ∃ err, Convert filter = Fail err ∧ run p o h = (Returned (Fail err), []).
Proof.
  cbv zeta. rewrite <- (convertCondition_accepts filter 0).
  unfold requests, searchByFilter, Convert.
  destruct (convertCondition filter 0) as [[r n]|err] eqn:Hconv; cbn [isOk]; [|eauto].
  pose proof (convertCondition_nonempty filter 0 r n Hconv) as Hne.
  exists r. split; [reflexivity|]. split; [exact Hne|].
  rewrite (eqb_empty_false _ Hne). cbn [negb].
  run_bind_call. destruct (o h (Query _)) as [set|err]; [|reflexivity].
  unfold convertResultSet. by destruct (Columns set).
Qed.

(** ** Copy between knowledge bases: the collection *)

Lemma ensureCollection_inCollection m dimension :
  satisfies (inCollection (getCollectionName m dimension)) (λ _, True)
    (ensureCollection m dimension).
Proof.
  unfold ensureCollection, mbind, prog_bind. simpl.
  split; [exact I|]. intros [|]; simpl; [exact I|].
  split; [reflexivity|]. intros [[|]|err]; simpl; try exact I.
  - split; [reflexivity|]. intros [[]|err]; simpl; [|exact I].
    split; [reflexivity|]. intros [[]|err]; simpl; [|exact I].
    split; [exact I|]. intros []. exact I.
  - split; [reflexivity|]. intros [[]|err]; simpl; [|exact I].
    split; [reflexivity|]. intros [[]|err]; simpl; [|exact I].
    split; [reflexivity|]. intros [[]|err]; simpl; [|exact I].
    split; [exact I|]. intros []. exact I.
Qed.

Lemma searchByFilter_inCollection m collectionName filter limit offset :
  satisfies (inCollection collectionName) (λ _, True)
    (searchByFilter m collectionName filter limit offset).
Proof.
  unfold searchByFilter. destruct (Convert filter) as [r|err]; [|exact I].
  eapply satisfies_bind; [by apply satisfies_call|].
  intros [set|err] _; [|exact I].
  by destruct (convertResultSet [set]) as [[embeddings scores]|err].
Qed.

Lemma copyRows_inCollection collectionName kbMap chunkMap targetKB sourceEmbeddings :
  satisfies (inCollection collectionName) (λ _, True)
    (copyRows kbMap chunkMap targetKB sourceEmbeddings).
Proof.
  induction sourceEmbeddings as [|src srcs IH]; [exact I|].
  cbn [copyRows]. destruct (chunkMap !! _) as [targetChunk|]; [|exact IH].
  destruct (kbMap !! _) as [targetKnowledge|]; [|exact IH].
  eapply satisfies_bind with (Q := λ _, True).
  { unfold targetSourceIDOf. by repeat case_match. }
  intros targetSource _. eapply satisfies_bind; [by apply satisfies_call|].
  intros id _. eapply satisfies_bind; [exact IH|]. by intros rows _.
Qed.

Lemma copyPage_inCollection m collectionName sourceKB kbMap chunkMap targetKB offset :
  satisfies (inCollection collectionName) (λ _, True)
    (copyPage m collectionName sourceKB kbMap chunkMap targetKB offset).
Proof.
  unfold copyPage. eapply satisfies_bind; [apply searchByFilter_inCollection|].
  intros [[sourceEmbeddings count]|err] _; [|exact I].
  destruct (_ =? 0); [exact I|].
  eapply satisfies_bind; [apply copyRows_inCollection|].
  intros targetEmbeddings _. eapply satisfies_bind with (Q := λ _, True).
  { destruct (0 <? _); [by apply satisfies_call|exact I]. }
  intros [[]|err] _; [|exact I]. by destruct (count <? batchSize).
Qed.

Lemma copyLoop_inCollection fuel m collectionName sourceKB kbMap chunkMap targetKB offset :
  satisfies (inCollection collectionName) (λ _, True)
    (copyLoop fuel m collectionName sourceKB kbMap chunkMap targetKB offset).
Proof.
  revert offset. induction fuel as [|fuel IH]; intros offset; [exact I|].
  cbn [copyLoop]. eapply satisfies_bind; [apply copyPage_inCollection|].
  intros [res|offset'] _; [exact I|apply IH].
Qed.

(** X25.  [CopyIndices] works in one collection, the one of the given
    dimension: every query and every upsert of a copy addresses it, as
    does the preparation of the collection; the copy lists, searches and
    deletes nothing.  With an empty chunk table it returns success at once,
    without any request. *)
Theorem CopyIndices_stays_in_collection (fuel : nat) (m : milvusRepository)
    (sourceKB targetKB : string) (kbMap chunkMap : gmap string string)
    (dimension : Z) (knowledgeType : string) (o : oracle) (h : list event) :
  Forall (inCollection (getCollectionName m dimension))
    (requests (CopyIndices fuel m sourceKB kbMap chunkMap targetKB dimension knowledgeType)
       o h)
  ∧ run (CopyIndices fuel m sourceKB kbMap ∅ targetKB dimension knowledgeType) o h
    = (Returned (Some (Ok tt)), []).
Proof.
  split; [|reflexivity].
  apply (satisfies_run _ (λ _, True)). unfold CopyIndices.
  destruct (_ =? 0); [exact I|].
  eapply satisfies_bind; [apply ensureCollection_inCollection|].
  intros [[]|err] _; [|exact I]. apply copyLoop_inCollection.
Qed.

(** ** Tag updater: the groups *)

Lemma groupByTag_snoc entries chunkID tagID :
  groupByTag (entries ++ [(chunkID, tagID)])
  = <[ tagID := default [] (groupByTag entries !! tagID) ++ [chunkID] ]> (groupByTag entries).
Proof. unfold groupByTag. by rewrite fold_left_app. Qed.

Lemma groupByTag_lookup entries tagID :
  groupByTag entries !! tagID
  = nonEmpty (map fst (List.filter (λ entry, String.eqb entry.2 tagID) entries)).
Proof.
  induction entries as [|[chunkID tag] entries IH] using rev_ind; [reflexivity|].
  rewrite groupByTag_snoc, List.filter_app, map_app. cbn [List.filter snd].
  destruct (String.eqb tag tagID) eqn:Htag.
  - apply String.eqb_eq in Htag. subst tag.
    rewrite lookup_insert_eq, IH, default_nonEmpty. cbn [map fst].
    by rewrite nonEmpty_snoc.
  - apply String.eqb_neq in Htag. rewrite lookup_insert_ne by done.
    cbn [map]. by rewrite app_nil_r.
Qed.

(** X26.  The tag updater puts every chunk of its input in the group of
    its tag and in no other group: a chunk is in the group of a tag iff
    the input maps the chunk to that tag, in whatever order the run time
    ranges over the input. *)
Theorem tag_groups_partition
    (rangeOrder : list (string * string) → list (string * string))
    (chunkTagMap : gmap string string) (chunkID tagID : string) :
  (∀ entries, Permutation (rangeOrder entries) entries) →
  chunkTagMap !! chunkID = Some tagID
  ↔ ∃ chunkIDs, groupByTag (rangeOrder (map_to_list chunkTagMap)) !! tagID = Some chunkIDs
                ∧ In chunkID chunkIDs.
Proof.
  intros Hperm. rewrite groupByTag_lookup.
  set (entries := rangeOrder (map_to_list chunkTagMap)).
  assert (∀ c t, In (c, t) entries ↔ chunkTagMap !! c = Some t) as Hentries.
  { intros c t. unfold entries. rewrite <- elem_of_map_to_list, <- list_elem_of_In.
    by rewrite (Hperm _). }
  assert (In chunkID (map fst (List.filter (λ entry, String.eqb entry.2 tagID) entries))
          ↔ chunkTagMap !! chunkID = Some tagID) as Hin.
  { rewrite in_map_iff. split.
    - intros ([c t] & <- & Hf). apply List.filter_In in Hf as [Hf Ht].
      apply String.eqb_eq in Ht. simpl in Ht. subst t. by apply Hentries.
    - intros Hc. exists (chunkID, tagID). split; [reflexivity|].
      apply List.filter_In. split; [by apply Hentries|]. apply String.eqb_refl. }
  split.
  - intros Hc. apply Hin in Hc.
    destruct (map fst _) as [|x l] eqn:Hl; [destruct Hc|].
    exists (x :: l). by split.
  - intros (chunkIDs & Hgroup & Hc). apply Hin.
    destruct (map fst _) as [|x l]; [discriminate|].
    by injection Hgroup as <-.
Qed.

Lemma tag_groups_partition_witness :
  exampleTags !! "c3" = Some "t1"
  ↔ ∃ chunkIDs, groupByTag (id (map_to_list exampleTags)) !! "t1" = Some chunkIDs
                ∧ In "c3" chunkIDs.
Proof.
  apply (tag_groups_partition id exampleTags "c3" "t1").
  intros entries. reflexivity.
Defined.

(** ** Collection manager: the second call *)

Lemma ensureCollection_success m dimension (o : oracle) h :
  (run (ensureCollection m dimension) o h).1 = Returned (Ok tt) →
  o h (CacheLoad dimension) = true
  ∨ In (CacheStore dimension) (map requestOf (run (ensureCollection m dimension) o h).2).
Proof.
  unfold ensureCollection. run_bind_call.
  destruct (o h (CacheLoad dimension)); [intros _; by left|].
  cbv iota.
  match goal with
  | |- context [run ?p o ?h1] =>
      pose proof (always_run
                    (λ t out, out = Returned (Ok tt) →
                              In (CacheStore dimension) (map requestOf t)) p o h1) as Hrest;
      destruct (run p o h1) as [out t]
  end.
  cbn [fst snd] in *. intros Hout. right. cbn [app map].
  apply in_cons, Hrest; [|exact Hout].
  unfold mbind, prog_bind. simpl.
  intros [[|]|err]; simpl; [| |discriminate].
  - intros [[]|err]; simpl; [|discriminate].
    intros [[]|err]; simpl; [|discriminate]. intros []. auto 10.
  - intros [[]|err]; simpl; [|discriminate].
    intros [[]|err]; simpl; [|discriminate].
    intros [[]|err]; simpl; [|discriminate]. intros []. auto 10.
Qed.

(** X27.  With a cache that remembers what is stored in it, a dimension
    is prepared once: after a call of [ensureCollection] that succeeded,
    the next call for the same dimension asks the cache only and succeeds,
    whatever the store would answer. *)
Theorem ensureCollection_second_call_is_cached (m : milvusRepository) (dimension : Z)
    (o : oracle) (h t : list event) :
  cacheConsistent o →
  run (ensureCollection m dimension) o h = (Returned (Ok tt), t) →
  ∀ later, run (ensureCollection m dimension) o (h ++ t ++ later)
           = (Returned (Ok tt), [existT (CacheLoad dimension) true]).
Proof.
  intros Hcache Hrun later.
  pose proof (ensureCollection_success m dimension o h) as Hsuccess.
  rewrite Hrun in Hsuccess. cbn [fst snd] in Hsuccess.
  assert (o (h ++ t ++ later) (CacheLoad dimension) = true) as Hhit.
  { apply Hcache. rewrite !map_app, !in_app_iff.
    destruct (Hsuccess eq_refl) as [Hbefore|Hnow]; [|auto].
    left. by apply Hcache. }
  unfold ensureCollection. run_bind_call. by rewrite Hhit.
Qed.

Lemma cachingStore_consistent : cacheConsistent cachingStore.
Proof.
  intros h dimension. simpl. rewrite existsb_exists, in_map_iff. split.
  - intros (e & He & Hd). exists e. split; [|exact He].
    destruct (requestOf e); try discriminate. apply Z.eqb_eq in Hd. by subst.
  - intros (e & He & Hin). exists e. split; [exact Hin|]. rewrite He.
    apply Z.eqb_refl.
Qed.

Lemma ensureCollection_second_call_is_cached_witness :
  run (ensureCollection exampleRepository 4) cachingStore
    ([] ++ (run (ensureCollection exampleRepository 4) cachingStore []).2
        ++ [existT NewUUID "uuid-1"])
  = (Returned (Ok tt), [existT (CacheLoad 4) true]).
Proof.
  apply (ensureCollection_second_call_is_cached exampleRepository 4 cachingStore []
           (run (ensureCollection exampleRepository 4) cachingStore []).2).
  - exact cachingStore_consistent.
  - vm_compute. reflexivity.
Defined.

(** ** Write path: one record *)

(** X28.  For a record with a vector, [Save] is [BatchSave] of the record
    alone: the two issue the same requests and get the same answers, and
    one succeeds iff the other does (they differ in the wording of a
    failure of the upsert only). *)
Theorem Save_is_singleton_BatchSave
    (rangeOrder : list (Z * list IndexInfo) → list (Z * list IndexInfo))
    (m : milvusRepository) (embedding : IndexInfo)
    (additionalParams : gmap string paramValue) (o : oracle) (h : list event) :
  (∀ groups, Permutation (rangeOrder groups) groups) →
  Embedding (toMilvusVectorEmbedding embedding additionalParams) ≠ [] →
  (run (Save m embedding additionalParams) o h).2
  = (run (BatchSave rangeOrder m [embedding] additionalParams) o h).2
  ∧ ((run (Save m embedding additionalParams) o h).1 = Returned (Ok tt)
     ↔ (run (BatchSave rangeOrder m [embedding] additionalParams) o h).1
       = Returned (Ok tt)).
Proof.
  intros Hperm Hvector. rewrite (BatchSave_run _ _ _ _ _ _ Hperm).
  set (d := dimensionOf (toMilvusVectorEmbedding embedding additionalParams)).
  assert ((d =? 0) = false) as Hd.
  { apply Z.eqb_neq. unfold d, dimensionOf.
    destruct (Embedding _); [done|]. simpl. lia. }
  assert (groupByDimension [embedding] additionalParams = {[ d := [embedding] ]}) as ->.
  { unfold groupByDimension. cbn [fold_left]. fold d. rewrite Hd.
    by rewrite lookup_empty. }
  rewrite map_to_list_singleton.
  rewrite (proj1 (Permutation_singleton_r _ _) (Hperm _)).
  unfold Save. fold d. rewrite Hd. cbn [saveGroups]. unfold saveGroup.
  rewrite !run_bind.
  destruct (run (ensureCollection m d) o h) as [[[[]|err]|msg] t1];
    [|cbn [run fst snd]; rewrite ?app_nil_r; by split..].
  cbn [assignIDs].
  repeat (rewrite run_bind; cbn [run call fst snd]).
  rewrite ?app_nil_r.
  destruct (o _ (Upsert _)) as [[]|err]; cbn [run fst snd]; rewrite ?app_nil_r; by split.
Qed.

Lemma Save_is_singleton_BatchSave_witness :
  (run (Save exampleRepository (exampleRecord "s1" "c1") exampleParams) emptyStore []).2
  = (run (BatchSave id exampleRepository [exampleRecord "s1" "c1"] exampleParams)
       emptyStore []).2
  ∧ ((run (Save exampleRepository (exampleRecord "s1" "c1") exampleParams)
        emptyStore []).1 = Returned (Ok tt)
     ↔ (run (BatchSave id exampleRepository [exampleRecord "s1" "c1"] exampleParams)
          emptyStore []).1 = Returned (Ok tt)).
Proof.
  apply (Save_is_singleton_BatchSave id exampleRepository (exampleRecord "s1" "c1")
           exampleParams emptyStore []).
  - intros groups. reflexivity.
  - discriminate.
Defined.

(** ** Filter compiler: trees without [between] *)

(** X29.  For an accepted tree without [between], the generated parameter
    names are pairwise distinct and the parameter map has exactly one
    entry per comparison or membership leaf. *)
Theorem names_distinct_without_between (c : condptr) (r : convertResult) :
  betweenFree c = true → Z.of_nat (leaves c) < 2 ^ 63 →
  Convert c = Ok r →
  NoDup (paramNames c) ∧ size (params r) = leaves c.
Proof.
  intros Hfree Hbound Hconv. split.
  - by eapply betweenFree_names_distinct.
  - by apply betweenFree_one_entry_per_leaf.
Qed.

Lemma names_distinct_without_between_witness :
  NoDup (paramNames (injectionTree "bob' or 1 == 1" [VInt 3; VInt 4]))
  ∧ size (params injectionResult) = leaves (injectionTree "bob' or 1 == 1" [VInt 3; VInt 4]).
Proof.
  apply (names_distinct_without_between (injectionTree "bob' or 1 == 1" [VInt 3; VInt 4])
           injectionResult).
  - reflexivity.
  - vm_compute. reflexivity.
  - vm_compute. reflexivity.
Defined.

(** ** Escaping of string literals: properties *)

Lemma escapeDoubleQuotes_bare s b : bareQuote b (escapeDoubleQuotes s) = false.
Proof.
  revert b. induction s as [|c s IH]; intros b; [reflexivity|]. simpl.
  destruct (Ascii.eqb c doubleQuote) eqn:Hc; simpl.
  - apply IH.
  - rewrite Hc. simpl. apply IH.
Qed.

Lemma escapeDoubleQuotes_head s c rest :
  escapeDoubleQuotes s = String c rest → Ascii.eqb c doubleQuote = false.
Proof.
  destruct s as [|x s]; [discriminate|]. simpl.
  destruct (Ascii.eqb x doubleQuote) eqn:Hx; intros [= <- _]; [reflexivity|exact Hx].
Qed.

(** X30.  In the output of [escapeDoubleQuotes] every double quote
    directly follows a backslash, and dropping the backslash before each
    double quote gives the input back: the quotes are the only thing
    escaped (a backslash of the input stays as it is), and no two inputs
    have the same output. *)
Theorem escapeDoubleQuotes_round_trip (s : string) :
  bareQuote false (escapeDoubleQuotes s) = false
  ∧ dropQuoteEscapes (escapeDoubleQuotes s) = s.
Proof.
  split; [apply escapeDoubleQuotes_bare|].
  induction s as [|c s IH]; [reflexivity|]. cbn [escapeDoubleQuotes].
  destruct (Ascii.eqb c doubleQuote) eqn:Hc.
  - apply Ascii.eqb_eq in Hc. subst c. cbn [dropQuoteEscapes].
    change (Ascii.eqb backslash backslash && Ascii.eqb doubleQuote doubleQuote) with true.
    cbv iota. by rewrite IH.
  - cbn [dropQuoteEscapes].
    destruct (escapeDoubleQuotes s) as [|q rest] eqn:Hs.
    + destruct s as [|x s']; [reflexivity|]. simpl in Hs.
      by destruct (Ascii.eqb x doubleQuote).
    + rewrite (escapeDoubleQuotes_head _ _ _ Hs), andb_false_r. by rewrite IH.
Qed.
